(** * Dwarf: extension lifecycle and command dispatch

    A shallow embedding of the management commands of the Dwarf bot
    ([bot.py], [core/cogs.py], [core/controllers.py]) and the properties
    its specification states about them.

    Conventions.  Python strings are [string]; a character is read as a
    code point below 256.  A coroutine is a state transformer that either
    returns a value or raises.  Collaborators whose code is outside the
    three modules (the extension registry, the package manager, the
    messaging layer) are the methods of a type class, so a theorem about
    a command can hold for all their behaviours; [Sim] instantiates the
    class with the collaborators the specification describes. *)

From Stdlib Require Import ZArith Ascii String.
From stdpp Require Import base option list strings gmap.

Local Open Scope string_scope.
Local Open Scope list_scope.

(** ** Python values and control *)

Inductive exn : Type :=
  | TypeError
  | ValueError
  | IndexError
  | RecursionError
  | TimeoutError
  | ExtensionAlreadyInstalled
  | ExtensionNotFound
  | ExtensionNotInIndex
  | PrefixAlreadyExists
  | PrefixNotFound.

Global Instance exn_eq_dec : EqDecision exn.
Proof. solve_decision. Defined.

Inductive result (A : Type) : Type :=
  | Ret (a : A)
  | Raise (e : exn).
Arguments Ret {A} a.
Arguments Raise {A} e.

(** What a prompt helper or a nested procedure hands back: the code only
    ever tests these with [is True], [is False] and [is None]. *)
Inductive pyvalue : Type :=
  | PyTrue
  | PyFalse
  | PyNone
  | PyMessage (content : string).

Definition is_True (v : pyvalue) : bool :=
  match v with PyTrue => true | _ => false end.
Definition is_False (v : pyvalue) : bool :=
  match v with PyFalse => true | _ => false end.
Definition is_None (v : pyvalue) : bool :=
  match v with PyNone => true | _ => false end.

(** State and exception monad: the state survives a raise, as the
    mutations a coroutine made before raising do. *)
Definition M (St A : Type) : Type := St → result A * St.

Definition ret {St A} (a : A) : M St A := λ s, (Ret a, s).
Definition raise {St A} (e : exn) : M St A := λ s, (Raise e, s).
Definition bind {St A B} (m : M St A) (k : A → M St B) : M St B :=
  λ s, match m s with
       | (Ret a, s') => k a s'
       | (Raise e, s') => (Raise e, s')
       end.
Definition get {St} : M St St := λ s, (Ret s, s).
Definition modify {St} (f : St → St) : M St unit := λ s, (Ret tt, f s).

Declare Scope py_scope.
Delimit Scope py_scope with py.
Notation "'let*' x ':=' m 'in' k" := (bind m (λ x, k))
  (at level 10, x name, m at level 100, k at level 200) : py_scope.
Notation "'let*' '_' ':=' m 'in' k" := (bind m (λ _, k))
  (at level 10, m at level 100, k at level 200) : py_scope.
Local Open Scope py_scope.

(** ** Lists as Python lists *)

(** [l.remove(x)]: drops the first occurrence; [None] stands for the
    [ValueError] of an absent element. *)
Fixpoint list_remove (x : string) (l : list string) : option (list string) :=
  match l with
  | [] => None
  | y :: l' =>
      if String.eqb x y then Some l'
      else match list_remove x l' with
           | Some r => Some (y :: r)
           | None => None
           end
  end.

Definition mem (x : string) (l : list string) : bool :=
  existsb (String.eqb x) l.

(** [for x in l: body], where the body may change [l] itself.  The list
    iterator keeps an index into the live list and stops when the index
    reaches its current length.  [n] bounds the number of iterations; a
    body that never grows the list needs at most [length l] of them. *)
Fixpoint for_in {St} (n i : nat) (body : string → list string → M St (list string))
    (l : list string) : M St (list string) :=
  match n with
  | O => ret l
  | S n' =>
      match l !! i with
      | None => ret l
      | Some x => let* l' := body x l in for_in n' (S i) body l'
      end
  end.

(** ** Strings as Python [str] *)

Definition code (c : ascii) : nat := nat_of_ascii c.

(** [str.lower] on code points below 256: A-Z and the Latin-1 capitals
    (0xC0-0xDE without the multiplication sign 0xD7) move up by 32. *)
Definition lower_char (c : ascii) : ascii :=
  let n := code c in
  if ((65 <=? n) && (n <=? 90))%nat then ascii_of_nat (n + 32)
  else if ((192 <=? n) && (n <=? 222) && negb (n =? 215))%nat then ascii_of_nat (n + 32)
  else c.

Fixpoint lower (s : string) : string :=
  match s with
  | EmptyString => EmptyString
  | String c s' => String (lower_char c) (lower s')
  end.

(** [str.isspace] on one code point below 256. *)
Definition is_space (c : ascii) : bool :=
  let n := code c in
  (((9 <=? n) && (n <=? 13)) || ((28 <=? n) && (n <=? 32))
   || (n =? 133) || (n =? 160))%nat.

(** [s.split()]: maximal runs of non-space characters, in order. *)
Fixpoint split_aux (cur : string) (s : string) : list string :=
  match s with
  | EmptyString => if String.eqb cur "" then [] else [cur]
  | String c s' =>
      if is_space c
      then (if String.eqb cur "" then split_aux "" s' else cur :: split_aux "" s')
      else split_aux (cur +:+ String c "") s'
  end.
Definition split (s : string) : list string := split_aux "" s.

Definition startswith (p s : string) : bool := String.prefix p s.

Fixpoint last_char (s : string) : option ascii :=
  match s with
  | EmptyString => None
  | String c EmptyString => Some c
  | String _ s' => last_char s'
  end.

(** [s.endswith(c)] for a one-character [c]. *)
Definition endswith_char (c : ascii) (s : string) : bool :=
  match last_char s with
  | Some d => Ascii.eqb c d
  | None => false
  end.

(** [s[a:b]] for [0 <= a] and [0 <= b <= len(s)]. *)
Definition slice (a b : nat) (s : string) : string := substring a (b - a) s.

Definition dquote : ascii := ascii_of_nat 34.
Definition dq : string := String dquote "".

(** ** The key-value store *)

Inductive cache_value : Type :=
  | VList (l : list string)
  | VId (n : Z)
  | VBool (b : bool)
  | VStr (s : string).

(** Modelled from the spec: the [Cache] class of [dwarf.cache] is the
    key-value collaborator with get (with a default), set, delete and
    publish; [published] logs the topics signalled to the supervisor. *)
Record Cache : Type := mkCache {
  store : gmap string cache_value;
  published : list string
}.

Definition cache_get (key : string) (c : Cache) : option cache_value :=
  store c !! key.
Definition cache_set (key : string) (v : cache_value) : M Cache unit :=
  modify (λ c, mkCache (<[key := v]> (store c)) (published c)).
Definition cache_delete (key : string) : M Cache unit :=
  modify (λ c, mkCache (delete key (store c)) (published c)).
Definition cache_publish (topic : string) : M Cache unit :=
  modify (λ c, mkCache (store c) (published c ++ [topic])).

(** ** [CoreController] *)

Module CoreController.

(** [self.cache.get('prefixes', default=[])].  [set_prefixes] is the
    only writer of the key and stores a list; another kind of value
    there is not a prefix list and using it as one raises. *)
Definition get_prefixes : M Cache (list string) :=
  λ c, match cache_get "prefixes" c with
       | None => (Ret [], c)
       | Some (VList l) => (Ret l, c)
       | Some _ => (Raise TypeError, c)
       end.

(** Called with [bot=None] throughout the three modules. *)
Definition set_prefixes (prefixes : list string) : M Cache unit :=
  cache_set "prefixes" (VList prefixes).

Definition add_prefix (prefix : string) : M Cache unit :=
  let* prefixes := get_prefixes in
  if mem prefix prefixes then raise PrefixAlreadyExists
  else set_prefixes (prefixes ++ [prefix]).

Definition remove_prefix (prefix : string) : M Cache unit :=
  let* prefixes := get_prefixes in
  if negb (mem prefix prefixes) then raise PrefixNotFound
  else match list_remove prefix prefixes with
       | Some prefixes' => set_prefixes prefixes'
       | None => raise ValueError
       end.

Definition get_owner_id (c : Cache) : option cache_value :=
  cache_get "owner" c.

Definition set_owner_id (user_id : Z) : M Cache unit :=
  cache_set "owner" (VId user_id).

(** [restarted_from] is a channel, hence a [Messageable]: the
    [TypeError] branch of [set_restarted_from] is not taken. *)
Definition set_restarted_from (channel_id : Z) : M Cache unit :=
  cache_set "restarted_from" (VId channel_id).

Definition restart (restarted_from : option Z) : M Cache unit :=
  let* _ := match restarted_from with
            | Some ch => set_restarted_from ch
            | None => ret tt
            end in
  cache_publish "restart".

Definition shutdown : M Cache unit := cache_publish "shutdown".

Definition enable_restarting : M Cache unit :=
  cache_set "is_supposed_to_be_running" (VBool true).

Definition disable_restarting : M Cache unit :=
  cache_set "is_supposed_to_be_running" (VBool false).

(** [self.cache.get('is_supposed_to_be_running', False)] *)
Definition restarting_enabled (c : Cache) : cache_value :=
  default (VBool false) (cache_get "is_supposed_to_be_running" c).

Definition get_restarted_from (c : Cache) : option cache_value :=
  cache_get "restarted_from" c.

Definition reset_restarted_from : M Cache unit :=
  cache_delete "restarted_from".

Definition get_description (c : Cache) : option cache_value :=
  cache_get "description" c.

Definition set_description (description : string) : M Cache unit :=
  cache_set "description" (VStr description).

Definition get_repository (c : Cache) : option cache_value :=
  cache_get "repository" c.

Definition set_repository (repository : string) : M Cache unit :=
  cache_set "repository" (VStr repository).

Definition get_official_invite (c : Cache) : option cache_value :=
  cache_get "official_invite" c.

Definition set_official_invite (invite_link : string) : M Cache unit :=
  cache_set "official_invite" (VStr invite_link).

End CoreController.

(** ** Messages and invocation contexts *)

Record User : Type := mkUser { user_id : Z; user_bot : bool }.
Record Message : Type := mkMessage {
  author : User;
  channel : Z;
  content : string
}.
Record Context : Type := mkContext { message : Message }.

Definition user_eqb (u v : User) : bool := (user_id u =? user_id v)%Z.

(** One constructor per [ctx.send] of the cog; the wording is the
    formatting layer's business, the payload is what the text is built
    from.  A batch report carries the sections that were rendered. *)
Inductive sent_message : Type :=
  | SpecifyExtensionName
  | SkippingThisExtension
  | Installing (ext : string)
  | AlreadyInstalled (ext : string)
  | NoSuchExtension (ext : string)
  | FailedToInstall (ext : string) (packages extensions : list string)
  | AskInstallPackages
  | InstalledPackage (package : string)
  | FailedPackages (packages : list string)
  | WillNotInstallPackages (ext : string)
  | AskInstallDependencies (ext : string)
  | FailedDependencies (ext : string)
  | WillNotInstallDependencies
  | InstalledSuccessfully (ext : string)
  | InstallationCompleted (sections : list (string * list string))
  | Updating (ext : string)
  | CouldNotBeFound (ext : string)
  | FailedToUpdate (ext : string) (packages extensions : list string)
  | AskInstallNewRequirements (ext : string)
  | AskInstallNewDependencies (ext : string)
  | FailedNewDependencies (ext : string)
  | UpdatedSuccessfully (ext : string)
  | UpdateCompleted (sections : list (string * list string))
  | Uninstalling (ext : string)
  | WouldBeUninstalledToo (ext : string) (to_cascade : list string)
  | ProceedWithUninstallation
  | FailedToUninstall (to_cascade : list string)
  | WillNotInstallExtensions
  | UninstalledSuccessfully (ext : string)
  | UninstallationCompleted (sections : list (string * list string))
  | AskRestart
  | BeRightBack
  | PrefixAdded (prefix : string)
  | PrefixIsAlreadyPrefix (prefix : string)
  | PrefixRemoved (prefix : string)
  | NotAPrefix (prefix : string)
  | AskLeave (guild_name : string)
  | IllStay
  | DoneMsg
  | ChoicePrompt (text : string) (choice_lines : list (nat * string)).

(** The running process as a command sees it: the collaborators' state
    [world], the settings store, the bot's prefix attribute, the messages
    sent so far (oldest first) and the report accumulator of the batch
    command in progress, a [defaultdict(lambda: [])]. *)
Record frame (W : Type) : Type := mkFrame {
  world : W;
  cache : Cache;
  command_prefix : list string;
  sent : list sent_message;
  status : gmap string (list string)
}.
Arguments mkFrame {W} _ _ _ _ _.
Arguments world {W} _.
Arguments cache {W} _.
Arguments command_prefix {W} _.
Arguments sent {W} _.
Arguments status {W} _.

Section Lifting.
Context {W : Type}.

Definition send (m : sent_message) : M (frame W) unit :=
  modify (λ f, mkFrame (world f) (cache f) (command_prefix f)
                       (sent f ++ [m]) (status f)).

Definition on_cache {A} (m : M Cache A) : M (frame W) A :=
  λ f, let '(r, c) := m (cache f) in
       (r, mkFrame (world f) c (command_prefix f) (sent f) (status f)).

Definition on_world {A} (m : W → A * W) : M (frame W) A :=
  λ f, let '(a, w) := m (world f) in
       (Ret a, mkFrame w (cache f) (command_prefix f) (sent f) (status f)).

Definition on_world_raising {A} (m : W → result A * W) : M (frame W) A :=
  λ f, let '(r, w) := m (world f) in
       (r, mkFrame w (cache f) (command_prefix f) (sent f) (status f)).

Definition set_command_prefix (l : list string) : M (frame W) unit :=
  modify (λ f, mkFrame (world f) (cache f) l (sent f) (status f)).

Definition set_status (d : gmap string (list string)) : M (frame W) unit :=
  modify (λ f, mkFrame (world f) (cache f) (command_prefix f) (sent f) d).

(** [d[key]] on the defaultdict. *)
Definition entry (key : string) (d : gmap string (list string)) : list string :=
  d !!! key.

(** [d[key].append(x)] and [d[key] += l]. *)
Definition status_extend (key : string) (l : list string) : M (frame W) unit :=
  modify (λ f, mkFrame (world f) (cache f) (command_prefix f) (sent f)
                       (<[key := (entry key (status f) ++ l)%list]> (status f))).
Definition status_append (key : string) (x : string) : M (frame W) unit :=
  status_extend key [x].

(** Runs [m] and hands its outcome to the [except]/[else] clauses. *)
Definition attempt {A} (m : M (frame W) A) : M (frame W) (result A) :=
  λ f, let '(r, f') := m f in (Ret r, f').

(** [try: body  except e: handler]; other exceptions propagate. *)
Definition try_except {A} (body : M (frame W) A) (e : exn)
    (handler : M (frame W) A) : M (frame W) A :=
  λ f, match body f with
       | (Raise e', f') => if decide (e' = e) then handler f' else (Raise e', f')
       | r => r
       end.

Fixpoint for_each_message (l : list sent_message) : M (frame W) unit :=
  match l with
  | [] => ret tt
  | m :: l' => let* _ := send m in for_each_message l'
  end.

(** [for x in l: body] over a list nobody changes meanwhile. *)
Fixpoint for_each (l : list string) (body : string → M (frame W) unit)
    : M (frame W) unit :=
  match l with
  | [] => ret tt
  | x :: l' => let* _ := body x in for_each l' body
  end.
End Lifting.

Definition nonempty {A} (l : list A) : bool :=
  match l with [] => false | _ => true end.

(** One section of a batch report: rendered only for a non-empty list. *)
Definition section (header key : string) (d : gmap string (list string))
    : list (string * list string) :=
  if nonempty (entry key d) then [(header, entry key d)] else [].

(** ** Collaborators *)

(** The dict [install_extension] and [update_extension] return when
    requirements are unmet. *)
Record unsatisfied : Type := mkUnsatisfied {
  packages : list string;
  extensions : list string
}.

(** Methods of [BaseController] and of the bot's messaging layer that the
    cog calls and that live outside the three modules.  [W] is whatever
    state they keep.  A registry call returns or raises; the others
    return. *)
Class Collaborators (W : Type) : Type := {
  install_extension : string → option string → W → result (option unsatisfied) * W;
  update_extension : string → W → result (option unsatisfied) * W;
  uninstall_extension : string → W → result (list string) * W;
  get_extensions : W → list string;
  install_package : string → W → Z * W;
  (** [bot.wait_for('message', check=..., timeout=...)] of the client
      library: the message that passed [check], or [TimeoutError] when
      none arrives in time; it never hands back [None]. *)
  wait_for : (Message → bool) → nat → W → result Message * W;
  (** [bot.wait_for_answer(ctx, timeout=...)] *)
  wait_for_answer : Context → option nat → W → pyvalue * W;
  (** [bot.wait_for_response(ctx, timeout=...)] *)
  wait_for_response : Context → option nat → W → pyvalue * W;
  (** [ctx.invoke(bot.get_command('install'), names)]: what the nested
      command sends, and whether it raises. *)
  invoke_install : Context → string → W → (result unit * list sent_message) * W;
  (** [guild.leave()] *)
  guild_leave : string → W → W
}.

(** ** The rest of the process *)

(** Exceptions beyond the ones the batch commands meet. *)
Inductive raised : Type :=
  | Exn (e : exn)
  | AttributeError
  | EOFError
  | SystemExit (code : Z).

(** State and exception monad over [raised]. *)
Definition X (St A : Type) : Type := St → (raised + A) * St.

Definition retx {St A} (a : A) : X St A := λ s, (inr a, s).
Definition raisex {St A} (r : raised) : X St A := λ s, (inl r, s).
Definition bindx {St A B} (m : X St A) (k : A → X St B) : X St B :=
  λ s, match m s with
       | (inr a, s') => k a s'
       | (inl r, s') => (inl r, s')
       end.
Definition lift {St A} (m : M St A) : X St A :=
  λ s, match m s with
       | (Ret a, s') => (inr a, s')
       | (Raise e, s') => (inl (Exn e), s')
       end.

Notation "'let+' x ':=' m 'in' k" := (bindx m (λ x, k))
  (at level 10, x name, m at level 100, k at level 200) : py_scope.
Notation "'let+' '_' ':=' m 'in' k" := (bindx m (λ _, k))
  (at level 10, m at level 100, k at level 200) : py_scope.

(** Messages of the commands and events outside the batch commands, one
    constructor per send. *)
Inductive notice : Type :=
  | MyPrefixesAre (prefixes : list string)
  | MyPrefixIs (prefix : string)
  | TokenSet
  | InvalidToken
  | Goodbye
  | IllBeRightBack
  | ImBack
  | UserRegistered (name : string)
  | ServerPage (page : string)
  | ReinvokeServers (prefix invoked_with : string).

(** Lines on the console and records in the log. *)
Inductive printed : Type :=
  | SetupGreeting
  | Prompt (text : string)
  | NotAToken
  | ChoosePrefix
  | ConfirmPrefix (prefix : string)
  | SetupFinished
  | UpdateTheApi
  | OwnerRecognized (name : string)
  | ClearScreen
  | Rule
  | BotIsOnline (name : string)
  | ConnectedTo
  | ConnectedToServers (n : nat)
  | ConnectedToChannels (n : nat)
  | ConnectedToUsers (n : nat)
  | ActiveCogs (n : nat)
  | PrefixLine (plural : bool) (prefixes : list string)
  | UseThisUrl
  | OauthUrl (application_id : Z)
  | NoPrefixSet
  | LoggingIntoDiscord
  | KeepUpdated (prefix : string)
  | OfficialServer
  | LogInfo (text : string).

(** What [application_info()] returns. *)
Record application : Type := mkApplication {
  application_id : Z;
  owner_id : Z;
  owner_name : string
}.

(** Modelled from the spec: what the commands outside the batch
    commands act on besides the store, kept around the state [inner]
    of the batch collaborators.  [BaseController] and [dwarf.models]
    are outside the three modules and are written after the calls made
    to them: the persisted token of [set_token] and [get_token], and
    the [User] table as a command count per user id.  [notices] are the
    messages sent, each with the id of its target, and [console] what
    was printed or logged. *)
Record desk (W : Type) : Type := mkDesk {
  inner : W;
  token : option string;
  notices : list (Z * notice);
  console : list printed;
  users : gmap Z nat
}.
Arguments mkDesk {W} _ _ _ _ _.
Arguments inner {W} _.
Arguments token {W} _.
Arguments notices {W} _.
Arguments console {W} _.
Arguments users {W} _.

Section Desk.
Context {W : Type}.

Definition on_inner {A} (m : W → A * W) (d : desk W) : A * desk W :=
  let '(a, w) := m (inner d) in
  (a, mkDesk w (token d) (notices d) (console d) (users d)).

(** The batch collaborators act on [inner] and leave the rest alone. *)
Local Instance desk_collaborators `{Collaborators W} : Collaborators (desk W) := {
  install_extension := λ e r, on_inner (install_extension e r);
  update_extension := λ e, on_inner (update_extension e);
  uninstall_extension := λ e, on_inner (uninstall_extension e);
  get_extensions := λ d, get_extensions (inner d);
  install_package := λ p, on_inner (install_package p);
  wait_for := λ check t, on_inner (wait_for check t);
  wait_for_answer := λ c t, on_inner (wait_for_answer c t);
  wait_for_response := λ c t, on_inner (wait_for_response c t);
  invoke_install := λ c s, on_inner (invoke_install c s);
  guild_leave := λ g d,
    mkDesk (guild_leave g (inner d)) (token d) (notices d) (console d) (users d)
}.

Definition on_desk (g : desk W → desk W) : X (frame (desk W)) unit :=
  λ f, (inr tt, mkFrame (g (world f)) (cache f) (command_prefix f) (sent f) (status f)).

(** A message that reaches [target]; [ctx.send(text)] has the channel
    of the invocation as target. *)
Definition tell (target : Z) (n : notice) : X (frame (desk W)) unit :=
  on_desk (λ d, mkDesk (inner d) (token d) (notices d ++ [(target, n)])
                       (console d) (users d)).

(** [print(line)], and a log record. *)
Definition print (p : printed) : X (frame (desk W)) unit :=
  on_desk (λ d, mkDesk (inner d) (token d) (notices d) (console d ++ [p]) (users d)).

Definition base_set_token (t : string) : X (frame (desk W)) unit :=
  on_desk (λ d, mkDesk (inner d) (Some t) (notices d) (console d) (users d)).

Definition base_get_token (f : frame (desk W)) : option string := token (world f).
End Desk.

(** [s.strip()] *)
Fixpoint lstrip (s : string) : string :=
  match s with
  | EmptyString => EmptyString
  | String c s' => if is_space c then lstrip s' else s
  end.
Fixpoint rstrip (s : string) : string :=
  match s with
  | EmptyString => EmptyString
  | String c s' =>
      match rstrip s' with
      | EmptyString => if is_space c then EmptyString else String c EmptyString
      | r => String c r
      end
  end.
Definition strip (s : string) : string := lstrip (rstrip s).

(** Keys of a dict that are numbers or strings: a string never equals a
    number. *)
Inductive pykey : Type :=
  | KInt (n : nat)
  | KStr (s : string).

Definition pykey_eqb (a b : pykey) : bool :=
  match a, b with
  | KInt n, KInt m => (n =? m)%nat
  | KStr s, KStr t => String.eqb s t
  | _, _ => false
  end.

(** A dict kept as its items: [item key d] is [d[key]] when
    [key in d.keys()] and [None] when not. *)
Definition item {A} (key : pykey) (d : list (pykey * A)) : option A :=
  snd <$> find (λ kv, pykey_eqb key (fst kv)) d.

(** ** The [Core] cog *)

Module Core.
Section Commands.
Context {W : Type} `{Collaborators W}.
Variable ctx : Context.

Definition extension_check (m : Message) : bool :=
  let extension_name := content m in
  let is_same_author := user_eqb (author (message ctx)) (author m) in
  let is_same_channel := (channel (message ctx) =? channel m)%Z in
  let is_proper_name := negb (existsb (Ascii.eqb " "%char) (list_ascii_of_string extension_name)) in
  is_same_author && is_same_channel && is_proper_name.

(** The package loop shared by [_install] and [_update]:
    [for package in unsatisfied['packages']], removing from that very
    list each package whose installation returned 0. *)
Definition install_packages (pkgs : list string) : M (frame W) (list string) :=
  for_in (length pkgs) 0
    (λ package l,
       let* return_code := on_world (install_package package) in
       if (return_code =? 0)%Z then
         match list_remove package l with
         | None => raise ValueError
         | Some l' =>
             let* _ := send (InstalledPackage package) in
             let* _ := status_append "installed_packages" package in
             ret l'
         end
       else ret l)
    pkgs.

(** [depth] is the number of nested activations the interpreter still
    allows; at 0 the call raises [RecursionError]. *)
Fixpoint _install (depth : nat) (_extension : string) : M (frame W) pyvalue :=
  match depth with
  | O => raise RecursionError
  | S depth' =>
    let named (repository : option string) (_extension : string) : M (frame W) pyvalue :=
      let* _ := send (Installing _extension) in
      let* outcome := attempt (on_world_raising (install_extension _extension repository)) in
      match outcome with
      | Raise ExtensionAlreadyInstalled =>
          let* _ := send (AlreadyInstalled _extension) in
          let* _ := status_append "failed_extensions" _extension in
          ret PyFalse
      | Raise ExtensionNotInIndex =>
          let* _ := send (NoSuchExtension _extension) in
          let* _ := status_append "failed_extensions" _extension in
          ret PyFalse
      | Raise e => raise e
      | Ret None =>
          let* _ := send (InstalledSuccessfully _extension) in
          let* _ := status_append "installed_extensions" _extension in
          ret PyTrue
      | Ret (Some u) =>
          let* _ := send (FailedToInstall _extension (packages u) (extensions u)) in
          (* [inl v]: the packages part returned [v]; [inr l]: it fell
             through with [unsatisfied['packages']] now [l]. *)
          let* after_packages :=
            if nonempty (packages u) then
              let* _ := send AskInstallPackages in
              let* _answer := on_world (wait_for_answer ctx None) in
              if is_True _answer then
                let* left := install_packages (packages u) in
                if nonempty left then
                  let* _ := send (FailedPackages left) in
                  let* _ := status_extend "failed_packages" left in
                  ret (inl PyFalse)
                else ret (inr left)
              else
                let* _ := send (WillNotInstallPackages _extension) in
                let* _ := status_append "failed_extensions" _extension in
                ret (inl PyFalse)
            else ret (inr (packages u)) in
          match after_packages with
          | inl v => ret v
          | inr pkgs =>
              if negb (nonempty pkgs) && nonempty (extensions u) then
                let* _ := send (AskInstallDependencies _extension) in
                let* _answer := on_world (wait_for_answer ctx None) in
                if is_True _answer then
                  let* left :=
                    for_in (length (extensions u)) 0
                      (λ extension_to_install l,
                         let* extension_install_return_code :=
                           _install depth' extension_to_install in
                         if is_True extension_install_return_code then
                           match list_remove extension_to_install l with
                           | None => raise ValueError
                           | Some l' => ret l'
                           end
                         else ret l)
                      (extensions u) in
                  if nonempty left then
                    let* _ := send (FailedDependencies _extension) in
                    let* _ := status_append "failed_extensions" _extension in
                    ret PyFalse
                  else _install depth' _extension
                else
                  let* _ := send WillNotInstallDependencies in
                  let* _ := status_append "failed_extensions" _extension in
                  ret PyFalse
              else ret PyNone
          end
      end in
    if startswith "https://" _extension then
      let* _ := send SpecifyExtensionName in
      (* what the wait hands back is a message, never [None]: the
         branch [if _extension is None] that sends the skipping message
         is not taken, and a timeout leaves [_install] as
         [TimeoutError] *)
      let* reply := on_world_raising (wait_for extension_check 60) in
      named (Some _extension) (content reply)
    else named None _extension
  end.

Definition ask_restart : M (frame W) unit :=
  let* _ := send AskRestart in
  let* answer := on_world (wait_for_answer ctx None) in
  if is_True answer then
    let* _ := send BeRightBack in
    on_cache (CoreController.restart (Some (channel (message ctx))))
  else ret tt.

Definition install (depth : nat) (extensions : string) : M (frame W) unit :=
  let extensions := split (lower extensions) in
  let* _ := set_status ∅ in
  let* _ := for_each extensions (λ extension,
              let* _ := _install depth extension in ret tt) in
  let* f := get in
  let installation_status := status f in
  let* _ := send (InstallationCompleted
              (section "Installed extensions:" "installed_extensions" installation_status
               ++ section "Installed packages:" "installed_packages" installation_status
               ++ section "Failed to install extensions:" "failed_extensions" installation_status
               ++ section "Failed to install packages:" "failed_packages" installation_status)%list) in
  if nonempty (entry "installed_extensions" installation_status)
  then ask_restart
  else ret tt.

Fixpoint _update (depth : nat) (_extension : string) : M (frame W) pyvalue :=
  match depth with
  | O => raise RecursionError
  | S depth' =>
    let* _ := send (Updating _extension) in
    let* outcome := attempt (on_world_raising (update_extension _extension)) in
    match outcome with
    | Raise ExtensionNotFound =>
        let* _ := send (CouldNotBeFound _extension) in
        let* _ := status_append "failed_extensions" _extension in
        ret PyFalse
    | Raise e => raise e
    | Ret None =>
        let* _ := send (UpdatedSuccessfully _extension) in
        let* _ := status_append "updated_extensions" _extension in
        ret PyTrue
    | Ret (Some u) =>
        let* _ := send (FailedToUpdate _extension (packages u) (extensions u)) in
        let* after_packages :=
          if nonempty (packages u) then
            let* _ := send (AskInstallNewRequirements _extension) in
            let* _answer := on_world (wait_for_answer ctx None) in
            if is_True _answer then
              let* left := install_packages (packages u) in
              if nonempty left then
                let* _ := send (FailedPackages left) in
                let* _ := status_extend "failed_packages" left in
                ret (inl PyFalse)
              else ret (inr left)
            else
              let* _ := send (WillNotInstallPackages _extension) in
              let* _ := status_append "failed_to_install_extensions" _extension in
              ret (inl PyFalse)
          else ret (inr (packages u)) in
        match after_packages with
        | inl v => ret v
        | inr pkgs =>
            if negb (nonempty pkgs) && nonempty (extensions u) then
              let* _ := send (AskInstallNewDependencies _extension) in
              let* _answer := on_world (wait_for_response ctx None) in
              let* _ :=
                if is_True _answer then
                  let* nested :=
                    on_world (invoke_install ctx (String.concat " " (extensions u))) in
                  let* _ := for_each_message (snd nested) in
                  match fst nested with
                  | Ret _ => ret tt
                  | Raise e => raise e
                  end
                else ret tt in
              let* f := get in
              let exts := get_extensions (world f) in
              (* [for extension_to_check in unsatisfied['extensions']]:
                 every path of the body returns, so only the first
                 element is ever visited; the loop's [else] needs an
                 empty list. *)
              match extensions u with
              | extension_to_check :: _ =>
                  let* left :=
                    if mem extension_to_check exts then
                      match list_remove extension_to_check (extensions u) with
                      | None => raise ValueError
                      | Some l' => ret l'
                      end
                    else ret (extensions u) in
                  if nonempty left then
                    let* _ := send (FailedNewDependencies _extension) in
                    let* _ := status_append "failed_extensions" _extension in
                    ret PyFalse
                  else _update depth' _extension
              | [] =>
                  let* _ := send WillNotInstallDependencies in
                  let* _ := status_append "failed_extensions" _extension in
                  ret PyFalse
              end
            else ret PyNone
        end
    end
  end.

Definition update (depth : nat) (extensions : string) : M (frame W) unit :=
  let extensions := split (lower extensions) in
  let* _ := set_status ∅ in
  let* _ := for_each extensions (λ extension,
              let* _ := _update depth extension in ret tt) in
  let* f := get in
  let update_status := status f in
  let* _ := send (UpdateCompleted
              (section "Updated extensions:" "updated_extensions" update_status
               ++ section "Installed packages:" "installed_packages" update_status
               ++ section "Failed to update extensions:" "failed_extensions" update_status
               ++ section "Failed to install packages:" "failed_packages" update_status)%list) in
  if nonempty (entry "updated_extensions" update_status)
  then
    let* _ := send AskRestart in
    let* answer := on_world (wait_for_response ctx None) in
    if is_True answer then
      let* _ := send BeRightBack in
      on_cache (CoreController.restart (Some (channel (message ctx))))
    else ret tt
  else ret tt.

Fixpoint _uninstall (depth : nat) (_extension : string) : M (frame W) pyvalue :=
  match depth with
  | O => raise RecursionError
  | S depth' =>
    let* _ := send (Uninstalling _extension) in
    let* outcome := attempt (on_world_raising (uninstall_extension _extension)) in
    match outcome with
    | Raise ExtensionNotFound =>
        let* _ := send (CouldNotBeFound _extension) in
        let* _ := status_append "failed_extensions" _extension in
        ret PyFalse
    | Raise e => raise e
    | Ret to_cascade =>
        if nonempty to_cascade then
          let* _ := send (WouldBeUninstalledToo _extension to_cascade) in
          let* _ := send ProceedWithUninstallation in
          let* _answer := on_world (wait_for_answer ctx None) in
          if is_True _answer then
            let* left :=
              for_in (length to_cascade) 0
                (λ extension_to_uninstall l,
                   let* return_code := _uninstall depth' extension_to_uninstall in
                   if is_True return_code then
                     match list_remove extension_to_uninstall l with
                     | None => raise ValueError
                     | Some l' => ret l'
                     end
                   else ret l)
                to_cascade in
            if nonempty left then
              let* _ := send (FailedToUninstall left) in
              let* _ := status_append "failed_extensions" _extension in
              ret PyFalse
            else _uninstall depth' _extension
          else
            let* _ := send WillNotInstallExtensions in
            let* _ := status_append "failed_extensions" _extension in
            ret PyFalse
        else
          let* _ := send (UninstalledSuccessfully _extension) in
          let* _ := status_append "uninstalled_extensions" _extension in
          ret PyTrue
    end
  end.

Definition uninstall (depth : nat) (extensions : string) : M (frame W) unit :=
  let extensions := split (lower extensions) in
  let* _ := set_status ∅ in
  let* _ := for_each extensions (λ extension,
              let* _ := _uninstall depth extension in ret tt) in
  let* f := get in
  let uninstall_status := status f in
  let* _ := send (UninstallationCompleted
              (section "Uninstalled extensions:" "uninstalled_extensions" uninstall_status
               ++ section "Failed to uninstall extensions:" "failed_extensions" uninstall_status)%list) in
  if nonempty (entry "uninstalled_extensions" uninstall_status)
  then ask_restart
  else ret tt.

(** [prefix[1:len(prefix) - 1]] when the argument starts and ends with
    a double quote, the argument itself otherwise. *)
Definition unquote (prefix : string) : string :=
  if startswith dq prefix && endswith_char dquote prefix
  then slice 1 (String.length prefix - 1) prefix
  else prefix.

Definition add_prefix (prefix : string) : M (frame W) unit :=
  let prefix := unquote prefix in
  try_except
    (let* _ := on_cache (CoreController.add_prefix prefix) in
     let* prefixes := on_cache CoreController.get_prefixes in
     let* _ := set_command_prefix prefixes in
     send (PrefixAdded prefix))
    PrefixAlreadyExists
    (send (PrefixIsAlreadyPrefix prefix)).

Definition remove_prefix (prefix : string) : M (frame W) unit :=
  try_except
    (let* _ := on_cache (CoreController.remove_prefix prefix) in
     let* prefixes := on_cache CoreController.get_prefixes in
     let* _ := set_command_prefix prefixes in
     send (PrefixRemoved prefix))
    PrefixNotFound
    (send (NotAPrefix prefix)).

(** [current_guild] is [ctx.guild], or [None] in a private channel;
    guilds are compared by name here. *)
Definition leave_confirmation (guild_name : string) (current_guild : option string)
    : M (frame W) unit :=
  let* _ := send (AskLeave guild_name) in
  let* answer := on_world (wait_for_answer ctx (Some 30)) in
  if is_None answer || is_False answer then send IllStay
  else
    let* _ := on_world (λ w, (tt, guild_leave guild_name w)) in
    if negb (bool_decide (Some guild_name = current_guild)) then send DoneMsg
    else ret tt.

End Commands.

Section Settings.
Context {W : Type} `{Collaborators W}.
Variable ctx : Context.
Local Existing Instance desk_collaborators.

(** [ctx.send(text)] of the commands below. *)
Definition say (n : notice) : X (frame (desk W)) unit :=
  tell (channel (message ctx)) n.

Definition set_token (token : string) : X (frame (desk W)) unit :=
  if (50 <? String.length token)%nat then  (* assuming token *)
    let+ _ := base_set_token token in
    let+ _ := say TokenSet in
    print (LogInfo "Bot token changed.")
  else say InvalidToken.

Definition prefixes : X (frame (desk W)) unit :=
  let+ prefixes := lift (on_cache CoreController.get_prefixes) in
  if (1 <? length prefixes)%nat then say (MyPrefixesAre prefixes)
  else match prefixes !! 0%nat with
       | Some prefix => say (MyPrefixIs prefix)
       | None => raisex (Exn IndexError)
       end.

Definition shutdown : X (frame (desk W)) unit :=
  let+ _ := say Goodbye in
  lift (on_cache CoreController.shutdown).

(** [guild] is [ctx.guild]: [None] in a private conversation. *)
Definition restart (guild : option Z) : X (frame (desk W)) unit :=
  let+ _ := say IllBeRightBack in
  let restarted_from :=
    match guild with
    | None => user_id (author (message ctx))
    | Some _ => channel (message ctx)
    end in
  lift (on_cache (CoreController.restart (Some restarted_from))).

(** [guild_list]: the guilds under their positions, numbers. *)
Definition enumerate {A} (l : list A) : list (pykey * A) :=
  imap (λ i x, (KInt i, x)) l.

(** The [while] loop of [servers]; [rounds] bounds its iterations and
    [None] says the bound was reached.  A reply without [content], which
    the helper never hands back, raises [AttributeError]. *)
Fixpoint servers_loop (rounds : nat) (guild_list : list (pykey * string))
    (current_guild : option string) : X (frame (desk W)) (option unit) :=
  match rounds with
  | O => retx None
  | S rounds' =>
      let+ msg := lift (on_world (wait_for_response ctx (Some 30))) in
      match msg with
      | PyNone => retx (Some tt)
      | PyMessage content =>
          let msg := KStr (strip content) in
          match item msg guild_list with
          | Some guild =>
              let+ _ := lift (leave_confirmation ctx guild current_guild) in
              servers_loop rounds' guild_list current_guild
          | None => retx (Some tt)
          end
      | PyTrue | PyFalse => raisex AttributeError
      end
  end.

Fixpoint tell_pages (target : Z) (pages : list string) : X (frame (desk W)) unit :=
  match pages with
  | [] => retx tt
  | page :: pages' => let+ _ := tell target (ServerPage page) in tell_pages target pages'
  end.

(** [guilds] is [bot.guilds] by name; [pagify] renders the numbered
    listing with its closing line and cuts it into the pages that are
    sent; [prefix] and [invoked_with] are the attributes of [ctx]. *)
Definition servers (rounds : nat) (guilds : list string)
    (pagify : list (nat * string) → list string)
    (current_guild : option string) (prefix invoked_with : string)
    : X (frame (desk W)) (option unit) :=
  let guild_list := enumerate guilds in
  let msg := imap (λ i guild, (i, guild)) guilds in
  let+ _ := tell_pages (channel (message ctx)) (pagify msg) in
  let+ finished := servers_loop rounds guild_list current_guild in
  match finished with
  | None => retx None
  | Some _ =>
      let+ _ := say (ReinvokeServers prefix invoked_with) in
      retx (Some tt)
  end.

End Settings.
End Core.

(** ** [Bot]: authorization and the numbered-choice prompt *)

Global Instance cache_value_eq_dec : EqDecision cache_value.
Proof. solve_decision. Defined.

Inductive command : Type :=
  | cmd_eval | cmd_install | cmd_update | cmd_uninstall
  | cmd_set_name | cmd_set_nickname | cmd_set_game | cmd_set_status
  | cmd_set_stream | cmd_set_avatar | cmd_set_token | cmd_set_description
  | cmd_set_repository | cmd_set_officialinvite
  | cmd_add_prefix | cmd_remove_prefix | cmd_prefixes
  | cmd_ping | cmd_shutdown | cmd_restart | cmd_leave | cmd_servers
  | cmd_contact | cmd_about | cmd_version.

Global Instance command_eq_dec : EqDecision command.
Proof. solve_decision. Defined.

(** The commands of the cog that carry [@commands.is_owner()]. *)
Definition is_owner_decorated (c : command) : bool :=
  match c with
  | cmd_ping | cmd_contact | cmd_about | cmd_version => false
  | _ => true
  end.

(** [contact] is declared with [enabled=False]. *)
Definition enabled (c : command) : bool :=
  match c with
  | cmd_contact => false
  | _ => true
  end.

(** The extension-management and bot-configuration commands. *)
Definition extension_management : list command :=
  [cmd_install; cmd_update; cmd_uninstall].
Definition bot_configuration : list command :=
  [cmd_set_name; cmd_set_nickname; cmd_set_game; cmd_set_status;
   cmd_set_stream; cmd_set_avatar; cmd_set_token; cmd_set_description;
   cmd_set_repository; cmd_set_officialinvite;
   cmd_add_prefix; cmd_remove_prefix].

Inductive pyobject : Type :=
  | PyInt (n : Z)
  | PyList (l : list string).

Module Bot.

Definition user_allowed (c : Cache) (ctx : Context) : bool :=
  (* bots are not allowed to interact with other bots *)
  if user_bot (author (message ctx)) then false
  else if bool_decide (CoreController.get_owner_id c
                       = Some (VId (user_id (author (message ctx)))))
  then true
  else true.

(** [set_bot_owner]: stores the id of the application's owner. *)
Definition set_bot_owner (application_owner : Z) : M Cache unit :=
  CoreController.set_owner_id application_owner.

(** The predicate behind [@commands.is_owner()]: the author is the
    owner of the application, [bot.owner_id]. *)
Definition is_owner (owner_id : Z) (ctx : Context) : bool :=
  (user_id (author (message ctx)) =? owner_id)%Z.

Inductive verdict : Type :=
  | Runs
  | DisabledCommand  (* the command is not enabled *)
  | CheckFailure     (* a bot-wide check returned false *)
  | NotOwner.        (* the command's own owner check failed *)

(** What the library tests before it calls a command's callback: that
    the command is enabled, then the checks added with [add_check],
    then the command's own. *)
Definition can_run (owner_id : Z) (c : Cache) (ctx : Context) (cmd : command)
    : verdict :=
  if negb (enabled cmd) then DisabledCommand
  else if negb (user_allowed c ctx) then CheckFailure
  else if is_owner_decorated cmd && negb (is_owner owner_id ctx) then NotOwner
  else Runs.

(** Invocation of a resolved command.  A failed check ends the
    invocation before the callback; the library reports it to
    [on_command_error], which this bot leaves at its default (a
    traceback on the console), so nothing is sent and nothing changes. *)
Definition invoke {W} (owner_id : Z)
    (callback : command → Context → M (frame W) unit)
    (ctx : Context) (cmd : command) : frame W → verdict * frame W :=
  λ f, match can_run owner_id (cache f) ctx cmd with
       | Runs => (Runs, snd (callback cmd ctx f))
       | v => (v, f)
       end.

(** [range(o)], [len(o)] and [o[i]] for the two kinds of object a
    caller may pass as [choices]. *)
Definition py_range (o : pyobject) : result (list nat) :=
  match o with
  | PyInt n => Ret (seq 0 (Z.to_nat n))
  | PyList _ => Raise TypeError
  end.
Definition py_len (o : pyobject) : result nat :=
  match o with
  | PyInt _ => Raise TypeError
  | PyList l => Ret (length l)
  end.
Definition py_getitem (o : pyobject) (i : nat) : result string :=
  match o with
  | PyInt _ => Raise TypeError
  | PyList l => match l !! i with Some x => Ret x | None => Raise IndexError end
  end.

(** [int(c)] for a one-character string. *)
Definition int_of_char (c : ascii) : result Z :=
  let n := code c in
  if ((48 <=? n) && (n <=? 57))%nat then Ret (Z.of_nat n - 48)%Z
  else Raise ValueError.

(** [int(message.content[0]) - 1 in range(len(choices))] *)
Definition choice_check (choices : pyobject) (m : Message) : result bool :=
  match content m with
  | EmptyString => Raise IndexError
  | String c _ =>
      match int_of_char c with
      | Raise e => Raise e
      | Ret d =>
          match py_len choices with
          | Raise e => Raise e
          | Ret n => Ret ((0 <=? d - 1)%Z && (d - 1 <? Z.of_nat n)%Z)
          end
      end
  end.

(** [wait_for_message(author=, channel=, check=, timeout=)] of the
    client library, over the messages that arrive before the timeout:
    its predicate tests author and channel first and only then calls
    [check], whose exception it passes on to the waiting coroutine. *)
Fixpoint wait_for_message (who : User) (where_ : Z)
    (check : Message → result bool) (incoming : list Message)
    : result (option Message) * list Message :=
  match incoming with
  | [] => (Ret None, [])
  | m :: rest =>
      if user_eqb (author m) who && (channel m =? where_)%Z then
        match check m with
        | Raise e => (Raise e, rest)
        | Ret true => (Ret (Some m), rest)
        | Ret false => wait_for_message who where_ check rest
        end
      else wait_for_message who where_ check rest
  end.

Fixpoint choice_lines (choices : pyobject) (indices : list nat)
    : result (list (nat * string)) :=
  match indices with
  | [] => Ret []
  | i :: rest =>
      match py_getitem choices i with
      | Raise e => Raise e
      | Ret c =>
          match choice_lines choices rest with
          | Raise e => Raise e
          | Ret ls => Ret ((i + 1, c) :: ls)
          end
      end
  end.

(** The world of this coroutine is the list of messages that arrive
    before the timeout. *)
Definition wait_for_choice (who : User) (where_ : Z) (text : string)
    (choices : pyobject) : M (frame (list Message)) (option Message) :=
  match py_range choices with
  | Raise e => raise e
  | Ret indices =>
      match choice_lines choices indices with
      | Raise e => raise e
      | Ret ls =>
          let* _ := send (ChoicePrompt text ls) in
          on_world_raising (wait_for_message who where_ (choice_check choices))
      end
  end.

Section Process.
Context {W : Type} `{Collaborators W}.
Local Existing Instance desk_collaborators.

Definition is_configured (f : frame (desk W)) : bool :=
  match base_get_token f with
  | None => false
  | Some _ => true
  end.

(** The two nested [while True] loops of [initial_config], as one
    recursion on the lines still to be read from the terminal: [chosen]
    is [None] while a prefix is being asked for and the chosen prefix
    while its confirmation is.  Returns the lines left unread. *)
Fixpoint choose_prefix (chosen : option string) (stdin : list string)
    : X (frame (desk W)) (list string) :=
  let+ _ := print (Prompt "> ") in
  match stdin with
  | [] => raisex EOFError
  | line :: rest =>
      match chosen with
      | None =>
          if String.eqb line "" then choose_prefix None rest
          else
            let+ _ := print (ConfirmPrefix line) in
            choose_prefix (Some line) rest
      | Some chosen_prefix =>
          if mem line ["y"; "yes"] then
            let+ _ := lift (on_cache (CoreController.add_prefix chosen_prefix)) in
            retx rest
          else
            let+ _ := print ChoosePrefix in
            choose_prefix None rest
      end
  end.

(** [stdin] holds the lines the terminal will deliver to [input]. *)
Definition initial_config (stdin : list string) : X (frame (desk W)) unit :=
  let+ _ := print SetupGreeting in
  let+ _ := print (Prompt "> ") in
  match stdin with
  | [] => raisex EOFError
  | entered_token :: rest =>
      let+ _ :=
        if (50 <=? String.length entered_token)%nat  (* assuming token *)
        then base_set_token entered_token
        else
          let+ _ := print NotAToken in
          raisex (SystemExit 1) in
      let+ _ := print ChoosePrefix in
      let+ rest := choose_prefix None rest in
      let+ _ := print SetupFinished in
      let+ _ := print (Prompt (String (ascii_of_nat 10) "")) in
      match rest with
      | [] => raisex EOFError
      | _ :: _ => retx tt
      end
  end.

(** [self.send_message(target, text)].  [Bot] defines no [send_message]
    and neither does the client class it extends, in the library whose
    [ctx.send], [wait_for] and [is_owner] the cog uses: looking the
    attribute up raises. *)
Definition send_message {T} (target : T) (n : notice) : X (frame (desk W)) unit :=
  raisex AttributeError.

(** [User.objects.get_or_create(id=...)[0]]: the row, created with the
    model's default count when there is none. *)
Definition get_or_create (default_count : nat) (id : Z) : X (frame (desk W)) nat :=
  λ f, match users (world f) !! id with
       | Some count => (inr count, f)
       | None =>
           let d := world f in
           (inr default_count,
            mkFrame (mkDesk (inner d) (token d) (notices d) (console d)
                            (<[id := default_count]> (users d)))
                    (cache f) (command_prefix f) (sent f) (status f))
       end.

(** [User.objects.filter(id=...).exists()] *)
Definition exists_user (id : Z) (f : frame (desk W)) : bool :=
  bool_decide (is_Some (users (world f) !! id)).

(** [user.save()] *)
Definition save_user (id : Z) (count : nat) : X (frame (desk W)) unit :=
  on_desk (λ d, mkDesk (inner d) (token d) (notices d) (console d)
                       (<[id := count]> (users d))).

(** [default_count] is the default of [User.command_count];
    [author_name] is [author.name]. *)
Definition on_command_completion (default_count : nat) (author_name : string)
    (ctx : Context) : X (frame (desk W)) unit :=
  let author := author (message ctx) in
  let+ command_count := get_or_create default_count (user_id author) in
  let+ user_already_registered := (λ f, (inr (exists_user (user_id author) f), f)) in
  let command_count := (command_count + 1)%nat in
  let+ _ := save_user (user_id author) command_count in
  if negb user_already_registered
  then send_message (user_id author) (UserRegistered author_name)
  else retx tt.

(** [info] is what [application_info()] does: it returns the
    application's data or raises. *)
Definition set_bot_owner_from (info : raised + application) : X (frame (desk W)) unit :=
  match info with
  | inr data =>
      let+ _ := lift (on_cache (CoreController.set_owner_id (owner_id data))) in
      print (OwnerRecognized (owner_name data))
  | inl AttributeError =>
      let+ _ := print UpdateTheApi in
      raisex AttributeError
  | inl r => raisex r
  end.

Definition get_oauth_url (info : raised + application) : X (frame (desk W)) printed :=
  match info with
  | inr data => retx (OauthUrl (application_id data))
  | inl AttributeError =>
      let+ _ := print UpdateTheApi in
      raisex AttributeError
  | inl r => raisex r
  end.

(** [owner_info] and [url_info] are the two calls of
    [application_info()]; [bot_name] is [self.user.name]; [guild_count]
    and [channel_count] are the sizes of the [Guild] and [Channel]
    tables. *)
Definition on_ready (owner_info url_info : raised + application)
    (bot_name : string) (guild_count channel_count : nat)
    : X (frame (desk W)) unit :=
  let+ c := lift (on_cache get) in
  let+ _ :=
    match CoreController.get_owner_id c with
    | None => set_bot_owner_from owner_info
    | Some _ => retx tt
    end in
  let+ c := lift (on_cache get) in
  let+ _ :=
    match CoreController.get_restarted_from c with
    | None => retx tt
    | Some restarted_from =>
        (* [discord.Object(restarted_from)] *)
        let+ _ := send_message restarted_from ImBack in
        lift (on_cache CoreController.reset_restarted_from)
    end in
  (* clear terminal screen *)
  let+ _ := print ClearScreen in
  let+ _ := print Rule in
  let+ _ := print (BotIsOnline bot_name) in
  let+ _ := print Rule in
  let+ _ := print ConnectedTo in
  let+ _ := print (ConnectedToServers guild_count) in
  let+ _ := print (ConnectedToChannels channel_count) in
  let+ user_count := (λ f, (inr (size (users (world f))), f)) in
  let+ _ := print (ConnectedToUsers user_count) in
  let+ cogs := (λ f, (inr (get_extensions (world f)), f)) in
  let+ _ := print (ActiveCogs (length cogs)) in
  let+ prefixes := lift (on_cache CoreController.get_prefixes) in
  let plural := (1 <? length prefixes)%nat in
  let+ prefixes := lift (on_cache CoreController.get_prefixes) in
  let+ _ := print (PrefixLine plural prefixes) in
  let+ _ := print Rule in
  let+ _ := print UseThisUrl in
  let+ url := get_oauth_url url_info in
  let+ _ := print url in
  let+ _ := print Rule in
  lift (on_cache CoreController.enable_restarting).

(** [load_cogs] and [start] are the two calls [run] makes outside the
    three modules' reach: loading the extensions, which may raise, and
    the login with the stored token. *)
Definition run (load_cogs : X (frame (desk W)) unit)
    (start : option string → X (frame (desk W)) unit) : X (frame (desk W)) unit :=
  let+ _ := load_cogs in
  let+ prefixes := lift (on_cache CoreController.get_prefixes) in
  let+ _ :=
    if nonempty prefixes then
      let+ prefixes := lift (on_cache CoreController.get_prefixes) in
      lift (set_command_prefix prefixes)
    else
      let+ _ := print NoPrefixSet in
      lift (set_command_prefix ["!"]) in
  let+ _ := print LoggingIntoDiscord in
  let+ f := lift get in
  let+ _ :=
    match command_prefix f !! 0%nat with
    | Some prefix => print (KeepUpdated prefix)
    | None => raisex (Exn IndexError)
    end in
  let+ _ := print OfficialServer in
  let+ f := lift get in
  start (base_get_token f).

End Process.

End Bot.

(** ** A reference world *)

(** The registry, the index, the package manager and the prompt helpers
    are written here as the specification describes them, to run the
    commands on concrete scenarios. *)
Module Sim.

(** Modelled from the spec: the data model of section 3, which the
    sources use but do not define. *)
Record ExtensionDescriptor : Type := mkDescriptor {
  name : string;
  source_repository : option string;
  declared_package_deps : list string;
  declared_extension_deps : list string
}.

Record InstalledExtensionRecord : Type := mkRecord {
  record_name : string;
  loaded : bool
}.

Record world : Type := mkWorld {
  index : list ExtensionDescriptor;
  installed : list InstalledExtensionRecord;
  present_packages : list string;
  exit_codes : gmap string Z;
  clock : nat;
  inbox : list (nat * Message);
  default_timeout : nat;
  left_guilds : list string
}.

Definition installed_names (w : world) : list string :=
  map record_name (installed w).

Definition with_installed (l : list InstalledExtensionRecord) (w : world) : world :=
  mkWorld (index w) l (present_packages w) (exit_codes w) (clock w)
          (inbox w) (default_timeout w) (left_guilds w).

(** Modelled from the spec: [ExtensionIndex.resolve], missing from the
    sources.  A name resolves to the first descriptor of that name; a
    supplied source repository selects the descriptor published there. *)
Definition resolve (nm : string) (repository : option string) (w : world)
    : option ExtensionDescriptor :=
  find (λ d, String.eqb (name d) nm
             && match repository with
                | None => true
                | Some r => bool_decide (source_repository d = Some r)
                end)
       (index w).

(** Modelled from the spec: the [DependencyClosure] of a descriptor,
    its declared dependencies that are not installed or present. *)
Definition closure (d : ExtensionDescriptor) (w : world) : unsatisfied :=
  mkUnsatisfied
    (filter (λ p, mem p (present_packages w) = false) (declared_package_deps d))
    (filter (λ e, mem e (installed_names w) = false) (declared_extension_deps d)).

Definition satisfied (u : unsatisfied) : bool :=
  negb (nonempty (packages u)) && negb (nonempty (extensions u)).

(** Modelled from the spec: [ExtensionRegistry.install], missing from
    the sources ([BaseController.install_extension]).  Fails with
    [AlreadyInstalled] for an installed name and with [NotInIndex] for
    an unresolvable one; creates the record, not loaded, when nothing
    is unmet, and reports the closure otherwise.  The cog reads a
    result of [None] as success. *)
Definition registry_install (nm : string) (repository : option string) (w : world)
    : result (option unsatisfied) * world :=
  if mem nm (installed_names w) then (Raise ExtensionAlreadyInstalled, w)
  else match resolve nm repository w with
       | None => (Raise ExtensionNotInIndex, w)
       | Some d =>
           if satisfied (closure d w)
           then (Ret None, with_installed (installed w ++ [mkRecord nm false]) w)
           else (Ret (Some (closure d w)), w)
       end.

(** Modelled from the spec: [ExtensionRegistry.update], missing from
    the sources.  Fails with [NotFound] for a name that is not
    installed; otherwise resolves the descriptor again and reports the
    dependencies that are not yet satisfied. *)
Definition registry_update (nm : string) (w : world)
    : result (option unsatisfied) * world :=
  if negb (mem nm (installed_names w)) then (Raise ExtensionNotFound, w)
  else match resolve nm None w with
       | None => (Ret None, w)
       | Some d =>
           if satisfied (closure d w) then (Ret None, w)
           else (Ret (Some (closure d w)), w)
       end.

(** Modelled from the spec: whether the descriptor of [nm] declares the
    extension dependency [dep]. *)
Definition declares (dep : string) (nm : string) (w : world) : bool :=
  match resolve nm None w with
  | None => false
  | Some d => mem dep (declared_extension_deps d)
  end.

(** Modelled from the spec: the cascade set of [nm], the installed
    extensions whose declared extension dependencies include [nm], found
    by scanning the installed records in insertion order. *)
Definition dependents (nm : string) (w : world) : list string :=
  filter (λ b, declares nm b w = true) (installed_names w).

(** Modelled from the spec: [ExtensionRegistry.uninstall], missing from
    the sources ([BaseController.uninstall_extension]).  Fails with
    [NotFound]; returns the cascade set, and removes the record of [nm]
    only once that set is empty. *)
Definition registry_uninstall (nm : string) (w : world)
    : result (list string) * world :=
  if negb (mem nm (installed_names w)) then (Raise ExtensionNotFound, w)
  else
    let to_cascade := dependents nm w in
    if nonempty to_cascade then (Ret to_cascade, w)
    else (Ret [], with_installed
                    (filter (λ r, String.eqb (record_name r) nm = false) (installed w)) w).

(** Modelled from the spec: the package manager, install package by
    name to exit code.  A package without an entry fails with 1. *)
Definition package_install (p : string) (w : world) : Z * world :=
  let rc := default 1%Z (exit_codes w !! p) in
  (rc,
   if (rc =? 0)%Z
   then mkWorld (index w) (installed w) (present_packages w ++ [p]) (exit_codes w)
                (clock w) (inbox w) (default_timeout w) (left_guilds w)
   else w).

(** Modelled from the spec: [wait_for_reply(predicate, timeout)] of the
    messaging collaborator.  The inbox lists future messages with their
    arrival times, in arrival order.  The wait ends at the first message
    that arrives by the deadline and matches; messages that pass
    meanwhile are gone. *)
Fixpoint next_reply (pred : Message → bool) (deadline : nat)
    (pending : list (nat * Message)) : option (nat * Message) * list (nat * Message) :=
  match pending with
  | [] => (None, [])
  | (t, m) :: rest =>
      if (deadline <? t)%nat then (None, pending)
      else if pred m then (Some (t, m), rest)
      else next_reply pred deadline rest
  end.

Definition wait_for_reply (pred : Message → bool) (timeout : nat) (w : world)
    : option Message * world :=
  let deadline := (clock w + timeout)%nat in
  let '(r, rest) := next_reply pred deadline (inbox w) in
  match r with
  | Some (t, m) =>
      (Some m, mkWorld (index w) (installed w) (present_packages w) (exit_codes w)
                       (Nat.max (clock w) t) rest (default_timeout w) (left_guilds w))
  | None =>
      (None, mkWorld (index w) (installed w) (present_packages w) (exit_codes w)
                     deadline rest (default_timeout w) (left_guilds w))
  end.

(** Modelled from the spec: a reply counts when it comes from the
    original author in the same conversation. *)
Definition from_author_here (ctx : Context) (m : Message) : bool :=
  user_eqb (author m) (author (message ctx))
  && (channel m =? channel (message ctx))%Z.

(** Modelled from the spec: the affirmative tokens, case-insensitive. *)
Definition affirmative (reply : string) : bool :=
  mem (lower reply) ["yes"; "y"].

(** Modelled from the spec: [ask_yes_no], the bot's [wait_for_answer],
    missing from the sources.  The reply of the original author in the
    same conversation is read case-insensitively: "yes" and "y" give
    true, anything else false; no reply within the timeout gives
    [None]. *)
Definition ask_yes_no (ctx : Context) (timeout : option nat) (w : world)
    : pyvalue * world :=
  let '(r, w') := wait_for_reply (from_author_here ctx)
                    (default (default_timeout w) timeout) w in
  (match r with
   | None => PyNone
   | Some m => if affirmative (content m) then PyTrue else PyFalse
   end, w').

(** Modelled from the spec: the bot's [wait_for_response], missing from
    the sources; it hands back the reply itself, or [None]. *)
Definition ask_response (ctx : Context) (timeout : option nat) (w : world)
    : pyvalue * world :=
  let '(r, w') := wait_for_reply (from_author_here ctx)
                    (default (default_timeout w) timeout) w in
  (match r with
   | None => PyNone
   | Some m => PyMessage (content m)
   end, w').

(** The library's [wait_for] over the inbox: it raises when no
    matching message arrives by the deadline. *)
Definition wait_for_message_event (check : Message → bool) (timeout : nat) (w : world)
    : result Message * world :=
  match wait_for_reply check timeout w with
  | (Some m, w') => (Ret m, w')
  | (None, w') => (Raise TimeoutError, w')
  end.

Global Instance collaborators : Collaborators world := {
  install_extension := registry_install;
  update_extension := registry_update;
  uninstall_extension := registry_uninstall;
  get_extensions := installed_names;
  install_package := package_install;
  wait_for := wait_for_message_event;
  wait_for_answer := ask_yes_no;
  wait_for_response := ask_response;
  (* the names are passed positionally to a callback whose
     [extensions] parameter is keyword-only *)
  invoke_install := λ _ _ w, ((Raise TypeError, []), w);
  guild_leave := λ g w,
    mkWorld (index w) (installed w) (present_packages w) (exit_codes w)
            (clock w) (inbox w) (default_timeout w) (left_guilds w ++ [g])
}.

Definition empty_cache : Cache := mkCache ∅ [].

Definition start (w : world) : frame world := mkFrame w empty_cache [] [] ∅.

End Sim.

(** ** Scenarios *)

Module Scenario.

Definition owner : User := mkUser 1 false.
Definition stranger : User := mkUser 2 false.
Definition other_bot : User := mkUser 3 true.
Definition said (who : User) (text : string) : Message := mkMessage who 7 text.
Definition ctx : Context := mkContext (said owner "!install weather").
Definition stranger_ctx : Context := mkContext (said stranger "!install weather").

Definition two_prefixes : Cache :=
  mkCache {[ "prefixes" := VList ["!"; "?"] ]} [].

(** The store after [set_bot_owner] recorded user 1 as the owner. *)
Definition owned : Cache := snd (Bot.set_bot_owner 1 Sim.empty_cache).

Definition quiet : Sim.world := Sim.mkWorld [] [] [] ∅ 0 [] 30 [].

(** Somebody else answers at once; the author answers after 40. *)
Definition late_reply : Sim.world :=
  Sim.mkWorld [] [] [] ∅ 0
    [(5, said stranger "yes"); (40, said owner "yes")] 30 [].

Definition weather : Sim.ExtensionDescriptor :=
  Sim.mkDescriptor "weather" None ["requests-lib"] [].

(** Nothing installed, [requests-lib] installable, the owner says yes. *)
Definition weather_world : Sim.world :=
  Sim.mkWorld [weather] [] [] {[ "requests-lib" := 0%Z ]} 0
    [(5, said owner "yes")] 30 [].

Definition forge : Sim.ExtensionDescriptor :=
  Sim.mkDescriptor "forge" None ["anvil"] [].
Definition lamp : Sim.ExtensionDescriptor :=
  Sim.mkDescriptor "lamp" None [] [].

(** Both installed; [forge] now needs a package; the owner says no. *)
Definition update_world : Sim.world :=
  Sim.mkWorld [forge; lamp] [Sim.mkRecord "forge" true; Sim.mkRecord "lamp" true]
    [] ∅ 0 [(5, said owner "no")] 30 [].

(** [forge] is installed already, [lamp] is not and needs nothing. *)
Definition pair_world : Sim.world :=
  Sim.mkWorld [forge; lamp] [Sim.mkRecord "forge" true] [] ∅ 0 [] 30 [].

(** [b] depends on [a] and [c] on [b]; the owner agrees twice. *)
Definition chain : Sim.world :=
  Sim.mkWorld
    [Sim.mkDescriptor "a" None [] []; Sim.mkDescriptor "b" None [] ["a"];
     Sim.mkDescriptor "c" None [] ["b"]]
    [Sim.mkRecord "a" true; Sim.mkRecord "b" true; Sim.mkRecord "c" true]
    [] ∅ 0 [(1, said owner "yes"); (2, said owner "y")] 30 [].

Definition one_prefix : Cache :=
  mkCache {[ "prefixes" := VList ["!"] ]} [].

(** The process around the quiet world: no token, nothing sent or
    printed, no user registered. *)
Definition at_desk (c : Cache) : frame (desk Sim.world) :=
  mkFrame (mkDesk quiet None [] [] ∅) c [] [] ∅.

Definition fresh : frame (desk Sim.world) := at_desk Sim.empty_cache.

(** Fifty characters. *)
Definition fifty : string :=
  "01234567890123456789012345678901234567890123456789".

(** What the operator types at the first start: a token, an empty line,
    a prefix that is then turned down, another one, and Enter. *)
Definition setup_lines : list string :=
  [fifty; ""; "!"; "n"; "?"; "yes"; ""].

Definition atlas : Sim.ExtensionDescriptor :=
  Sim.mkDescriptor "atlas" None ["maps"; "tiles"; "fonts"] [].

(** Nothing installed; [maps] and [fonts] are installable, [tiles] is
    not; the owner says yes. *)
Definition atlas_world : Sim.world :=
  Sim.mkWorld [atlas] [] [] {[ "maps" := 0%Z; "fonts" := 0%Z ]} 0
    [(5, said owner "yes")] 30 [].

(** [b] and [c] both depend on [a]; the owner agrees. *)
Definition fork : Sim.world :=
  Sim.mkWorld
    [Sim.mkDescriptor "a" None [] []; Sim.mkDescriptor "b" None [] ["a"];
     Sim.mkDescriptor "c" None [] ["a"]]
    [Sim.mkRecord "a" true; Sim.mkRecord "b" true; Sim.mkRecord "c" true]
    [] ∅ 0 [(1, said owner "yes")] 30 [].

Definition the_application : application := mkApplication 99 1 "owner".

Definition globe : Sim.ExtensionDescriptor :=
  Sim.mkDescriptor "globe" (Some "https://example.org/globe") [] [].

(** [globe] is published at its own repository; the owner names it
    when asked. *)
Definition globe_world : Sim.world :=
  Sim.mkWorld [globe] [] [] ∅ 0 [(5, said owner "globe")] 30 [].

(** [lamp] is installed and up to date; the owner says yes. *)
Definition eager : Sim.world :=
  Sim.mkWorld [lamp] [Sim.mkRecord "lamp" true] [] ∅ 0 [(5, said owner "yes")] 30 [].

End Scenario.

(** ** Vocabulary of the properties *)

(** The messages a single item may cause: everything but the batch
    reports and the restart dialogue. *)
Definition item_message (m : sent_message) : bool :=
  match m with
  | InstallationCompleted _ | UpdateCompleted _ | UninstallationCompleted _
  | AskRestart | BeRightBack => false
  | _ => true
  end.

Definition success_of (m : sent_message) : option string :=
  match m with InstalledSuccessfully e => Some e | _ => None end.

(** [m] takes every frame to one related to it by [R], whether it returns
    or raises. *)
Definition keeps {W} (R : frame W → frame W → Prop) {A} (m : M (frame W) A) : Prop :=
  ∀ f, R f (snd (m f)).

(** Only item messages were sent, and the installed list of the report
    grew by exactly the extensions announced as installed. *)
Definition grows {W} (f f' : frame W) : Prop :=
  ∃ new, sent f' = sent f ++ new
         ∧ forallb item_message new = true
         ∧ entry "installed_extensions" (status f')
           = entry "installed_extensions" (status f) ++ omap success_of new.

(** From [w] to [w'] records were only removed, and none while an
    extension that stayed declares a dependency on it. *)
Definition safe (w w' : Sim.world) : Prop :=
  Sim.index w' = Sim.index w
  ∧ (∀ b, b ∈ Sim.installed_names w' → b ∈ Sim.installed_names w)
  ∧ (∀ x, x ∈ Sim.installed_names w → x ∉ Sim.installed_names w' →
       ∀ b, b ∈ Sim.installed_names w' → Sim.declares x b w' = false).

Definition cascades (f f' : frame Sim.world) : Prop :=
  safe (world f) (world f') ∧ sent f `prefix_of` sent f'.

(** The loop body never hands back a longer list than it was given. *)
Definition never_grows {St} (body : string → list string → M St (list string)) : Prop :=
  ∀ x l s, match body x l s with
           | (Ret l', _) => (length l' ≤ length l)%nat
           | (Raise _, _) => True
           end.

(** Every value [m] returns satisfies [P]. *)
Definition returns {St A} (P : A → Prop) (m : M St A) : Prop :=
  ∀ s a, fst (m s) = Ret a → P a.

(** Outcome and final state of [m] are related by [Q]. *)
Definition ensures {St A} (Q : result A → St → Prop) (m : M St A) : Prop :=
  ∀ s, Q (fst (m s)) (snd (m s)).

(** Every list of the report accumulator only got longer at its end. *)
Definition extends {W} (f f' : frame W) : Prop :=
  ∀ key, entry key (status f) `prefix_of` entry key (status f').

(** A procedure that returned [True] for [e] listed it as installed. *)
Definition recorded {W} (e : string) (r : result pyvalue) (f : frame W) : Prop :=
  r = Ret PyTrue → e ∈ entry "installed_extensions" (status f).

(** The packages part of [_install] either returned [False] or fell
    through. *)
Definition declined_or_continues (a : pyvalue + list string) : Prop :=
  ∀ v, a = inl v → v = PyFalse.

(** The expected ways for the item [x] to fail to install in the world
    [w]: the registry raises one of its two errors, or it reports unmet
    requirements and the first confirmation asked is not answered with
    yes. *)
Definition fails_as_expected {W} `{Collaborators W} (ctx : Context)
    (x : string) (w : W) : Prop :=
  (∃ w1, install_extension x None w = (Raise ExtensionAlreadyInstalled, w1))
  ∨ (∃ w1, install_extension x None w = (Raise ExtensionNotInIndex, w1))
  ∨ (∃ u w1 answer w2,
       install_extension x None w = (Ret (Some u), w1)
       ∧ (nonempty (packages u) = true ∨ nonempty (extensions u) = true)
       ∧ wait_for_answer ctx None w1 = (answer, w2)
       ∧ is_True answer = false).

(** Every second element of a list, starting with the first ([true]) or
    with the second ([false]). *)
Fixpoint alternate (keep : bool) (l : list string) : list string :=
  match l with
  | [] => []
  | x :: l' => if keep then x :: alternate false l' else alternate true l'
  end.

Definition removal_of (m : sent_message) : option string :=
  match m with UninstalledSuccessfully e => Some e | _ => None end.

(** Only item messages were sent, and the uninstalled list of the report
    grew by exactly the extensions announced as uninstalled. *)
Definition shrinks {W} (f f' : frame W) : Prop :=
  ∃ new, sent f' = sent f ++ new
         ∧ forallb item_message new = true
         ∧ entry "uninstalled_extensions" (status f')
           = entry "uninstalled_extensions" (status f) ++ omap removal_of new.

Section ItemVocabulary.
Context {W : Type} `{Collaborators W}.
Variable ctx : Context.

(** The package manager returns 0 for each package of [l] when they
    are handed to it one after the other from [w] on. *)
Fixpoint all_install (l : list string) (w : W) : Prop :=
  match l with
  | [] => True
  | p :: l' =>
      fst (install_package p w) = 0%Z ∧ all_install l' (snd (install_package p w))
  end.

(** What the package loop did between two frames: it announced and
    listed the packages [done], in order, and touched nothing else but
    the collaborators' state. *)
Definition installed_between (done : list string) (f f' : frame W) : Prop :=
  sent f' = sent f ++ map InstalledPackage done
  ∧ entry "installed_packages" (status f')
    = entry "installed_packages" (status f) ++ done
  ∧ (∀ key, key ≠ "installed_packages" →
       entry key (status f') = entry key (status f))
  ∧ cache f' = cache f
  ∧ command_prefix f' = command_prefix f.

(** The body of the loop of [Core.install_packages], under a name. *)
Definition package_step (package : string) (l : list string)
    : M (frame W) (list string) :=
  let* return_code := on_world (install_package package) in
  if (return_code =? 0)%Z then
    match list_remove package l with
    | None => raise ValueError
    | Some l' =>
        let* _ := send (InstalledPackage package) in
        let* _ := status_append "installed_packages" package in
        ret l'
    end
  else ret l.

(** The expected ways for the item [x] to fail to uninstall in the world
    [w]: it is not installed, or dependents are reported and the
    confirmation is not answered with yes. *)
Definition uninstall_fails_as_expected (x : string) (w : W) : Prop :=
  (∃ w1, uninstall_extension x w = (Raise ExtensionNotFound, w1))
  ∨ (∃ to_cascade w1 answer w2,
       uninstall_extension x w = (Ret to_cascade, w1)
       ∧ nonempty to_cascade = true
       ∧ wait_for_answer ctx None w1 = (answer, w2)
       ∧ is_True answer = false).
End ItemVocabulary.

(** Only item messages were sent, and the store is as it was. *)
Definition items_only {W} (f f' : frame W) : Prop :=
  cache f' = cache f
  ∧ ∃ new, sent f' = sent f ++ new ∧ forallb item_message new = true.

(** [f] with another console and another store. *)
Definition after_setup {W} (cs : list printed) (c : Cache) (f : frame (desk W))
    : frame (desk W) :=
  mkFrame (mkDesk (inner (world f)) (token (world f)) (notices (world f)) cs
                  (users (world f)))
          c (command_prefix f) (sent f) (status f).

(** * Properties *)

(** ** Lists and strings *)

Lemma mem_spec x l : mem x l = true ↔ x ∈ l.
Proof.
  unfold mem. rewrite existsb_exists. split.
  - intros (y & Hy & Heq). apply String.eqb_eq in Heq. subst. by apply list_elem_of_In.
  - intros Hin. exists x. split; [by apply list_elem_of_In | apply String.eqb_refl].
Qed.

Lemma entry_empty key : entry key ∅ = [].
Proof. unfold entry. by rewrite lookup_total_empty. Qed.

Lemma entry_insert_eq key l (d : gmap string (list string)) :
  entry key (<[key := l]> d) = l.
Proof. unfold entry. by rewrite lookup_total_insert_eq. Qed.

Lemma entry_insert_ne key key' l (d : gmap string (list string)) :
  key ≠ key' → entry key' (<[key := l]> d) = entry key' d.
Proof. intros Hne. unfold entry. by rewrite lookup_total_insert_ne. Qed.

Create Rewrite HintDb status.
#[global] Hint Rewrite entry_empty entry_insert_eq : status.
#[global] Hint Rewrite entry_insert_ne using discriminate : status.

Lemma last_char_app_dq s : last_char (s +:+ dq) = Some dquote.
Proof.
  induction s as [|c s IH]; [reflexivity|].
  simpl. rewrite IH. destruct (s +:+ dq) eqn:E; [|reflexivity].
  destruct s; discriminate.
Qed.

Lemma last_char_split s c : last_char s = Some c → ∃ s', s = s' +:+ String c "".
Proof.
  induction s as [|d s IH]; [discriminate|].
  simpl. destruct s as [|e s].
  - intros [= ->]. by exists "".
  - intros Hl. destruct (IH Hl) as [s' Hs']. exists (String d s'). simpl. by rewrite Hs'.
Qed.

Lemma substring_all s : substring 0 (String.length s) (s +:+ dq) = s.
Proof. induction s as [|c s IH]; [reflexivity|]. simpl. by rewrite IH. Qed.

Lemma length_app_dq s : String.length (s +:+ dq) = S (String.length s).
Proof. induction s as [|c s IH]; [reflexivity|]. simpl. by rewrite IH. Qed.

Lemma startswith_dq s : startswith dq s = true → ∃ s', s = String dquote s'.
Proof.
  unfold startswith, dq. destruct s as [|c s]; [discriminate|].
  cbn [String.prefix]. destruct (ascii_dec dquote c) as [<-|]; [|discriminate]. eauto.
Qed.

Lemma unquote_quoted s : Core.unquote (dq +:+ s +:+ dq) = s.
Proof.
  change (dq +:+ s +:+ dq) with (String dquote (s +:+ dq)).
  unfold Core.unquote.
  assert (Hs : startswith dq (String dquote (s +:+ dq)) = true).
  { unfold startswith, dq. cbn [String.prefix].
    destruct (ascii_dec dquote dquote); [|done]. by destruct (s +:+ String dquote ""). }
  assert (He : endswith_char dquote (String dquote (s +:+ dq)) = true).
  { unfold endswith_char. change (String dquote (s +:+ dq)) with (String dquote s +:+ dq).
    rewrite last_char_app_dq. apply Ascii.eqb_refl. }
  rewrite Hs, He. cbn [andb]. unfold slice.
  cbn [String.length]. rewrite length_app_dq.
  replace (S (S (String.length s)) - 1 - 1)%nat with (String.length s) by lia.
  cbn [substring]. apply substring_all.
Qed.

Lemma quoted_shape p :
  (2 ≤ String.length p)%nat →
  startswith dq p = true → endswith_char dquote p = true →
  ∃ s, p = dq +:+ s +:+ dq.
Proof.
  intros Hlen Hs He. apply startswith_dq in Hs as [s' ->].
  unfold endswith_char in He.
  destruct (last_char (String dquote s')) as [d|] eqn:Hl; [|discriminate].
  apply Ascii.eqb_eq in He. subst d.
  destruct s' as [|c s']; [simpl in Hlen; lia|].
  assert (Hl' : last_char (String c s') = Some dquote) by exact Hl.
  apply last_char_split in Hl' as [s'' Hs'']. exists s''. simpl. by rewrite Hs''.
Qed.

(** ** Prefixes *)

(** C7: adding a prefix that is already in the stored list raises
    [PrefixAlreadyExists], removing one that is not there raises
    [PrefixNotFound], and in both cases the store is left as it was. *)
Theorem prefix_errors_leave_store (c : Cache) (l : list string) (p : string) :
  CoreController.get_prefixes c = (Ret l, c) →
  (p ∈ l → CoreController.add_prefix p c = (Raise PrefixAlreadyExists, c))
  ∧ (p ∉ l → CoreController.remove_prefix p c = (Raise PrefixNotFound, c)).
Proof.
  intros Hget. split; intros Hp.
  - unfold CoreController.add_prefix, bind. rewrite Hget.
    apply mem_spec in Hp. by rewrite Hp.
  - unfold CoreController.remove_prefix, bind. rewrite Hget.
    destruct (mem p l) eqn:Hm; [|done].
    apply mem_spec in Hm. contradiction.
Qed.

Lemma prefix_errors_leave_store_witness :
  CoreController.add_prefix "!" Scenario.two_prefixes
    = (Raise PrefixAlreadyExists, Scenario.two_prefixes)
  ∧ CoreController.remove_prefix "$" Scenario.two_prefixes
    = (Raise PrefixNotFound, Scenario.two_prefixes).
Proof.
  destruct (prefix_errors_leave_store Scenario.two_prefixes ["!"; "?"] "!") as [Ha _];
    [reflexivity|].
  destruct (prefix_errors_leave_store Scenario.two_prefixes ["!"; "?"] "$") as [_ Hr];
    [reflexivity|].
  split.
  - apply Ha. apply mem_spec. reflexivity.
  - apply Hr. intros Hin. apply mem_spec in Hin. discriminate.
Defined.

Lemma unquote_unquoted p :
  startswith dq p && endswith_char dquote p = false → Core.unquote p = p.
Proof. unfold Core.unquote. by intros ->. Qed.

(** C10, counterexample: the one-character argument that is a lone
    double quote starts and ends with a quote; a single character is
    taken off it, not a leading and a trailing one, and the empty prefix
    is stored. *)
Lemma add_prefix_lone_quote :
  startswith dq dq && endswith_char dquote dq = true
  ∧ dq +:+ Core.unquote dq +:+ dq ≠ dq
  ∧ (String.length (Core.unquote dq) + 2)%nat ≠ String.length dq
  ∧ let f := snd (Core.add_prefix dq (Sim.start Scenario.quiet)) in
    fst (CoreController.get_prefixes (cache f)) = Ret [""]
    ∧ sent f = [PrefixAdded ""].
Proof. repeat split; by vm_compute. Qed.

(** C10 (amended): the command hands [unquote p] to the controller:
    afterwards [unquote p] is a stored prefix, appended to the list unless
    it was there already.  [unquote] takes the surrounding pair of quotes
    off an argument of the form quote-s-quote, which every argument of two
    or more characters that starts and ends with a quote has; it turns the
    lone quote into the empty string; it returns any other argument as it
    is. *)
Theorem add_prefix_unquotes {W} (f : frame W) (p : string) (old : list string) :
  CoreController.get_prefixes (cache f) = (Ret old, cache f) →
  (let stored := if mem (Core.unquote p) old then old else old ++ [Core.unquote p] in
   let f' := snd (Core.add_prefix p f) in
   fst (Core.add_prefix p f) = Ret tt
   ∧ fst (CoreController.get_prefixes (cache f')) = Ret stored
   ∧ Core.unquote p ∈ stored
   ∧ sent f' = sent f ++ [if mem (Core.unquote p) old
                          then PrefixIsAlreadyPrefix (Core.unquote p)
                          else PrefixAdded (Core.unquote p)])
  ∧ (∀ s, p = dq +:+ s +:+ dq → Core.unquote p = s)
  ∧ ((2 ≤ String.length p)%nat → startswith dq p = true →
     endswith_char dquote p = true → ∃ s, p = dq +:+ s +:+ dq)
  ∧ (p = dq → Core.unquote p = "")
  ∧ (startswith dq p && endswith_char dquote p = false → Core.unquote p = p).
Proof.
  intros Hget. split; [|split; [|split; [|split]]].
  - cbv zeta.
    unfold Core.add_prefix, try_except, bind, on_cache, CoreController.add_prefix, bind.
    rewrite Hget. destruct (mem (Core.unquote p) old) eqn:Hmem.
    + unfold raise, send, modify.
      cbn [fst snd cache world command_prefix sent status].
      destruct (decide (PrefixAlreadyExists = PrefixAlreadyExists)); [|done].
      cbn [fst snd cache world command_prefix sent status]. rewrite Hget.
      split; [done|]. split; [done|].
      split; [by apply mem_spec | done].
    + unfold CoreController.set_prefixes, cache_set, modify. cbn.
      unfold CoreController.get_prefixes, cache_get. cbn.
      rewrite lookup_insert_eq. cbn. rewrite lookup_insert_eq.
      split; [done|]. split; [done|]. split; [|done].
      apply elem_of_app. right. left.
  - intros s ->. apply unquote_quoted.
  - apply quoted_shape.
  - intros ->. reflexivity.
  - apply unquote_unquoted.
Qed.

Lemma add_prefix_unquotes_witness :
  let p := dq +:+ "! " +:+ dq in
  let f' := snd (Core.add_prefix p (Sim.start Scenario.quiet)) in
  fst (CoreController.get_prefixes (cache f')) = Ret ["! "]
  ∧ Core.unquote p = "! ".
Proof.
  destruct (add_prefix_unquotes (Sim.start Scenario.quiet) (dq +:+ "! " +:+ dq) [])
    as [(_ & Hs & _) [Hq _]].
  - reflexivity.
  - split; [exact Hs | by apply Hq].
Defined.

(** ** Authorization *)

Lemma owner_only_commands cmd :
  cmd ∈ extension_management ++ bot_configuration → is_owner_decorated cmd = true.
Proof.
  intros Hin. apply list_elem_of_In in Hin. cbn in Hin.
  repeat (destruct Hin as [<-|Hin]; [reflexivity|]). contradiction.
Qed.

(** C3, counterexample: the owner check does not read the configured
    owner id.  The store names user 1 as owner, or nobody, and the
    application belongs to user 2: user 2, whose id differs from the
    configured owner id, invokes [install]; the callback runs and the
    extension is installed. *)
Lemma configured_owner_not_checked :
  let install := λ (_ : command) (c : Context), Core.install c 2 "lamp" in
  let f := mkFrame Scenario.pair_world Scenario.owned [] [] ∅ in
  let r := Bot.invoke 2 install Scenario.stranger_ctx cmd_install f in
  let r' := Bot.invoke 2 install Scenario.stranger_ctx cmd_install
              (Sim.start Scenario.pair_world) in
  cmd_install ∈ extension_management ++ bot_configuration
  ∧ CoreController.get_owner_id (cache f) = Some (VId 1)
  ∧ user_id (author (message Scenario.stranger_ctx)) = 2%Z
  ∧ fst r = Bot.Runs
  ∧ "lamp" ∈ Sim.installed_names (world (snd r))
  ∧ CoreController.get_owner_id (cache (Sim.start Scenario.pair_world)) = None
  ∧ fst r' = Bot.Runs
  ∧ "lamp" ∈ Sim.installed_names (world (snd r')).
Proof.
  cbv zeta. split; [|split_and!; try (vm_compute; reflexivity)].
  - apply list_elem_of_here.
  - apply mem_spec. vm_compute. reflexivity.
  - apply mem_spec. vm_compute. reflexivity.
Qed.

(** C3 (amended): an invocation whose author is a bot account is
    stopped before the callback, whatever the command.  A command that
    carries the owner check, as every extension-management and
    bot-configuration command does, is stopped when its author is not
    the owner the check asks for, the owner of the application; that
    is the configured owner whenever the store holds the id
    [set_bot_owner] records.  In each case the callback does not run,
    nothing is sent and the state is the one before. *)
Theorem authorization_gate {W} (owner_id : Z)
    (callback : command → Context → M (frame W) unit)
    (ctx : Context) (cmd : command) (f : frame W) :
  (user_bot (author (message ctx)) = true →
   Bot.invoke owner_id callback ctx cmd f
   = (if enabled cmd then Bot.CheckFailure else Bot.DisabledCommand, f))
  ∧ (∀ c, c ∈ extension_management ++ bot_configuration →
          is_owner_decorated c = true ∧ enabled c = true)
  ∧ (is_owner_decorated cmd = true →
     user_id (author (message ctx)) ≠ owner_id →
     fst (Bot.invoke owner_id callback ctx cmd f) ≠ Bot.Runs
     ∧ snd (Bot.invoke owner_id callback ctx cmd f) = f)
  ∧ (is_owner_decorated cmd = true →
     CoreController.get_owner_id (cache f) = Some (VId owner_id) →
     CoreController.get_owner_id (cache f)
       ≠ Some (VId (user_id (author (message ctx)))) →
     fst (Bot.invoke owner_id callback ctx cmd f) ≠ Bot.Runs
     ∧ snd (Bot.invoke owner_id callback ctx cmd f) = f)
  ∧ CoreController.get_owner_id (snd (Bot.set_bot_owner owner_id (cache f)))
    = Some (VId owner_id).
Proof.
  assert (Hgate : is_owner_decorated cmd = true →
            user_id (author (message ctx)) ≠ owner_id →
            fst (Bot.invoke owner_id callback ctx cmd f) ≠ Bot.Runs
            ∧ snd (Bot.invoke owner_id callback ctx cmd f) = f).
  { intros Hcmd Hother.
    assert (Hno : Bot.is_owner owner_id ctx = false).
    { unfold Bot.is_owner. by apply Z.eqb_neq. }
    unfold Bot.invoke, Bot.can_run. rewrite Hcmd, Hno.
    destruct (enabled cmd); [|done].
    by destruct (Bot.user_allowed (cache f) ctx). }
  split_and!.
  - intros Hbot. unfold Bot.invoke, Bot.can_run, Bot.user_allowed. rewrite Hbot.
    by destruct (enabled cmd).
  - intros c Hin. split; [by apply owner_only_commands|].
    apply list_elem_of_In in Hin. cbn in Hin.
    repeat (destruct Hin as [<-|Hin]; [reflexivity|]). contradiction.
  - exact Hgate.
  - intros Hcmd Howner Hother. apply Hgate; [done|].
    intros Heq. apply Hother. by rewrite Howner, Heq.
  - unfold Bot.set_bot_owner, CoreController.set_owner_id,
      CoreController.get_owner_id, cache_set, cache_get, modify.
    cbn [snd store]. by rewrite lookup_insert_eq.
Qed.

Lemma authorization_gate_witness :
  let f := mkFrame Scenario.quiet Scenario.owned [] [] ∅ in
  let bot_ctx := mkContext (Scenario.said Scenario.other_bot "!ping") in
  Bot.invoke 1 (λ _ _, send BeRightBack) bot_ctx cmd_ping f = (Bot.CheckFailure, f)
  ∧ fst (Bot.invoke 1 (λ _ _, send BeRightBack) Scenario.stranger_ctx cmd_install f)
    ≠ Bot.Runs
  ∧ snd (Bot.invoke 1 (λ _ _, send BeRightBack) Scenario.stranger_ctx cmd_install f) = f.
Proof.
  cbv zeta. split.
  - apply (authorization_gate 1 (λ _ _, send BeRightBack)
             (mkContext (Scenario.said Scenario.other_bot "!ping")) cmd_ping).
    reflexivity.
  - destruct (authorization_gate 1 (λ _ _, send BeRightBack) Scenario.stranger_ctx
                cmd_install (mkFrame Scenario.quiet Scenario.owned [] [] ∅))
      as (_ & _ & Hgate & _).
    apply Hgate.
    + reflexivity.
    + vm_compute. discriminate.
Defined.

(** ** The numbered-choice prompt *)

(** C4: [wait_for_choice] fails on every list of choices, before the
    prompt is sent, because [range] is applied to the list itself; and its
    check fails on a reply that does not start with a digit or is empty,
    an exception the wait passes on instead of waiting further.  Only a
    reply with a digit out of range leaves the wait pending. *)
Theorem wait_for_choice_fails (who : User) (where_ : Z) (text : string)
    (choices : list string) (f : frame (list Message)) :
  Bot.wait_for_choice who where_ text (PyList choices) f = (Raise TypeError, f)
  ∧ Bot.choice_check (PyList ["red"; "green"]) (Scenario.said Scenario.owner "x")
    = Raise ValueError
  ∧ Bot.choice_check (PyList ["red"; "green"]) (Scenario.said Scenario.owner "")
    = Raise IndexError
  ∧ Bot.choice_check (PyList ["red"; "green"]) (Scenario.said Scenario.owner "7")
    = Ret false
  ∧ Bot.wait_for_message Scenario.owner 7 (Bot.choice_check (PyList ["red"; "green"]))
      [Scenario.said Scenario.owner "x"; Scenario.said Scenario.owner "2"]
    = (Raise ValueError, [Scenario.said Scenario.owner "2"]).
Proof. repeat split. Qed.

Lemma choice_check_non_digit (choices : pyobject) (m : Message) c rest :
  content m = String c rest →
  ((code c <? 48) || (57 <? code c))%nat = true →
  Bot.choice_check choices m = Raise ValueError.
Proof.
  intros Hc Hnd. unfold Bot.choice_check, Bot.int_of_char. rewrite Hc.
  destruct ((48 <=? code c)%nat && (code c <=? 57)%nat) eqn:Hd; [|done].
  apply andb_prop in Hd as [H1 H2].
  apply Nat.leb_le in H1, H2. apply orb_prop in Hnd as [H|H]; apply Nat.ltb_lt in H; lia.
Qed.

(** ** Yes/no prompts *)

Lemma next_reply_none pred deadline pending :
  Forall (λ tm, (deadline < tm.1)%nat ∨ pred tm.2 = false) pending →
  fst (Sim.next_reply pred deadline pending) = None.
Proof.
  induction 1 as [|[t m] rest Hhd _ IH]; [reflexivity|].
  cbn [Sim.next_reply]. destruct (deadline <? t)%nat eqn:Hlate; [reflexivity|].
  apply Nat.ltb_ge in Hlate. cbn in Hhd. destruct Hhd as [Hlt|Hp]; [lia|].
  by rewrite Hp.
Qed.

Lemma next_reply_some pred deadline pending t m :
  fst (Sim.next_reply pred deadline pending) = Some (t, m) →
  (t, m) ∈ pending ∧ (t ≤ deadline)%nat ∧ pred m = true.
Proof.
  induction pending as [|[t' m'] rest IH]; [discriminate|].
  cbn [Sim.next_reply]. destruct (deadline <? t')%nat eqn:Hlate; [discriminate|].
  apply Nat.ltb_ge in Hlate. destruct (pred m') eqn:Hp.
  - intros [= -> ->]. split; [left|done].
  - intros Hrest. destruct (IH Hrest) as (Hin & Ht & Hm).
    split; [by right|done].
Qed.

Lemma ask_yes_no_fst ctx timeout w :
  fst (Sim.ask_yes_no ctx (Some timeout) w)
  = match fst (Sim.next_reply (Sim.from_author_here ctx) (Sim.clock w + timeout)
                 (Sim.inbox w)) with
    | None => PyNone
    | Some (_, m) => if Sim.affirmative (content m) then PyTrue else PyFalse
    end.
Proof.
  unfold Sim.ask_yes_no, Sim.wait_for_reply. cbn [default].
  destruct (Sim.next_reply _ _ _) as [[[t m]|] rest]; reflexivity.
Qed.

(** C8: with no reply from the author in the conversation by the
    deadline, the yes/no prompt gives [None]; it gives [False] only for a
    reply that did arrive and is not affirmative.  The two outcomes are
    told apart by the tests [is None] and [is False], which
    [leave_confirmation] applies separately: left without a reply for its
    30 time units it answers that it stays, and leaves no guild. *)
Theorem ask_yes_no_no_reply (ctx : Context) (timeout : nat) (w : Sim.world) :
  (Forall (λ tm, (Sim.clock w + timeout < tm.1)%nat
                 ∨ Sim.from_author_here ctx tm.2 = false) (Sim.inbox w) →
   fst (Sim.ask_yes_no ctx (Some timeout) w) = PyNone)
  ∧ (fst (Sim.ask_yes_no ctx (Some timeout) w) = PyFalse →
     ∃ t m, (t, m) ∈ Sim.inbox w ∧ (t ≤ Sim.clock w + timeout)%nat
            ∧ Sim.from_author_here ctx m = true
            ∧ Sim.affirmative (content m) = false)
  ∧ (is_None PyNone = true ∧ is_None PyFalse = false
     ∧ is_False PyNone = false ∧ is_False PyFalse = true)
  ∧ (Forall (λ tm, (Sim.clock w + 30 < tm.1)%nat
                   ∨ Sim.from_author_here ctx tm.2 = false) (Sim.inbox w) →
     ∀ guild current_guild,
       let r := Core.leave_confirmation ctx guild current_guild (Sim.start w) in
       fst r = Ret tt
       ∧ sent (snd r) = [AskLeave guild; IllStay]
       ∧ Sim.left_guilds (world (snd r)) = Sim.left_guilds w).
Proof.
  split; [|split; [|split]].
  - intros Hquiet. rewrite ask_yes_no_fst. by rewrite next_reply_none.
  - rewrite ask_yes_no_fst.
    destruct (Sim.next_reply _ _ _).1 as [[t m]|] eqn:Hnext; [|discriminate].
    destruct (Sim.affirmative (content m)) eqn:Haff; [discriminate|]. intros _.
    apply next_reply_some in Hnext as (Hin & Ht & Hm). eauto 10.
  - repeat split.
  - intros Hquiet guild current_guild.
    pose proof (ask_yes_no_fst ctx 30 w) as Hans.
    rewrite (next_reply_none _ _ _ Hquiet) in Hans.
    unfold Core.leave_confirmation, bind, send, modify, on_world.
    cbn [Sim.start world cache command_prefix sent status wait_for_answer
         Sim.collaborators].
    destruct (Sim.ask_yes_no ctx (Some 30) w) as [ans w'] eqn:Hask.
    cbn [fst] in Hans. subst ans. cbn.
    split; [done|]. split; [done|].
    unfold Sim.ask_yes_no, Sim.wait_for_reply in Hask. cbn [default] in Hask.
    destruct (Sim.next_reply _ _ _) as [[[t m]|] rest].
    + by destruct (Sim.affirmative (content m)); inversion Hask.
    + by inversion Hask.
Qed.

Lemma late_reply_is_quiet :
  Forall (λ tm, (Sim.clock Scenario.late_reply + 30 < tm.1)%nat
                ∨ Sim.from_author_here Scenario.ctx tm.2 = false)
         (Sim.inbox Scenario.late_reply).
Proof.
  constructor; [right; reflexivity|].
  constructor; [left; cbn; lia|]. constructor.
Defined.

Lemma ask_yes_no_no_reply_witness :
  fst (Sim.ask_yes_no Scenario.ctx (Some 30) Scenario.late_reply) = PyNone
  ∧ sent (snd (Core.leave_confirmation Scenario.ctx "Forge" (Some "Forge")
                 (Sim.start Scenario.late_reply)))
    = [AskLeave "Forge"; IllStay].
Proof.
  destruct (ask_yes_no_no_reply Scenario.ctx 30 Scenario.late_reply)
    as (Hnone & _ & _ & Hleave).
  split.
  - apply Hnone, late_reply_is_quiet.
  - apply Hleave, late_reply_is_quiet.
Defined.

(** ** Relations kept by a procedure *)

Section Keeps.
Context {W : Type}.
Variable R : frame W → frame W → Prop.
Hypothesis R_refl : ∀ f, R f f.
Hypothesis R_trans : ∀ f g h, R f g → R g h → R f h.

Lemma keeps_ret {A} (a : A) : keeps R (ret a).
Proof. intros f. apply R_refl. Qed.

Lemma keeps_raise {A} e : keeps R (@raise _ A e).
Proof. intros f. apply R_refl. Qed.

Lemma keeps_get : keeps R get.
Proof. intros f. apply R_refl. Qed.

Lemma keeps_bind {A B} (m : M (frame W) A) (k : A → M (frame W) B) :
  keeps R m → (∀ a, keeps R (k a)) → keeps R (bind m k).
Proof.
  intros Hm Hk f. unfold bind. specialize (Hm f).
  destruct (m f) as [[a|e] f1]; cbn in *; [|done].
  eapply R_trans; [exact Hm | apply Hk].
Qed.

Lemma keeps_attempt {A} (m : M (frame W) A) : keeps R m → keeps R (attempt m).
Proof. intros Hm f. unfold attempt. specialize (Hm f). by destruct (m f). Qed.

Lemma keeps_for_in n i body l :
  (∀ x l', keeps R (body x l')) → keeps R (for_in n i body l).
Proof.
  intros Hbody. revert i l. induction n as [|n IH]; intros i l; cbn [for_in].
  - apply keeps_ret.
  - destruct (l !! i); [|apply keeps_ret].
    apply keeps_bind; [apply Hbody | intros l'; apply IH].
Qed.

Lemma keeps_for_each l body :
  (∀ x, keeps R (body x)) → keeps R (for_each l body).
Proof.
  intros Hbody. induction l as [|x l IH]; cbn [for_each].
  - apply keeps_ret.
  - apply keeps_bind; [apply Hbody | intros _; apply IH].
Qed.
End Keeps.

(** ** Loops over a list that the body shortens *)

Lemma list_remove_length x l l' :
  list_remove x l = Some l' → S (length l') = length l.
Proof.
  revert l'. induction l as [|y l IH]; intros l'; [discriminate|].
  cbn [list_remove]. destruct (String.eqb x y).
  - by intros [= ->].
  - destruct (list_remove x l) as [r|]; [|discriminate].
    intros [= <-]. cbn. f_equal. by apply IH.
Qed.

(** The bound of [for_in] is not what ends a loop whose body never grows
    the list: any larger bound gives the same run. *)
Lemma for_in_enough {St} n k i (body : string → list string → M St (list string)) l s :
  never_grows body → (length l - i ≤ n)%nat →
  for_in (n + k)%nat i body l s = for_in n i body l s.
Proof.
  intros Hbody. revert i l s. induction n as [|n IH]; intros i l s Hlen.
  - cbn [for_in Nat.add]. destruct k as [|k]; [reflexivity|].
    cbn [for_in]. rewrite lookup_ge_None_2 by lia. reflexivity.
  - cbn [for_in Nat.add]. destruct (l !! i) as [x|] eqn:Hx; [|reflexivity].
    apply lookup_lt_Some in Hx. unfold bind.
    pose proof (Hbody x l s) as Hl'.
    destruct (body x l s) as [[l'|e] s']; [|reflexivity].
    apply IH. lia.
Qed.

Section Loops.
Context {W : Type} `{Collaborators W}.

(** So the package loop, bounded by the length of its list, runs as the
    unbounded Python loop does. *)
Lemma install_packages_never_stops_short pkgs k (f : frame W) :
  ∃ body, Core.install_packages pkgs = for_in (length pkgs) 0 body pkgs
          ∧ for_in (length pkgs + k)%nat 0 body pkgs f = Core.install_packages pkgs f.
Proof.
  eexists. split; [reflexivity|].
  apply for_in_enough; [|lia].
  intros x l s. unfold bind, on_world.
  destruct (install_package x (world s)) as [rc w'].
  destruct (rc =? 0)%Z; [|cbn; lia].
  destruct (list_remove x l) as [l'|] eqn:Hrm; [|done].
  apply list_remove_length in Hrm. cbn. lia.
Qed.
End Loops.

(** ** Outcomes of a procedure *)

Section Outcomes.
Context {St : Type}.

Lemma returns_ret {A} (P : A → Prop) a : P a → returns (St:=St) P (ret a).
Proof. intros HP s a' [= <-]. exact HP. Qed.

Lemma returns_raise {A} (P : A → Prop) e : returns (St:=St) P (raise e).
Proof. intros s a. discriminate. Qed.

Lemma returns_bind {A B} (P : B → Prop) (m : M St A) (k : A → M St B) :
  (∀ a, returns P (k a)) → returns P (bind m k).
Proof.
  intros Hk s b. unfold bind. destruct (m s) as [[a|e] s'].
  - apply Hk.
  - discriminate.
Qed.

Lemma ensures_bind {A B} (Q : result B → St → Prop) (m : M St A) (k : A → M St B) :
  (∀ e s, Q (Raise e) s) → (∀ a, ensures Q (k a)) → ensures Q (bind m k).
Proof.
  intros Hraise Hk s. unfold bind. destruct (m s) as [[a|e] s'].
  - apply Hk.
  - apply Hraise.
Qed.

Lemma ensures_bind_returns {A B} (P : A → Prop) (Q : result B → St → Prop)
    (m : M St A) (k : A → M St B) :
  (∀ e s, Q (Raise e) s) → returns P m → (∀ a, P a → ensures Q (k a)) →
  ensures Q (bind m k).
Proof.
  intros Hraise Hm Hk s. unfold bind. specialize (Hm s).
  destruct (m s) as [[a|e] s'].
  - apply Hk. by apply Hm.
  - apply Hraise.
Qed.
End Outcomes.

(** ** The install batch *)

Section InstallLog.
Context {W : Type} `{Collaborators W}.
Variable ctx : Context.

Lemma grows_same (f f' : frame W) : sent f' = sent f → status f' = status f → grows f f'.
Proof. intros Hs Hd. exists []. by rewrite Hs, Hd, !app_nil_r. Qed.

Lemma grows_refl (f : frame W) : grows f f.
Proof. by apply grows_same. Qed.

Lemma grows_trans (f g h : frame W) : grows f g → grows g h → grows f h.
Proof.
  intros (n1 & Hs1 & Hi1 & He1) (n2 & Hs2 & Hi2 & He2). exists (n1 ++ n2).
  rewrite Hs2, Hs1, He2, He1, forallb_app, Hi1, Hi2, omap_app, !app_assoc. done.
Qed.

Lemma keeps_send m :
  item_message m = true → success_of m = None → keeps (@grows W) (send m).
Proof.
  intros Hi Hs f. exists [m]. cbn. by rewrite Hi, Hs, app_nil_r.
Qed.

Lemma keeps_on_world {A} (m : W → A * W) : keeps (@grows W) (on_world m).
Proof. intros f. unfold on_world. destruct (m (world f)). by apply grows_same. Qed.

Lemma keeps_on_world_raising {A} (m : W → result A * W) : keeps (@grows W) (on_world_raising m).
Proof. intros f. unfold on_world_raising. destruct (m (world f)). by apply grows_same. Qed.

Lemma keeps_status_extend key l :
  key ≠ "installed_extensions" → keeps (@grows W) (status_extend key l).
Proof.
  intros Hk f. exists []. cbn. rewrite !app_nil_r. split; [done|]. split; [done|].
  unfold entry. by rewrite lookup_total_insert_ne.
Qed.

Lemma keeps_success e {A} (k : M (frame W) A) :
  keeps (@grows W) k →
  keeps (@grows W) (let* _ := send (InstalledSuccessfully e) in
         let* _ := status_append "installed_extensions" e in k).
Proof.
  intros Hk f. unfold bind, send, status_append, status_extend, modify. cbn.
  eapply grows_trans; [|apply Hk].
  exists [InstalledSuccessfully e]. cbn. split; [done|]. split; [done|].
  unfold entry. by rewrite lookup_total_insert_eq.
Qed.

Ltac keeps_step :=
  first
    [ apply keeps_ret; [apply grows_refl]
    | apply keeps_raise; [apply grows_refl]
    | apply keeps_success
    | apply keeps_send; reflexivity
    | apply keeps_on_world
    | apply keeps_on_world_raising
    | apply keeps_status_extend; discriminate
    | apply keeps_attempt
    | apply keeps_for_in; [apply grows_refl | apply grows_trans | intros ? ?]
    | apply keeps_bind; [apply grows_trans | | intros ?]
    | match goal with
      | |- keeps _ (match ?x with _ => _ end) => destruct x
      end ].

Lemma keeps_install_packages pkgs : keeps (@grows W) (Core.install_packages pkgs).
Proof. unfold Core.install_packages, status_append. repeat keeps_step. Qed.

Lemma keeps__install depth e : keeps (@grows W) (Core._install ctx depth e).
Proof.
  revert e. induction depth as [|depth IH]; intros e.
  - apply keeps_raise, grows_refl.
  - cbn [Core._install]. unfold status_append.
    repeat first [ apply IH | apply keeps_install_packages | keeps_step ].
Qed.

(** X20: whatever the collaborators do, a run of [install] that returns
    has sent exactly one batch report, after every item message, and
    then asked once about restarting if and only if some extension was
    announced as installed; no item asks about restarting.  A run that
    an exception ends has sent item messages only.  The batch without
    items always returns, with the empty report and nothing else. *)
Theorem install_single_report depth exts (f : frame W) :
  let r := Core.install ctx depth exts f in
  (∃ items, forallb item_message items = true ∧
     match fst r with
     | Raise _ => sent (snd r) = sent f ++ items
     | Ret _ =>
         ∃ sections tail,
           sent (snd r) = sent f ++ items ++ [InstallationCompleted sections] ++ tail
           ∧ ((omap success_of items ≠ []
               ∧ (tail = [AskRestart] ∨ tail = [AskRestart; BeRightBack]))
              ∨ (omap success_of items = [] ∧ tail = []))
     end)
  ∧ (split (lower exts) = [] →
     r = (Ret tt, mkFrame (world f) (cache f) (command_prefix f)
                    (sent f ++ [InstallationCompleted []]) ∅)).
Proof.
  cbv zeta. split.
  2:{ intros Hnone. unfold Core.install. rewrite Hnone. reflexivity. }
  unfold Core.install.
  set (body := λ extension : string,
         let* _ := Core._install ctx depth extension in ret tt).
  assert (Hbody : ∀ x, keeps (@grows W) (body x)).
  { intros x. apply keeps_bind; [apply grows_trans | apply keeps__install |].
    intros _. apply keeps_ret, grows_refl. }
  pose proof (keeps_for_each grows grows_refl grows_trans (split (lower exts)) body Hbody) as Hloop.
  set (f0 := mkFrame (world f) (cache f) (command_prefix f) (sent f) ∅).
  specialize (Hloop f0). destruct Hloop as (items & Hsent & Hitems & Hentry).
  exists items. split; [exact Hitems|].
  unfold bind, set_status, modify, get. cbv beta iota. fold f0.
  destruct (for_each (split (lower exts)) body f0) as [[[]|e] f1]; cbn [fst snd] in *;
    [|exact Hsent].
  unfold entry at 2 in Hentry. cbn [status f0] in Hentry.
  rewrite lookup_total_empty in Hentry. cbn [inhabitant list_inhabited app] in Hentry.
  unfold send, modify. cbv beta iota. cbn [status sent].
  rewrite Hentry.
  destruct (omap success_of items) as [|s0 rest] eqn:Hsucc; cbn [nonempty].
  - eexists _, []. cbn [ret fst snd sent]. rewrite Hsent. split; [|right; done].
    cbn [sent f0]. by rewrite <- !app_assoc.
  - unfold Core.ask_restart, bind, send, modify, on_world.
    cbn [world cache command_prefix sent status fst snd].
    destruct (wait_for_answer ctx None (world f1)) as [answer w'].
    destruct (is_True answer).
    + eexists _, [AskRestart; BeRightBack]. cbn. rewrite Hsent.
      split; [|left; split; [done|by right]].
      rewrite <- !app_assoc. reflexivity.
    + eexists _, [AskRestart]. cbn. rewrite Hsent.
      split; [|left; split; [done|by left]].
      rewrite <- !app_assoc. reflexivity.
Qed.

(** C9: an install batch whose first item is a repository URL for which
    no name arrives in time sends no report.  The wait for the name
    raises [TimeoutError] and nothing catches it: the command ends
    with it right after the request for a name, the items that follow
    are not processed, and neither a report nor a restart question is
    sent. *)
Theorem install_timeout_sends_no_report depth (s url : string) (rest : list string)
    (w1 : W) (f : frame W) :
  split (lower s) = url :: rest →
  startswith "https://" url = true →
  wait_for (Core.extension_check ctx) 60 (world f) = (Raise TimeoutError, w1) →
  Core.install ctx (S depth) s f
  = (Raise TimeoutError,
     mkFrame w1 (cache f) (command_prefix f) (sent f ++ [SpecifyExtensionName]) ∅).
Proof.
  intros Hsplit Hurl Hwait.
  unfold Core.install. rewrite Hsplit. cbn [for_each].
  unfold bind at 1. unfold set_status at 1, modify at 1. cbv beta iota.
  unfold bind at 1. unfold bind at 1. unfold bind at 1.
  cbn [Core._install]. rewrite Hurl.
  unfold bind at 1. unfold send at 1, modify at 1. cbv beta iota.
  unfold bind at 1. unfold on_world_raising at 1.
  cbn [world cache command_prefix sent status]. rewrite Hwait.
  reflexivity.
Qed.
End InstallLog.

Lemma install_timeout_sends_no_report_witness :
  let r := Core.install Scenario.ctx 1 "https://example.org/globe lamp"
             (Sim.start Scenario.pair_world) in
  fst r = Raise TimeoutError
  ∧ sent (snd r) = [SpecifyExtensionName]
  ∧ Sim.installed_names (world (snd r)) = ["forge"].
Proof.
  cbv zeta.
  rewrite (install_timeout_sends_no_report Scenario.ctx 0
             "https://example.org/globe lamp" "https://example.org/globe" ["lamp"]
             (snd (Sim.wait_for_message_event (Core.extension_check Scenario.ctx) 60
                     Scenario.pair_world))
             (Sim.start Scenario.pair_world)).
  - vm_compute. repeat split.
  - vm_compute. reflexivity.
  - reflexivity.
  - reflexivity.
Defined.

(** ** An extension whose packages were installed *)

Lemma install_packages_single {W} `{Collaborators W} (p : string) (f : frame W) (w' : W) :
  install_package p (world f) = (0%Z, w') →
  Core.install_packages [p] f
  = (Ret [], mkFrame w' (cache f) (command_prefix f) (sent f ++ [InstalledPackage p])
               (<["installed_packages" := entry "installed_packages" (status f) ++ [p]]>
                  (status f))).
Proof.
  intros Hpkg. unfold Core.install_packages. cbn [length for_in lookup list_lookup].
  unfold bind at 1. unfold bind at 1. unfold on_world. rewrite Hpkg.
  cbn [Z.eqb list_remove]. rewrite String.eqb_refl.
  unfold bind, send, status_append, status_extend, modify, ret. reflexivity.
Qed.

(** C1: a batch of one name whose registry call reports one unmet package
    and no unmet extension, answered with yes, the package installing
    with exit code 0: the batch completes, its report is sent, and the
    requested name is in neither the installed nor the failed list. *)
Theorem install_batch_drops_name {W} `{Collaborators W} (ctx : Context) (depth : nat)
    (s name p : string) (f : frame W) (w1 w2 w3 : W) :
  split (lower s) = [name] →
  startswith "https://" name = false →
  install_extension name None (world f) = (Ret (Some (mkUnsatisfied [p] [])), w1) →
  wait_for_answer ctx None w1 = (PyTrue, w2) →
  install_package p w2 = (0%Z, w3) →
  let r := Core.install ctx (S depth) s f in
  fst r = Ret tt
  ∧ sent (snd r)
    = sent f ++ [Installing name; FailedToInstall name [p] []; AskInstallPackages;
                 InstalledPackage p;
                 InstallationCompleted [("Installed packages:", [p])]]
  ∧ (name ∉ entry "installed_extensions" (status (snd r)))
  ∧ (name ∉ entry "failed_extensions" (status (snd r)))
  ∧ world (snd r) = w3.
Proof.
  intros Hsplit Hname Hreg Hyes Hpkg.
  cbv zeta. unfold Core.install. rewrite Hsplit.
  cbn [for_each Core._install]. rewrite Hname.
  unfold bind, set_status, send, status_append, status_extend, modify, attempt,
    on_world_raising, on_world, get, ret.
  cbn [world cache command_prefix sent status fst snd].
  rewrite Hreg. cbn [world cache command_prefix sent status fst snd packages extensions nonempty].
  rewrite Hyes. cbn [world cache command_prefix sent status fst snd is_True].
  rewrite (install_packages_single p _ w3) by exact Hpkg.
  cbn [world cache command_prefix sent status fst snd nonempty negb andb].
  unfold section, entry.
  rewrite !lookup_total_insert_ne by done. rewrite !lookup_total_empty.
  rewrite lookup_total_insert_eq.
  cbn [inhabitant list_inhabited app nonempty world cache command_prefix sent status fst snd].
  rewrite <- !app_assoc. cbn [app].
  repeat split; try done; apply not_elem_of_nil.
Qed.

Lemma install_batch_drops_name_witness :
  let r := Core.install Scenario.ctx 1 "weather" (Sim.start Scenario.weather_world) in
  fst r = Ret tt
  ∧ ("weather" ∉ entry "installed_extensions" (status (snd r)))
  ∧ ("weather" ∉ entry "failed_extensions" (status (snd r))).
Proof.
  destruct (install_batch_drops_name Scenario.ctx 0 "weather" "weather" "requests-lib"
              (Sim.start Scenario.weather_world)
              Scenario.weather_world
              (snd (Sim.ask_yes_no Scenario.ctx None Scenario.weather_world))
              (snd (Sim.package_install "requests-lib"
                      (snd (Sim.ask_yes_no Scenario.ctx None Scenario.weather_world)))))
    as (Hret & _ & Hinst & Hfail & _); try (vm_compute; reflexivity).
  split; [exact Hret|]. split; [exact Hinst | exact Hfail].
Defined.

(** C2: the weather scenario of the specification, run on its registry.
    The package is installed and reported, the batch report is sent, and
    the extension is neither installed nor listed: the list of installed
    extensions is empty where the specification has ["weather"]. *)
Theorem install_weather_report (depth : nat) :
  let r := Core.install Scenario.ctx (S depth) "weather"
             (Sim.start Scenario.weather_world) in
  fst r = Ret tt
  ∧ sent (snd r)
    = [Installing "weather"; FailedToInstall "weather" ["requests-lib"] [];
       AskInstallPackages; InstalledPackage "requests-lib";
       InstallationCompleted [("Installed packages:", ["requests-lib"])]]
  ∧ entry "installed_extensions" (status (snd r)) = []
  ∧ entry "installed_packages" (status (snd r)) = ["requests-lib"]
  ∧ entry "failed_extensions" (status (snd r)) = []
  ∧ entry "failed_packages" (status (snd r)) = []
  ∧ Sim.installed (world (snd r)) = []
  ∧ Sim.present_packages (world (snd r)) = ["requests-lib"].
Proof. vm_compute. repeat split. Qed.

(** ** Items of an install batch that fail or succeed *)

Section InstallOutcome.
Context {W : Type} `{Collaborators W}.
Variable ctx : Context.

Lemma recorded_raise e x (f : frame W) : recorded e (Raise x) f.
Proof. intros ?. discriminate. Qed.

Lemma ensures_recorded_ret e v :
  v ≠ PyTrue → ensures (recorded (W:=W) e) (ret v).
Proof. intros Hv f [= ?]. contradiction. Qed.

Lemma ensures_recorded_raise e x : ensures (recorded (W:=W) e) (raise x).
Proof. intros f. apply recorded_raise. Qed.

Lemma ensures_recorded_success e :
  ensures (recorded (W:=W) e)
    (let* _ := send (InstalledSuccessfully e) in
     let* _ := status_append "installed_extensions" e in ret PyTrue).
Proof.
  intros f _. cbn. unfold entry. rewrite lookup_total_insert_eq.
  apply elem_of_app. right. left.
Qed.

Ltac returns_step :=
  first
    [ apply returns_ret; intros ? [= <-]; reflexivity
    | apply returns_ret; intros ? [= ]
    | apply returns_raise
    | apply returns_bind; intros ?
    | match goal with
      | |- returns _ (match ?x with _ => _ end) => destruct x
      end ].

Ltac recorded_step :=
  first
    [ apply ensures_recorded_success
    | apply ensures_recorded_ret; discriminate
    | apply ensures_recorded_raise
    | apply ensures_bind; [apply recorded_raise | intros ?]
    | match goal with
      | |- ensures _ (match ?x with _ => _ end) => destruct x
      end ].

Lemma _install_recorded depth e :
  startswith "https://" e = false →
  ensures (recorded e) (Core._install ctx depth e).
Proof.
  intros Hname. induction depth as [|depth IH].
  - apply ensures_recorded_raise.
  - cbn [Core._install]. rewrite Hname.
    apply ensures_bind; [apply recorded_raise | intros _].
    apply ensures_bind; [apply recorded_raise | intros outcome].
    destruct outcome as [[u|]|x].
    + apply ensures_bind; [apply recorded_raise | intros _].
      apply (ensures_bind_returns declined_or_continues); [apply recorded_raise | |].
      * repeat returns_step.
      * intros [v|pkgs] Hv.
        -- rewrite (Hv v eq_refl). apply ensures_recorded_ret. discriminate.
        -- repeat first [ apply IH | recorded_step ].
    + apply ensures_recorded_success.
    + destruct x; repeat recorded_step.
Qed.

Lemma extends_same (f f' : frame W) : status f' = status f → extends f f'.
Proof. intros Hs key. by rewrite Hs. Qed.

Lemma extends_refl (f : frame W) : extends f f.
Proof. by apply extends_same. Qed.

Lemma extends_trans (f g h : frame W) : extends f g → extends g h → extends f h.
Proof. intros H1 H2 key. etrans; [apply H1 | apply H2]. Qed.

Lemma extends_send m : keeps (@extends W) (send m).
Proof. intros f. apply extends_same. reflexivity. Qed.

Lemma extends_on_world {A} (m : W → A * W) : keeps (@extends W) (on_world m).
Proof.
  intros f. unfold on_world. destruct (m (world f)). apply extends_same. reflexivity.
Qed.

Lemma extends_on_world_raising {A} (m : W → result A * W) :
  keeps (@extends W) (on_world_raising m).
Proof.
  intros f. unfold on_world_raising. destruct (m (world f)).
  apply extends_same. reflexivity.
Qed.

Lemma extends_status_extend key l : keeps (@extends W) (status_extend key l).
Proof.
  intros f key'. cbn. unfold entry.
  destruct (decide (key = key')) as [<-|Hne].
  - rewrite lookup_total_insert_eq. by apply prefix_app_r.
  - by rewrite lookup_total_insert_ne.
Qed.

Ltac extends_step :=
  first
    [ apply keeps_ret; [apply extends_refl]
    | apply keeps_raise; [apply extends_refl]
    | apply extends_send
    | apply extends_on_world
    | apply extends_on_world_raising
    | apply extends_status_extend
    | apply keeps_attempt
    | apply keeps_for_in; [apply extends_refl | apply extends_trans | intros ? ?]
    | apply keeps_bind; [apply extends_trans | | intros ?]
    | match goal with
      | |- keeps _ (match ?x with _ => _ end) => destruct x
      end ].

Lemma extends__install depth e : keeps (@extends W) (Core._install ctx depth e).
Proof.
  revert e. induction depth as [|depth IH]; intros e.
  - apply keeps_raise, extends_refl.
  - cbn [Core._install]. unfold Core.install_packages, status_append.
    repeat first [ apply IH | extends_step ].
Qed.

Lemma _install_expected_failure depth x (f : frame W) :
  startswith "https://" x = false →
  fails_as_expected ctx x (world f) →
  fst (Core._install ctx (S depth) x f) = Ret PyFalse
  ∧ x ∈ entry "failed_extensions" (status (snd (Core._install ctx (S depth) x f))).
Proof.
  intros Hname Hfail. cbn [Core._install]. rewrite Hname.
  unfold bind, send, status_append, status_extend, modify, attempt,
    on_world_raising, on_world, ret.
  cbn [world cache command_prefix sent status fst snd].
  destruct Hfail as [[w1 Hreg]|[[w1 Hreg]|(u & w1 & answer & w2 & Hreg & Hunmet & Hans & Hno)]];
    rewrite Hreg; cbn [world cache command_prefix sent status fst snd].
  - split; [done|]. rewrite entry_insert_eq. apply elem_of_app. right. left.
  - split; [done|]. rewrite entry_insert_eq. apply elem_of_app. right. left.
  - destruct (nonempty (packages u)) eqn:Hpk.
    + cbn [world cache command_prefix sent status fst snd]. rewrite Hans. cbn [world cache command_prefix sent status fst snd]. rewrite Hno.
      cbn [world cache command_prefix sent status fst snd].
      split; [done|]. rewrite entry_insert_eq. apply elem_of_app. right. left.
    + destruct Hunmet as [|Hext]; [discriminate|].
      cbn [negb andb world cache command_prefix sent status fst snd].
      rewrite Hpk, Hext.
      cbn [negb andb world cache command_prefix sent status fst snd].
      rewrite Hans. cbn [world cache command_prefix sent status fst snd]. rewrite Hno.
      cbn [world cache command_prefix sent status fst snd].
      split; [done|]. rewrite entry_insert_eq. apply elem_of_app. right. left.
Qed.

Lemma section_lists header key d x :
  x ∈ entry key d → (header, entry key d) ∈ section header key d.
Proof.
  intros Hx. unfold section. destruct (entry key d); [inversion Hx|].
  cbn. left.
Qed.

(** X17: the install batch does report an item that failed in an expected way:
    in a batch of two names where the first fails so and [_install]
    returns [True] for the second, the report lists the first as failed
    and the second as installed. *)
Theorem install_pair_reported depth s x y (f : frame W) :
  split (lower s) = [x; y] →
  startswith "https://" x = false →
  startswith "https://" y = false →
  fails_as_expected ctx x (world f) →
  let f0 := mkFrame (world f) (cache f) (command_prefix f) (sent f) ∅ in
  let f1 := snd (Core._install ctx (S depth) x f0) in
  fst (Core._install ctx (S depth) y f1) = Ret PyTrue →
  let r := Core.install ctx (S depth) s f in
  fst r = Ret tt
  ∧ ∃ sections failed installed,
      InstallationCompleted sections ∈ sent (snd r)
      ∧ ("Failed to install extensions:", failed) ∈ sections ∧ x ∈ failed
      ∧ ("Installed extensions:", installed) ∈ sections ∧ y ∈ installed.
Proof.
  intros Hsplit Hx Hy Hfail f0 f1 Hysucc.
  destruct (_install_expected_failure depth x f0 Hx Hfail) as [Hr1 Hx1].
  pose proof (_install_recorded (S depth) y Hy f1 Hysucc) as Hrec.
  pose proof (extends__install (S depth) y f1 "failed_extensions") as Hext.
  cbv zeta. unfold Core.install. rewrite Hsplit. cbn [for_each].
  unfold bind, set_status, modify, get, ret. cbv beta iota. fold f0.
  subst f1.
  destruct (Core._install ctx (S depth) x f0) as [r1 f1]. cbn [fst snd] in *. subst r1.
  destruct (Core._install ctx (S depth) y f1) as [r2 f2]. cbn [fst snd] in *. subst r2.
  assert (Hx2 : x ∈ entry "failed_extensions" (status f2)).
  { destruct Hext as [more ->]. apply elem_of_app. by left. }
  assert (Hne : nonempty (entry "installed_extensions" (status f2)) = true).
  { destruct (entry "installed_extensions" (status f2)); [inversion Hrec|done]. }
  unfold send at 1. unfold modify. cbv beta iota. cbn [status sent]. rewrite Hne.
  unfold Core.ask_restart, bind, send, modify, on_world, on_cache.
  cbn [world cache command_prefix sent status fst snd].
  destruct (wait_for_answer ctx None (world f2)) as [answer w'].
  set (report := InstallationCompleted _).
  assert (Hreport : ∃ sections failed installed,
            report = InstallationCompleted sections
            ∧ ("Failed to install extensions:", failed) ∈ sections ∧ x ∈ failed
            ∧ ("Installed extensions:", installed) ∈ sections ∧ y ∈ installed).
  { eexists _, (entry "failed_extensions" (status f2)),
      (entry "installed_extensions" (status f2)).
    split; [reflexivity|]. repeat split; try done.
    - rewrite !elem_of_app. right. right. left. by apply (section_lists _ _ _ x).
    - rewrite !elem_of_app. left. by apply (section_lists _ _ _ y). }
  destruct Hreport as (sections & failed & installed & Hrep & Hrest).
  destruct (is_True answer); cbn; (split; [done|]);
    exists sections, failed, installed; (split; [|exact Hrest]);
    rewrite <- Hrep, !elem_of_app.
  - left. left. right. left.
  - left. right. left.
Qed.

End InstallOutcome.

Lemma install_pair_reported_example :
  ∃ sections failed installed,
    InstallationCompleted sections
      ∈ sent (snd (Core.install Scenario.ctx 1 "forge lamp" (Sim.start Scenario.pair_world)))
    ∧ ("Failed to install extensions:", failed) ∈ sections ∧ "forge" ∈ failed
    ∧ ("Installed extensions:", installed) ∈ sections ∧ "lamp" ∈ installed.
Proof.
  apply (install_pair_reported Scenario.ctx 0 "forge lamp" "forge" "lamp"
           (Sim.start Scenario.pair_world)); try reflexivity.
  left. by exists Scenario.pair_world.
Defined.

(** ** Cascading uninstall *)

Lemma nonempty_nil {A} (l : list A) : nonempty l = false ↔ l = [].
Proof. by destruct l. Qed.

Section Cascade.
Variable ctx : Context.

Lemma declares_index x b w w' :
  Sim.index w' = Sim.index w → Sim.declares x b w' = Sim.declares x b w.
Proof. intros Hi. unfold Sim.declares, Sim.resolve. by rewrite Hi. Qed.

Lemma safe_refl w : safe w w.
Proof. split; [done|]. split; [done|]. intros x Hin Hout. contradiction. Qed.

Lemma safe_trans w1 w2 w3 : safe w1 w2 → safe w2 w3 → safe w1 w3.
Proof.
  intros (Hi1 & Hs1 & Hd1) (Hi2 & Hs2 & Hd2).
  split; [congruence|]. split; [auto|].
  intros x Hin Hout b Hb.
  destruct (decide (x ∈ Sim.installed_names w2)) as [Hmid|Hmid].
  - by apply Hd2.
  - rewrite (declares_index x b w2 w3 Hi2). apply Hd1; auto.
Qed.

Lemma dependents_spec x b w :
  b ∈ Sim.dependents x w ↔ b ∈ Sim.installed_names w ∧ Sim.declares x b w = true.
Proof. unfold Sim.dependents. rewrite list_elem_of_filter. tauto. Qed.

Lemma dependents_nil x w :
  Sim.dependents x w = [] ↔ ∀ b, b ∈ Sim.installed_names w → Sim.declares x b w = false.
Proof.
  split.
  - intros Hnil b Hb. destruct (Sim.declares x b w) eqn:Hd; [|done].
    assert (b ∈ Sim.dependents x w) as Hin by (by apply dependents_spec).
    rewrite Hnil in Hin. by apply elem_of_nil in Hin.
  - intros Hall. destruct (Sim.dependents x w) as [|b l] eqn:Hdep; [done|].
    assert (b ∈ Sim.dependents x w) as Hin by (rewrite Hdep; left).
    apply dependents_spec in Hin as [Hb Hd]. rewrite (Hall b Hb) in Hd. discriminate.
Qed.

Lemma installed_names_with_installed l w :
  Sim.installed_names (Sim.with_installed l w) = map Sim.record_name l.
Proof. reflexivity. Qed.

Lemma names_after_removal nm w b :
  b ∈ map Sim.record_name
        (filter (λ r, String.eqb (Sim.record_name r) nm = false) (Sim.installed w))
  ↔ b ∈ Sim.installed_names w ∧ b ≠ nm.
Proof.
  unfold Sim.installed_names. rewrite !list_elem_of_fmap. split.
  - intros (r & -> & Hr). apply list_elem_of_filter in Hr as [Hne Hr].
    apply String.eqb_neq in Hne. split; [by exists r|done].
  - intros [(r & -> & Hr) Hne]. exists r. split; [done|].
    apply list_elem_of_filter. split; [by apply String.eqb_neq|done].
Qed.

Lemma registry_uninstall_safe nm w :
  safe w (snd (Sim.registry_uninstall nm w)).
Proof.
  unfold Sim.registry_uninstall.
  destruct (negb (mem nm (Sim.installed_names w))); [apply safe_refl|].
  destruct (nonempty (Sim.dependents nm w)) eqn:Hcasc; [apply safe_refl|].
  apply nonempty_nil in Hcasc. cbn [snd].
  split; [done|]. rewrite installed_names_with_installed. split.
  - intros b Hb. by apply names_after_removal in Hb as [Hb _].
  - intros x Hx Hgone b Hb.
    assert (x = nm) as ->.
    { destruct (decide (x = nm)) as [|Hne]; [done|].
      exfalso. apply Hgone. by apply names_after_removal. }
    apply names_after_removal in Hb as [Hb _].
    rewrite (declares_index nm b w (Sim.with_installed _ w)) by reflexivity.
    by apply (proj1 (dependents_nil nm w)).
Qed.

Lemma ask_yes_no_registry c t w :
  Sim.index (snd (Sim.ask_yes_no c t w)) = Sim.index w
  ∧ Sim.installed (snd (Sim.ask_yes_no c t w)) = Sim.installed w.
Proof.
  unfold Sim.ask_yes_no, Sim.wait_for_reply.
  destruct (Sim.next_reply _ _ _) as [[[? ?]|] ?]; done.
Qed.

Lemma cascades_refl f : cascades f f.
Proof. split; [apply safe_refl|done]. Qed.

Lemma cascades_trans f g h : cascades f g → cascades g h → cascades f h.
Proof.
  intros [Hs1 Hp1] [Hs2 Hp2]. split; [by eapply safe_trans|by etrans].
Qed.

Lemma cascades_send m : keeps cascades (send m).
Proof. intros f. split; [apply safe_refl|]. by apply prefix_app_r. Qed.

Lemma cascades_status_extend key l : keeps cascades (status_extend key l).
Proof. intros f. split; [apply safe_refl|done]. Qed.

Lemma cascades_answer t : keeps cascades (on_world (wait_for_answer ctx t)).
Proof.
  intros f. unfold on_world. cbn [wait_for_answer Sim.collaborators].
  pose proof (ask_yes_no_registry ctx t (world f)) as [Hi Hn].
  destruct (Sim.ask_yes_no ctx t (world f)) as [a w']. cbn [snd] in *.
  split; [|done]. cbn [world]. unfold safe, Sim.installed_names.
  rewrite Hi, Hn. split; [done|]. split; [done|]. intros x Hin Hout. contradiction.
Qed.

Lemma cascades_registry nm : keeps cascades (on_world_raising (uninstall_extension nm)).
Proof.
  intros f. unfold on_world_raising. cbn [uninstall_extension Sim.collaborators].
  pose proof (registry_uninstall_safe nm (world f)) as Hsafe.
  destruct (Sim.registry_uninstall nm (world f)) as [r w']. by split.
Qed.

Ltac cascade_step :=
  first
    [ apply keeps_ret; [apply cascades_refl]
    | apply keeps_raise; [apply cascades_refl]
    | apply cascades_send
    | apply cascades_answer
    | apply cascades_registry
    | apply cascades_status_extend
    | apply keeps_attempt
    | apply keeps_for_in; [apply cascades_refl | apply cascades_trans | intros ? ?]
    | apply keeps_bind; [apply cascades_trans | | intros ?]
    | match goal with
      | |- keeps _ (match ?x with _ => _ end) => destruct x
      end ].

Lemma cascades__uninstall depth e : keeps cascades (Core._uninstall ctx depth e).
Proof.
  revert e. induction depth as [|depth IH]; intros e.
  - apply keeps_raise, cascades_refl.
  - cbn [Core._uninstall]. unfold status_append.
    repeat first [ apply IH | cascade_step ].
Qed.

Lemma registry_uninstall_reports A w :
  A ∈ Sim.installed_names w → Sim.dependents A w ≠ [] →
  Sim.registry_uninstall A w = (Ret (Sim.dependents A w), w).
Proof.
  intros Hin Hdep. unfold Sim.registry_uninstall.
  apply mem_spec in Hin. rewrite Hin. cbn [negb].
  destruct (nonempty (Sim.dependents A w)) eqn:Hne; [done|].
  by apply nonempty_nil in Hne.
Qed.

(** C5: on the registry of the specification, for an installed [A] with
    an installed dependent, the registry call of [_uninstall A] returns the
    non-empty list of the installed extensions that declare [A] and leaves
    [A] in place, the cog announces that list, and however the procedure
    ends, [A] is gone only if every member of the list is gone, and no
    record was removed that an extension still installed declares. *)
Theorem uninstall_cascade_safe depth A (f : frame Sim.world) :
  A ∈ Sim.installed_names (world f) →
  Sim.dependents A (world f) ≠ [] →
  let r := Core._uninstall ctx (S depth) A f in
  Sim.registry_uninstall A (world f) = (Ret (Sim.dependents A (world f)), world f)
  ∧ (∀ b, b ∈ Sim.dependents A (world f)
          ↔ b ∈ Sim.installed_names (world f) ∧ Sim.declares A b (world f) = true)
  ∧ WouldBeUninstalledToo A (Sim.dependents A (world f)) ∈ sent (snd r)
  ∧ (A ∉ Sim.installed_names (world (snd r)) →
     ∀ b, b ∈ Sim.dependents A (world f) → b ∉ Sim.installed_names (world (snd r)))
  ∧ (∀ x, x ∈ Sim.installed_names (world f) →
          x ∉ Sim.installed_names (world (snd r)) →
          Sim.dependents x (world (snd r)) = []).
Proof.
  intros Hin Hdep r.
  pose proof (registry_uninstall_reports A (world f) Hin Hdep) as Hreg.
  pose proof (cascades__uninstall (S depth) A f) as [(Hidx & Hsub & Hgone) _].
  fold r in Hidx, Hsub, Hgone.
  split; [exact Hreg|]. split; [intros b; apply dependents_spec|].
  split; [|split].
  - subst r. cbn [Core._uninstall].
    unfold bind at 1. unfold send at 1, modify. cbv beta iota.
    unfold bind at 1. unfold attempt, on_world_raising.
    cbn [uninstall_extension Sim.collaborators world cache command_prefix sent status].
    rewrite Hreg. cbv beta iota.
    destruct (nonempty (Sim.dependents A (world f))) eqn:Hne;
      [|by apply nonempty_nil in Hne].
    unfold bind at 1. unfold send at 1, modify. cbv beta iota.
    lazymatch goal with
    | |- _ ∈ sent (snd (?k ?g)) =>
        assert (Hk : keeps cascades k);
        [ unfold status_append; repeat first [ apply cascades__uninstall | cascade_step ]
        | destruct (Hk g) as [_ [more Hmore]]; rewrite Hmore ]
    end.
    cbn [sent]. rewrite !elem_of_app. left. right. left.
  - intros HA b Hb Hstill.
    apply dependents_spec in Hb as [_ Hdecl].
    rewrite <- (declares_index A b (world f) (world (snd r)) Hidx) in Hdecl.
    rewrite (Hgone A Hin HA b Hstill) in Hdecl. discriminate.
  - intros x Hx Hxgone. apply dependents_nil. intros b Hb. by apply Hgone.
Qed.

End Cascade.

Lemma chain_a_installed : "a" ∈ Sim.installed_names Scenario.chain.
Proof. apply mem_spec. reflexivity. Defined.

Lemma chain_a_has_dependents : Sim.dependents "a" Scenario.chain ≠ [].
Proof. vm_compute. discriminate. Defined.

Lemma uninstall_cascade_safe_witness :
  let r := Core._uninstall Scenario.ctx 4 "a" (Sim.start Scenario.chain) in
  Sim.registry_uninstall "a" Scenario.chain = (Ret ["b"], Scenario.chain)
  ∧ WouldBeUninstalledToo "a" ["b"] ∈ sent (snd r)
  ∧ ("a" ∉ Sim.installed_names (world (snd r)) →
     ∀ b, b ∈ Sim.dependents "a" Scenario.chain →
          b ∉ Sim.installed_names (world (snd r))).
Proof.
  destruct (uninstall_cascade_safe Scenario.ctx 3 "a" (Sim.start Scenario.chain)
              chain_a_installed chain_a_has_dependents)
    as (Hreg & _ & Hmsg & Hafter & _).
  split; [exact Hreg|]. split; [exact Hmsg | exact Hafter].
Defined.

(** ** The update batch *)

(** C6: an update batch of two names, the first with an unmet package
    whose installation the user declines, the second updated at once.
    The declined item is appended under the key
    [failed_to_install_extensions], which no report reads: the batch
    report lists the second name as updated and does not mention the
    first. *)
Theorem update_declined_not_reported {W} `{Collaborators W} (ctx : Context)
    (depth : nat) (s x y : string) (u : unsatisfied) (f : frame W)
    (answer : pyvalue) (w1 w2 w3 : W) :
  split (lower s) = [x; y] →
  update_extension x (world f) = (Ret (Some u), w1) →
  nonempty (packages u) = true →
  wait_for_answer ctx None w1 = (answer, w2) →
  is_True answer = false →
  update_extension y w2 = (Ret None, w3) →
  let r := Core.update ctx (S depth) s f in
  fst r = Ret tt
  ∧ entry "failed_extensions" (status (snd r)) = []
  ∧ entry "failed_to_install_extensions" (status (snd r)) = [x]
  ∧ entry "updated_extensions" (status (snd r)) = [y]
  ∧ ∃ tail,
      sent (snd r)
      = sent f ++ [Updating x; FailedToUpdate x (packages u) (extensions u);
                   AskInstallNewRequirements x; WillNotInstallPackages x;
                   Updating y; UpdatedSuccessfully y;
                   UpdateCompleted [("Updated extensions:", [y])]] ++ tail.
Proof.
  intros Hsplit Hx Hpk Hans Hno Hy.
  cbv zeta. unfold Core.update. rewrite Hsplit.
  cbn [for_each Core._update].
  unfold bind, set_status, send, status_append, status_extend, modify, attempt,
    on_world_raising, on_world, get, ret.
  cbn [world cache command_prefix sent status fst snd].
  rewrite Hx. cbn [world cache command_prefix sent status fst snd]. rewrite Hpk.
  cbn [world cache command_prefix sent status fst snd].
  rewrite Hans. cbn [world cache command_prefix sent status fst snd]. rewrite Hno.
  cbn [world cache command_prefix sent status fst snd].
  rewrite Hy. cbn [world cache command_prefix sent status fst snd].
  autorewrite with status. unfold section. autorewrite with status.
  cbn [app nonempty world cache command_prefix sent status fst snd].
  destruct (wait_for_response ctx None w3) as [reply w4].
  destruct (is_True reply); cbn [world cache command_prefix sent status fst snd];
    autorewrite with status.
  - repeat split. exists [AskRestart; BeRightBack]. by rewrite <- !app_assoc.
  - repeat split. exists [AskRestart]. by rewrite <- !app_assoc.
Qed.

Lemma update_declined_not_reported_witness :
  let r := Core.update Scenario.ctx 1 "forge lamp" (Sim.start Scenario.update_world) in
  fst r = Ret tt
  ∧ entry "failed_extensions" (status (snd r)) = []
  ∧ entry "updated_extensions" (status (snd r)) = ["lamp"]
  ∧ Sim.installed_names (world (snd r)) = ["forge"; "lamp"].
Proof.
  destruct (update_declined_not_reported Scenario.ctx 0 "forge lamp" "forge" "lamp"
              (mkUnsatisfied ["anvil"] []) (Sim.start Scenario.update_world) PyFalse
              Scenario.update_world
              (snd (Sim.ask_yes_no Scenario.ctx None Scenario.update_world))
              (snd (Sim.ask_yes_no Scenario.ctx None Scenario.update_world)))
    as (Hret & Hfailed & _ & Hupdated & _); try (vm_compute; reflexivity).
  split; [exact Hret|]. split; [exact Hfailed|]. split; [exact Hupdated|].
  vm_compute. reflexivity.
Defined.

(** * Further properties of the code *)

(** ** The prefix list of [CoreController] *)

Lemma get_prefixes_set l c :
  CoreController.get_prefixes (snd (CoreController.set_prefixes l c))
  = (Ret l, snd (CoreController.set_prefixes l c)).
Proof.
  unfold CoreController.get_prefixes, CoreController.set_prefixes, cache_set,
    cache_get, modify. cbn [snd store]. by rewrite lookup_insert_eq.
Qed.

Lemma list_remove_elem x l : x ∈ l → ∃ l', list_remove x l = Some l'.
Proof.
  induction l as [|y l IH]; [by intros ?%elem_of_nil|].
  intros Hin. cbn [list_remove]. destruct (String.eqb x y) eqn:Heq; [eauto|].
  apply String.eqb_neq in Heq. apply elem_of_cons in Hin as [->|Hin]; [done|].
  destruct (IH Hin) as [l' ->]. eauto.
Qed.

Lemma list_remove_sub x l l' y : list_remove x l = Some l' → y ∈ l' → y ∈ l.
Proof.
  revert l'. induction l as [|z l IH]; intros l'; [discriminate|].
  cbn [list_remove]. destruct (String.eqb x z).
  - intros [= ->] Hy. by right.
  - destruct (list_remove x l) as [r|]; [|discriminate].
    intros [= <-] Hy. apply elem_of_cons in Hy as [->|Hy]; [left|right; eauto].
Qed.

Lemma list_remove_NoDup x l l' : list_remove x l = Some l' → NoDup l → NoDup l'.
Proof.
  revert l'. induction l as [|z l IH]; intros l'; [discriminate|].
  cbn [list_remove]. destruct (String.eqb x z).
  - intros [= ->] Hnd. by apply NoDup_cons_1_2 in Hnd.
  - destruct (list_remove x l) as [r|] eqn:Hr; [|discriminate].
    intros [= <-] Hnd. apply NoDup_cons in Hnd as [Hz Hnd].
    apply NoDup_cons. split; [|by apply IH].
    intros Hzr. apply Hz. by eapply list_remove_sub.
Qed.

Lemma list_remove_gone x l l' : list_remove x l = Some l' → NoDup l → x ∉ l'.
Proof.
  revert l'. induction l as [|z l IH]; intros l'; [discriminate|].
  cbn [list_remove]. destruct (String.eqb x z) eqn:Heq.
  - apply String.eqb_eq in Heq. subst z. intros [= ->] Hnd.
    by apply NoDup_cons in Hnd as [Hx _].
  - apply String.eqb_neq in Heq.
    destruct (list_remove x l) as [r|] eqn:Hr; [|discriminate].
    intros [= <-] Hnd. apply NoDup_cons in Hnd as [_ Hnd].
    intros Hin. apply elem_of_cons in Hin as [->|Hin]; [done|].
    by apply (IH r).
Qed.

Lemma list_remove_others x l l' y :
  list_remove x l = Some l' → y ≠ x → y ∈ l → y ∈ l'.
Proof.
  revert l'. induction l as [|z l IH]; intros l'; [discriminate|].
  cbn [list_remove]. destruct (String.eqb x z) eqn:Heq.
  - apply String.eqb_eq in Heq. subst z. intros [= ->] Hne Hin.
    apply elem_of_cons in Hin as [->|Hin]; done.
  - destruct (list_remove x l) as [r|] eqn:Hr; [|discriminate].
    intros [= <-] Hne Hin. apply elem_of_cons in Hin as [->|Hin]; [left|right; eauto].
Qed.

Lemma list_remove_sublist x l l' : list_remove x l = Some l' → l' `sublist_of` l.
Proof.
  revert l'. induction l as [|z l IH]; intros l'; [discriminate|].
  cbn [list_remove]. destruct (String.eqb x z).
  - intros [= ->]. by apply sublist_cons.
  - destruct (list_remove x l) as [r|] eqn:Hr; [|discriminate].
    intros [= <-]. apply sublist_skip. by apply IH.
Qed.

Lemma list_remove_last x l : x ∉ l → list_remove x (l ++ [x]) = Some l.
Proof.
  induction l as [|z l IH]; intros Hx.
  - cbn. by rewrite String.eqb_refl.
  - apply not_elem_of_cons in Hx as [Hne Hx]. cbn [app list_remove].
    apply String.eqb_neq in Hne. rewrite Hne. by rewrite IH.
Qed.

Lemma add_prefix_run c l p :
  CoreController.get_prefixes c = (Ret l, c) →
  CoreController.add_prefix p c
  = if mem p l then (Raise PrefixAlreadyExists, c)
    else CoreController.set_prefixes (l ++ [p]) c.
Proof.
  intros Hget. unfold CoreController.add_prefix, bind. rewrite Hget.
  by destruct (mem p l).
Qed.

Lemma remove_prefix_run c l p :
  CoreController.get_prefixes c = (Ret l, c) →
  CoreController.remove_prefix p c
  = if mem p l
    then match list_remove p l with
         | Some l' => CoreController.set_prefixes l' c
         | None => (Raise ValueError, c)
         end
    else (Raise PrefixNotFound, c).
Proof.
  intros Hget. unfold CoreController.remove_prefix, bind. rewrite Hget.
  destruct (mem p l); cbn [negb]; [|done]. by destruct (list_remove p l).
Qed.

(** X1: a prefix list without duplicates stays so under [add_prefix]
    and [remove_prefix], whether they return or raise: after adding [p]
    the list holds [p] and starts with the old list; after removing [p]
    it does not hold [p] and keeps every other prefix, in order. *)
Theorem prefixes_stay_unique (c : Cache) (l : list string) (p : string) :
  CoreController.get_prefixes c = (Ret l, c) →
  NoDup l →
  (∃ l', fst (CoreController.get_prefixes (snd (CoreController.add_prefix p c))) = Ret l'
         ∧ NoDup l' ∧ p ∈ l' ∧ l `prefix_of` l')
  ∧ (∃ l', fst (CoreController.get_prefixes (snd (CoreController.remove_prefix p c))) = Ret l'
           ∧ NoDup l' ∧ (p ∉ l') ∧ l' `sublist_of` l
           ∧ ∀ q, q ≠ p → q ∈ l → q ∈ l').
Proof.
  intros Hget Hnd. split.
  - rewrite (add_prefix_run c l p Hget). destruct (mem p l) eqn:Hm.
    + exists l. cbn [snd]. rewrite Hget. apply mem_spec in Hm. done.
    + exists (l ++ [p]). rewrite get_prefixes_set. cbn [fst].
      assert (p ∉ l) by (intros Hin%mem_spec; congruence).
      split; [done|]. split; [|split].
      * apply NoDup_app. split; [done|]. split; [|apply NoDup_singleton].
        intros x Hx Hxp%list_elem_of_singleton. by subst.
      * apply elem_of_app. right. left.
      * by apply prefix_app_r.
  - rewrite (remove_prefix_run c l p Hget). destruct (mem p l) eqn:Hm.
    + apply mem_spec in Hm. destruct (list_remove_elem p l Hm) as [l' Hl'].
      rewrite Hl'. exists l'. rewrite get_prefixes_set. cbn [fst].
      split; [done|]. split; [by eapply list_remove_NoDup|].
      split; [by eapply list_remove_gone|]. split; [by eapply list_remove_sublist|].
      intros q Hq Hin. by eapply list_remove_others.
    + exists l. cbn [snd]. rewrite Hget. cbn [fst].
      assert (p ∉ l) by (intros Hin%mem_spec; congruence).
      done.
Qed.

Lemma prefixes_stay_unique_witness :
  ∃ l', fst (CoreController.get_prefixes
               (snd (CoreController.add_prefix "$" Scenario.two_prefixes))) = Ret l'
        ∧ NoDup l' ∧ "$" ∈ l'.
Proof.
  destruct (prefixes_stay_unique Scenario.two_prefixes ["!"; "?"] "$")
    as [(l' & Hget & Hnd & Hin & _) _].
  - reflexivity.
  - apply NoDup_cons. split; [|apply NoDup_singleton].
    intros Hin. apply mem_spec in Hin. discriminate.
  - exists l'. split; [exact Hget|]. split; [exact Hnd | exact Hin].
Defined.

(** X2: adding a prefix that is not in the list and removing it again
    both return and give the list back as it was; nothing is published
    and no other key of the store changes. *)
Theorem add_then_remove_prefix (c : Cache) (l : list string) (p : string) :
  CoreController.get_prefixes c = (Ret l, c) →
  p ∉ l →
  let c1 := snd (CoreController.add_prefix p c) in
  let c2 := snd (CoreController.remove_prefix p c1) in
  fst (CoreController.add_prefix p c) = Ret tt
  ∧ fst (CoreController.remove_prefix p c1) = Ret tt
  ∧ fst (CoreController.get_prefixes c1) = Ret (l ++ [p])
  ∧ fst (CoreController.get_prefixes c2) = Ret l
  ∧ published c2 = published c
  ∧ ∀ key, key ≠ "prefixes" → cache_get key c2 = cache_get key c.
Proof.
  intros Hget Hp. cbv zeta.
  assert (Hm : mem p l = false).
  { destruct (mem p l) eqn:Hm; [|done]. by apply mem_spec in Hm. }
  rewrite (add_prefix_run c l p Hget), Hm.
  pose proof (get_prefixes_set (l ++ [p]) c) as Hget1.
  rewrite (remove_prefix_run _ (l ++ [p]) p Hget1).
  assert (Hm1 : mem p (l ++ [p]) = true).
  { apply mem_spec, elem_of_app. right. left. }
  rewrite Hm1, (list_remove_last p l Hp), Hget1, get_prefixes_set.
  repeat split.
  intros key Hkey. unfold cache_get, CoreController.set_prefixes, cache_set, modify.
  cbn [snd store]. by rewrite !lookup_insert_ne.
Qed.

Lemma add_then_remove_prefix_witness :
  let c1 := snd (CoreController.add_prefix "$" Scenario.two_prefixes) in
  let c2 := snd (CoreController.remove_prefix "$" c1) in
  fst (CoreController.get_prefixes c1) = Ret ["!"; "?"; "$"]
  ∧ fst (CoreController.get_prefixes c2) = Ret ["!"; "?"].
Proof.
  destruct (add_then_remove_prefix Scenario.two_prefixes ["!"; "?"] "$")
    as (_ & _ & Hadded & Hremoved & _).
  - reflexivity.
  - intros Hin. apply mem_spec in Hin. discriminate.
  - split; [exact Hadded | exact Hremoved].
Defined.

(** X3: each of [set_description], [set_repository],
    [set_official_invite] and [set_owner_id] is read back by its own
    getter and by no other, and leaves the prefixes and the published
    topics alone. *)
Theorem settings_are_independent (c : Cache) (text : string) (id : Z) :
  let untouched (c' : Cache) :=
    fst (CoreController.get_prefixes c') = fst (CoreController.get_prefixes c)
    ∧ published c' = published c in
  (let c' := snd (CoreController.set_description text c) in
   CoreController.get_description c' = Some (VStr text)
   ∧ CoreController.get_repository c' = CoreController.get_repository c
   ∧ CoreController.get_official_invite c' = CoreController.get_official_invite c
   ∧ CoreController.get_owner_id c' = CoreController.get_owner_id c
   ∧ untouched c')
  ∧ (let c' := snd (CoreController.set_repository text c) in
     CoreController.get_repository c' = Some (VStr text)
     ∧ CoreController.get_description c' = CoreController.get_description c
     ∧ CoreController.get_official_invite c' = CoreController.get_official_invite c
     ∧ CoreController.get_owner_id c' = CoreController.get_owner_id c
     ∧ untouched c')
  ∧ (let c' := snd (CoreController.set_official_invite text c) in
     CoreController.get_official_invite c' = Some (VStr text)
     ∧ CoreController.get_description c' = CoreController.get_description c
     ∧ CoreController.get_repository c' = CoreController.get_repository c
     ∧ CoreController.get_owner_id c' = CoreController.get_owner_id c
     ∧ untouched c')
  ∧ (let c' := snd (CoreController.set_owner_id id c) in
     CoreController.get_owner_id c' = Some (VId id)
     ∧ CoreController.get_description c' = CoreController.get_description c
     ∧ CoreController.get_repository c' = CoreController.get_repository c
     ∧ CoreController.get_official_invite c' = CoreController.get_official_invite c
     ∧ untouched c').
Proof.
  cbv zeta.
  unfold CoreController.set_description, CoreController.set_repository,
    CoreController.set_official_invite, CoreController.set_owner_id,
    CoreController.get_description, CoreController.get_repository,
    CoreController.get_official_invite, CoreController.get_owner_id,
    CoreController.get_prefixes, cache_set, cache_get, modify.
  cbn [fst snd store published].
  rewrite !lookup_insert_eq. rewrite !lookup_insert_ne by done.
  repeat split; by destruct (store c !! "prefixes") as [[]|].
Qed.

(** ** The prefix commands of the cog *)

Lemma cog_add_prefix_run {W} (f : frame W) (l : list string) (p : string) :
  CoreController.get_prefixes (cache f) = (Ret l, cache f) →
  Core.add_prefix p f
  = if mem (Core.unquote p) l
    then (Ret tt, mkFrame (world f) (cache f) (command_prefix f)
                    (sent f ++ [PrefixIsAlreadyPrefix (Core.unquote p)]) (status f))
    else (Ret tt, mkFrame (world f)
                    (snd (CoreController.set_prefixes (l ++ [Core.unquote p]) (cache f)))
                    (l ++ [Core.unquote p])
                    (sent f ++ [PrefixAdded (Core.unquote p)]) (status f)).
Proof.
  intros Hget. unfold Core.add_prefix, try_except. unfold bind at 1.
  unfold on_cache at 1. rewrite (add_prefix_run _ l _ Hget).
  destruct (mem (Core.unquote p) l).
  - cbn. by destruct (decide (PrefixAlreadyExists = PrefixAlreadyExists)).
  - unfold CoreController.set_prefixes, cache_set, modify. cbn [fst snd].
    unfold bind at 1. unfold on_cache at 1. cbn [cache].
    unfold CoreController.get_prefixes, cache_get. cbn [store].
    rewrite lookup_insert_eq. reflexivity.
Qed.

Lemma cog_remove_prefix_run {W} (f : frame W) (l : list string) (p : string) :
  CoreController.get_prefixes (cache f) = (Ret l, cache f) →
  Core.remove_prefix p f
  = match (if mem p l then list_remove p l else None) with
    | Some l' =>
        (Ret tt, mkFrame (world f) (snd (CoreController.set_prefixes l' (cache f))) l'
                   (sent f ++ [PrefixRemoved p]) (status f))
    | None =>
        (Ret tt, mkFrame (world f) (cache f) (command_prefix f)
                   (sent f ++ [NotAPrefix p]) (status f))
    end.
Proof.
  intros Hget. unfold Core.remove_prefix, try_except. unfold bind at 1.
  unfold on_cache at 1. rewrite (remove_prefix_run _ l _ Hget).
  destruct (mem p l) eqn:Hm.
  - apply mem_spec in Hm. destruct (list_remove_elem p l Hm) as [l' ->].
    unfold CoreController.set_prefixes, cache_set, modify. cbn [fst snd].
    unfold bind at 1. unfold on_cache at 1. cbn [cache].
    unfold CoreController.get_prefixes, cache_get. cbn [store].
    rewrite lookup_insert_eq. reflexivity.
  - cbn. by destruct (decide (PrefixNotFound = PrefixNotFound)).
Qed.

(** X4: when the bot's prefix attribute equals the stored list, the
    [add_prefix] and [remove_prefix] commands return, whatever the
    argument, with the attribute and the stored list still equal, and
    without touching the collaborators. *)
Theorem prefix_commands_keep_sync {W} (f : frame W) (l : list string) (p : string) :
  CoreController.get_prefixes (cache f) = (Ret l, cache f) →
  command_prefix f = l →
  (let f' := snd (Core.add_prefix p f) in
   fst (Core.add_prefix p f) = Ret tt
   ∧ fst (CoreController.get_prefixes (cache f')) = Ret (command_prefix f')
   ∧ world f' = world f)
  ∧ (let f' := snd (Core.remove_prefix p f) in
     fst (Core.remove_prefix p f) = Ret tt
     ∧ fst (CoreController.get_prefixes (cache f')) = Ret (command_prefix f')
     ∧ world f' = world f).
Proof.
  intros Hget Hsync. cbv zeta. split.
  - rewrite (cog_add_prefix_run f l p Hget). destruct (mem (Core.unquote p) l).
    + cbn [fst snd cache command_prefix world]. by rewrite Hget, Hsync.
    + cbn [fst snd cache command_prefix world]. by rewrite get_prefixes_set.
  - rewrite (cog_remove_prefix_run f l p Hget).
    destruct (if mem p l then list_remove p l else None) as [l'|].
    + cbn [fst snd cache command_prefix world]. by rewrite get_prefixes_set.
    + cbn [fst snd cache command_prefix world]. by rewrite Hget, Hsync.
Qed.

Lemma prefix_commands_keep_sync_witness :
  let f := mkFrame Scenario.quiet Scenario.two_prefixes ["!"; "?"] [] ∅ in
  let f' := snd (Core.add_prefix "$" f) in
  fst (CoreController.get_prefixes (cache f')) = Ret (command_prefix f').
Proof.
  destruct (prefix_commands_keep_sync
              (mkFrame Scenario.quiet Scenario.two_prefixes ["!"; "?"] [] ∅)
              ["!"; "?"] "$") as [(_ & Hsync & _) _].
  - reflexivity.
  - reflexivity.
  - exact Hsync.
Defined.

(** X5: [add_prefix] strips the quotes of a quoted argument and
    [remove_prefix] does not: after adding the quoted form of [s], the
    same quoted argument is refused by [remove_prefix] as not a prefix,
    and only the bare [s] removes it. *)
Theorem remove_prefix_keeps_quotes {W} (f : frame W) (l : list string) (s : string) :
  CoreController.get_prefixes (cache f) = (Ret l, cache f) →
  s ∉ l →
  (dq +:+ s +:+ dq) ∉ l →
  let quoted := dq +:+ s +:+ dq in
  let f1 := snd (Core.add_prefix quoted f) in
  let f2 := snd (Core.remove_prefix quoted f1) in
  let f3 := snd (Core.remove_prefix s f1) in
  fst (CoreController.get_prefixes (cache f1)) = Ret (l ++ [s])
  ∧ sent f2 = sent f ++ [PrefixAdded s; NotAPrefix quoted]
  ∧ fst (CoreController.get_prefixes (cache f2)) = Ret (l ++ [s])
  ∧ sent f3 = sent f ++ [PrefixAdded s; PrefixRemoved s]
  ∧ fst (CoreController.get_prefixes (cache f3)) = Ret l.
Proof.
  intros Hget Hs Hq. cbv zeta.
  assert (Hne : s ≠ dq +:+ s +:+ dq).
  { intros Heq. apply (f_equal String.length) in Heq.
    change (dq +:+ s +:+ dq) with (String dquote (s +:+ dq)) in Heq.
    cbn [String.length] in Heq. rewrite length_app_dq in Heq. lia. }
  assert (Hms : mem s l = false).
  { destruct (mem s l) eqn:Hm; [|done]. by apply mem_spec in Hm. }
  rewrite (cog_add_prefix_run f l _ Hget), unquote_quoted, Hms. cbn [snd].
  set (f1 := mkFrame _ _ _ _ _).
  assert (Hget1 : CoreController.get_prefixes (cache f1) = (Ret (l ++ [s]), cache f1)).
  { apply get_prefixes_set. }
  rewrite (cog_remove_prefix_run f1 _ (dq +:+ s +:+ dq) Hget1).
  rewrite (cog_remove_prefix_run f1 _ s Hget1).
  assert (Hmq : mem (dq +:+ s +:+ dq) (l ++ [s]) = false).
  { destruct (mem _ (l ++ [s])) eqn:Hm; [|done].
    apply mem_spec, elem_of_app in Hm as [Hm|Hm%list_elem_of_singleton]; [done|].
    by symmetry in Hm. }
  assert (Hm1 : mem s (l ++ [s]) = true).
  { apply mem_spec, elem_of_app. right. left. }
  rewrite Hmq, Hm1, (list_remove_last s l Hs).
  assert (Hsent1 : sent f1 = sent f ++ [PrefixAdded s]) by reflexivity.
  clearbody f1. cbn [snd cache sent]. rewrite Hget1, Hsent1. cbn [fst].
  split; [done|]. split; [by rewrite <- app_assoc|]. split; [done|].
  split; [by rewrite <- app_assoc|].
  by rewrite get_prefixes_set.
Qed.

Lemma remove_prefix_keeps_quotes_witness :
  let quoted := dq +:+ "! " +:+ dq in
  let f1 := snd (Core.add_prefix quoted (Sim.start Scenario.quiet)) in
  sent (snd (Core.remove_prefix quoted f1)) = [PrefixAdded "! "; NotAPrefix quoted]
  ∧ sent (snd (Core.remove_prefix "! " f1)) = [PrefixAdded "! "; PrefixRemoved "! "].
Proof.
  destruct (remove_prefix_keeps_quotes (Sim.start Scenario.quiet) [] "! ")
    as (_ & Hquoted & _ & Hbare & _).
  - reflexivity.
  - apply not_elem_of_nil.
  - apply not_elem_of_nil.
  - split; [exact Hquoted | exact Hbare].
Defined.

Section PrefixesCommand.
Context {W : Type} `{Collaborators W}.
Variable ctx : Context.

Lemma prefixes_run (f : frame (desk W)) (l : list string) :
  CoreController.get_prefixes (cache f) = (Ret l, cache f) →
  Core.prefixes ctx f
  = match l with
    | [] => (inl (Exn IndexError), f)
    | [p] => Core.say ctx (MyPrefixIs p) f
    | _ => Core.say ctx (MyPrefixesAre l) f
    end.
Proof.
  intros Hget. unfold Core.prefixes, bindx, lift, on_cache. rewrite Hget.
  destruct f as [d c cp s st]. cbn [world cache command_prefix sent status].
  destruct l as [|p [|q l]]; reflexivity.
Qed.

(** X6: the [remove_prefix] command accepts the removal of the only
    prefix; the bot is left with no prefix at all, and the [prefixes]
    command then raises [IndexError] without sending anything. *)
Theorem prefixes_after_last_removed (f : frame (desk W)) (p : string) :
  CoreController.get_prefixes (cache f) = (Ret [p], cache f) →
  let '(r, f1) := Core.remove_prefix p f in
  r = Ret tt
  ∧ sent f1 = sent f ++ [PrefixRemoved p]
  ∧ command_prefix f1 = []
  ∧ CoreController.get_prefixes (cache f1) = (Ret [], cache f1)
  ∧ Core.prefixes ctx f1 = (inl (Exn IndexError), f1).
Proof.
  intros Hget. rewrite (cog_remove_prefix_run f [p] p Hget).
  cbn [mem existsb list_remove]. rewrite String.eqb_refl. cbn [orb].
  cbn [sent command_prefix cache snd].
  assert (Hempty : ∀ c, CoreController.get_prefixes
            (snd (CoreController.set_prefixes [] c))
          = (Ret [], snd (CoreController.set_prefixes [] c))).
  { intros c. unfold CoreController.get_prefixes, CoreController.set_prefixes,
      cache_set, modify, cache_get. cbn [snd store]. by rewrite lookup_insert_eq. }
  repeat split; [apply Hempty|].
  by rewrite (prefixes_run _ []) by apply Hempty.
Qed.

End PrefixesCommand.

Lemma prefixes_after_last_removed_witness :
  let f1 := snd (Core.remove_prefix "!" (Scenario.at_desk Scenario.one_prefix)) in
  command_prefix f1 = []
  ∧ Core.prefixes Scenario.ctx f1 = (inl (Exn IndexError), f1).
Proof.
  pose proof (prefixes_after_last_removed Scenario.ctx
                (Scenario.at_desk Scenario.one_prefix) "!" eq_refl) as Hlast.
  destruct (Core.remove_prefix "!" (Scenario.at_desk Scenario.one_prefix)) as [r f1].
  destruct Hlast as (_ & _ & Hnone & _ & Hraise).
  split; [exact Hnone | exact Hraise].
Defined.

(** ** The package loop of [_install] *)

Lemma list_remove_middle x pre rest :
  x ∉ pre → list_remove x (pre ++ x :: rest) = Some (pre ++ rest).
Proof.
  induction pre as [|z pre IH]; intros Hx.
  - cbn. by rewrite String.eqb_refl.
  - apply not_elem_of_cons in Hx as [Hne Hx]. cbn [app list_remove].
    apply String.eqb_neq in Hne. rewrite Hne. by rewrite IH.
Qed.

Section PackageLoop.
Context {W : Type} `{Collaborators W}.
Variable ctx : Context.

Lemma installed_between_nil (f : frame W) : installed_between [] f f.
Proof. unfold installed_between. rewrite !app_nil_r. done. Qed.

Lemma installed_between_trans a b (f g h : frame W) :
  installed_between a f g → installed_between b g h →
  installed_between (a ++ b) f h.
Proof.
  intros (Hs1 & He1 & Ho1 & Hc1 & Hp1) (Hs2 & He2 & Ho2 & Hc2 & Hp2).
  unfold installed_between. rewrite Hs2, He2, Hc2, Hp2, Hs1, He1, Hc1, Hp1, map_app.
  rewrite <- !app_assoc. repeat split; try done.
  intros key Hkey. by rewrite Ho2, Ho1.
Qed.

Lemma install_packages_loop pkgs :
  Core.install_packages pkgs = for_in (length pkgs) 0 package_step pkgs.
Proof. reflexivity. Qed.

Lemma package_loop n pre rest (f : frame W) :
  all_install (alternate true rest) (world f) →
  NoDup (pre ++ rest) →
  (length rest ≤ n)%nat →
  fst (for_in n (length pre) package_step (pre ++ rest) f)
  = Ret (pre ++ alternate false rest)
  ∧ installed_between (alternate true rest) f
      (snd (for_in n (length pre) package_step (pre ++ rest) f)).
Proof.
  revert pre rest f.
  induction n as [|n IH]; intros pre rest f Hall Hnd Hlen.
  - destruct rest; [|cbn in Hlen; lia]. cbn. split; [done|apply installed_between_nil].
  - destruct rest as [|x rest].
    { cbn [for_in]. rewrite lookup_ge_None_2 by (rewrite length_app; cbn; lia).
      cbn. split; [done|apply installed_between_nil]. }
    cbn [for_in].
    rewrite (list_lookup_middle pre rest x (length pre) eq_refl).
    assert (Hx : x ∉ pre).
    { apply NoDup_app in Hnd as (_ & Hdis & _). intros Hin.
      apply (Hdis x Hin). left. }
    assert (Hnd' : NoDup (pre ++ rest)).
    { apply NoDup_app in Hnd as (Hp & Hdis & Hr). apply NoDup_cons in Hr as [_ Hr].
      apply NoDup_app. split; [done|]. split; [|done].
      intros y Hy Hyr. apply (Hdis y Hy). by right. }
    cbn [alternate all_install] in Hall. destruct Hall as [Hrc Hall].
    assert (Hrun : ∃ f1, package_step x (pre ++ x :: rest) f = (Ret (pre ++ rest), f1)
                         ∧ installed_between [x] f f1
                         ∧ world f1 = snd (install_package x (world f))).
    { unfold package_step. unfold bind at 1. unfold on_world at 1.
      destruct (install_package x (world f)) as [rc w']. cbn [fst snd] in Hrc |- *.
      subst rc.
      cbn [Z.eqb]. rewrite (list_remove_middle x pre rest Hx).
      unfold bind, send, status_append, status_extend, modify, ret. cbv beta iota.
      cbn [world cache command_prefix sent status].
      eexists. split; [reflexivity|]. split; [|reflexivity].
      unfold installed_between. cbn [sent status cache command_prefix map].
      split; [done|]. split; [by rewrite entry_insert_eq|]. split; [|done].
      intros key Hkey. by rewrite entry_insert_ne. }
    destruct Hrun as (f1 & Hrun & Hstep & Hworld). unfold bind. rewrite Hrun.
    destruct rest as [|y rest].
    + assert (Hend : for_in n (S (length pre)) package_step (pre ++ []) f1 = (Ret (pre ++ []), f1)).
      { destruct n; [reflexivity|]. cbn [for_in].
        rewrite lookup_ge_None_2 by (rewrite length_app; cbn; lia). reflexivity. }
      rewrite Hend. cbn [fst snd alternate]. split; [done|exact Hstep].
    + replace (pre ++ y :: rest) with ((pre ++ [y]) ++ rest) by (by rewrite <- app_assoc).
      replace (S (length pre)) with (length (pre ++ [y])) by (rewrite length_app; cbn; lia).
      destruct (IH (pre ++ [y]) rest f1) as [Hret Hbetween].
      { rewrite Hworld. exact Hall. }
      { by rewrite <- app_assoc. }
      { cbn in Hlen. lia. }
      rewrite Hret. cbn [alternate]. split; [by rewrite <- app_assoc|].
      by apply (installed_between_trans [x] _ f f1).
Qed.

Lemma install_packages_alternate (pkgs : list string) (f : frame W) :
  all_install (alternate true pkgs) (world f) →
  NoDup pkgs →
  fst (Core.install_packages pkgs f) = Ret (alternate false pkgs)
  ∧ installed_between (alternate true pkgs) f (snd (Core.install_packages pkgs f)).
Proof.
  intros Hall Hnd. rewrite install_packages_loop.
  apply (package_loop (length pkgs) [] pkgs f); done.
Qed.

(** X7: an extension with two or more distinct unmet packages is not
    installed by the attempt that installs its packages.  The loop
    removes each installed package from the list it runs over, so it
    hands every second package to the package manager and never the
    ones in between; when all it tried return 0, the others are
    reported as failed, [_install] returns [False], and the extension
    is listed neither as installed nor as failed. *)
Theorem install_skips_every_other_package (depth : nat) (x : string)
    (u : unsatisfied) (w1 w2 : W) (f : frame W) :
  startswith "https://" x = false →
  install_extension x None (world f) = (Ret (Some u), w1) →
  wait_for_answer ctx None w1 = (PyTrue, w2) →
  NoDup (packages u) →
  (2 ≤ length (packages u))%nat →
  all_install (alternate true (packages u)) w2 →
  let tried := alternate true (packages u) in
  let skipped := alternate false (packages u) in
  let '(r, f') := Core._install ctx (S depth) x f in
  r = Ret PyFalse
  ∧ skipped ≠ []
  ∧ sent f'
    = sent f ++ [Installing x; FailedToInstall x (packages u) (extensions u);
                 AskInstallPackages]
      ++ map InstalledPackage tried ++ [FailedPackages skipped]
  ∧ entry "installed_packages" (status f')
    = entry "installed_packages" (status f) ++ tried
  ∧ entry "failed_packages" (status f')
    = entry "failed_packages" (status f) ++ skipped
  ∧ entry "installed_extensions" (status f')
    = entry "installed_extensions" (status f)
  ∧ entry "failed_extensions" (status f')
    = entry "failed_extensions" (status f).
Proof.
  intros Hx Hreg Hyes Hnd Hlen Hall tried skipped.
  assert (Hskipped : nonempty skipped = true).
  { subst skipped. destruct (packages u) as [|a [|b l]]; cbn in Hlen; try lia. done. }
  assert (Hpk : nonempty (packages u) = true).
  { destruct (packages u); cbn in Hlen; [lia|done]. }
  cbn [Core._install]. rewrite Hx.
  unfold bind at 1. unfold send at 1, modify at 1. cbv beta iota.
  unfold bind at 1. unfold attempt at 1, on_world_raising at 1.
  cbn [world cache command_prefix sent status]. rewrite Hreg. cbv beta iota.
  unfold bind at 1. unfold send at 1, modify at 1. cbv beta iota.
  cbn [world cache command_prefix sent status].
  unfold bind at 1. rewrite Hpk.
  unfold bind at 1. unfold send at 1, modify at 1. cbv beta iota.
  cbn [world cache command_prefix sent status].
  unfold bind at 1. unfold on_world at 1.
  cbn [world cache command_prefix sent status]. rewrite Hyes. cbv beta iota.
  cbn [is_True].
  unfold bind at 1.
  match goal with |- context [Core.install_packages (packages u) ?g] => set (f2 := g) end.
  destruct (install_packages_alternate (packages u) f2 Hall Hnd) as [Hret Hbetween].
  destruct (Core.install_packages (packages u) f2) as [left f3].
  cbn [fst snd] in Hret, Hbetween. subst left. fold skipped. rewrite Hskipped.
  destruct Hbetween as (Hs & He & Ho & Hc & Hp).
  unfold bind, send, status_extend, modify, ret. cbv beta iota.
  cbn [world cache command_prefix sent status].
  split; [done|]. split; [by destruct skipped|].
  rewrite Hs. subst f2. cbn [sent status] in *. fold tried.
  split; [by rewrite <- !app_assoc|].
  rewrite entry_insert_eq, !entry_insert_ne by done.
  rewrite He, !Ho by done. done.
Qed.

End PackageLoop.

Lemma install_skips_every_other_package_witness :
  let r := Core._install Scenario.ctx 1 "atlas" (Sim.start Scenario.atlas_world) in
  fst r = Ret PyFalse
  ∧ entry "installed_packages" (status (snd r)) = ["maps"; "fonts"]
  ∧ entry "failed_packages" (status (snd r)) = ["tiles"].
Proof.
  pose proof (install_skips_every_other_package Scenario.ctx 0 "atlas"
                (mkUnsatisfied ["maps"; "tiles"; "fonts"] [])
                Scenario.atlas_world
                (snd (Sim.ask_yes_no Scenario.ctx None Scenario.atlas_world))
                (Sim.start Scenario.atlas_world)) as Hskip.
  cbv zeta in Hskip.
  destruct (Core._install Scenario.ctx 1 "atlas" (Sim.start Scenario.atlas_world))
    as [r f'].
  destruct Hskip as (Hret & _ & _ & Hinstalled & Hfailed & _).
  - reflexivity.
  - vm_compute. reflexivity.
  - vm_compute. reflexivity.
  - apply NoDup_cons. split.
    { intros Hin. apply mem_spec in Hin. discriminate. }
    apply NoDup_cons. split; [|apply NoDup_singleton].
    intros Hin. apply mem_spec in Hin. discriminate.
  - cbn. lia.
  - cbn. split; [reflexivity|]. split; [reflexivity|exact I].
  - split; [exact Hret|]. split; [exact Hinstalled | exact Hfailed].
Defined.

(** ** Items given as a repository URL *)

Section UrlItems.
Context {W : Type} `{Collaborators W}.
Variable ctx : Context.

(** X8: for an item that starts with [https://] the name is asked for
    and awaited.  The name that is replied, not the URL, is what the
    registry is asked for, with the URL as repository, and what is
    announced and listed as installed.  When the wait raises, as it
    does on a timeout, [_install] raises the same after the request
    for a name, and nothing is listed. *)
Theorem install_from_url (depth : nat) (url : string) (reply : result Message)
    (w1 : W) (f : frame W) :
  startswith "https://" url = true →
  wait_for (Core.extension_check ctx) 60 (world f) = (reply, w1) →
  match reply with
  | Raise e =>
      Core._install ctx (S depth) url f
      = (Raise e,
         mkFrame w1 (cache f) (command_prefix f)
                 (sent f ++ [SpecifyExtensionName]) (status f))
  | Ret m =>
      ∀ w2, install_extension (content m) (Some url) w1 = (Ret None, w2) →
      Core._install ctx (S depth) url f
      = (Ret PyTrue,
         mkFrame w2 (cache f) (command_prefix f)
                 (sent f ++ [SpecifyExtensionName; Installing (content m);
                             InstalledSuccessfully (content m)])
                 (<["installed_extensions" :=
                      entry "installed_extensions" (status f) ++ [content m]]>
                    (status f)))
  end.
Proof.
  intros Hurl Hwait.
  assert (Hask : ∀ k : Message → M (frame W) pyvalue,
    (let* _ := send SpecifyExtensionName in
     let* reply := on_world_raising (wait_for (Core.extension_check ctx) 60) in
     k reply) f
    = match reply with
      | Ret m => k m (mkFrame w1 (cache f) (command_prefix f)
                        (sent f ++ [SpecifyExtensionName]) (status f))
      | Raise e => (Raise e, mkFrame w1 (cache f) (command_prefix f)
                               (sent f ++ [SpecifyExtensionName]) (status f))
      end).
  { intros k. unfold bind, send, modify, on_world_raising. cbv beta iota.
    cbn [world cache command_prefix sent status]. rewrite Hwait.
    by destruct reply. }
  destruct reply as [m|e].
  - intros w2 Hreg. cbn [Core._install]. rewrite Hurl, Hask.
    unfold bind at 1. unfold send at 1, modify at 1. cbv beta iota.
    unfold bind at 1. unfold attempt at 1, on_world_raising at 1.
    cbn [world cache command_prefix sent status]. rewrite Hreg. cbv beta iota.
    unfold bind, send, status_append, status_extend, modify, ret. cbv beta iota.
    cbn [world cache command_prefix sent status].
    by rewrite <- !app_assoc.
  - cbn [Core._install]. by rewrite Hurl, Hask.
Qed.
End UrlItems.

Lemma install_from_url_witness :
  let r := Core._install Scenario.ctx 1 "https://example.org/globe"
             (Sim.start Scenario.globe_world) in
  fst r = Ret PyTrue
  ∧ sent (snd r)
    = [SpecifyExtensionName; Installing "globe"; InstalledSuccessfully "globe"]
  ∧ entry "installed_extensions" (status (snd r)) = ["globe"]
  ∧ Sim.installed_names (world (snd r)) = ["globe"].
Proof.
  cbv zeta.
  pose proof (install_from_url Scenario.ctx 0 "https://example.org/globe"
                (Ret (Scenario.said Scenario.owner "globe"))
                (snd (Sim.wait_for_message_event (Core.extension_check Scenario.ctx) 60
                        Scenario.globe_world))
                (Sim.start Scenario.globe_world)) as Hurl.
  cbv beta iota in Hurl.
  rewrite (Hurl ltac:(reflexivity) ltac:(vm_compute; reflexivity)
             (snd (Sim.registry_install "globe" (Some "https://example.org/globe")
                     (snd (Sim.wait_for_message_event
                             (Core.extension_check Scenario.ctx) 60
                             Scenario.globe_world))))
             ltac:(vm_compute; reflexivity)).
  vm_compute. repeat split.
Defined.

(** ** The uninstall batch *)

Section UninstallLog.
Context {W : Type} `{Collaborators W}.
Variable ctx : Context.

Lemma shrinks_same (f f' : frame W) :
  sent f' = sent f → status f' = status f → shrinks f f'.
Proof. intros Hs Hd. exists []. by rewrite Hs, Hd, !app_nil_r. Qed.

Lemma shrinks_refl (f : frame W) : shrinks f f.
Proof. by apply shrinks_same. Qed.

Lemma shrinks_trans (f g h : frame W) : shrinks f g → shrinks g h → shrinks f h.
Proof.
  intros (n1 & Hs1 & Hi1 & He1) (n2 & Hs2 & Hi2 & He2). exists (n1 ++ n2).
  rewrite Hs2, Hs1, He2, He1, forallb_app, Hi1, Hi2, omap_app, !app_assoc. done.
Qed.

Lemma shrinks_send m :
  item_message m = true → removal_of m = None → keeps (@shrinks W) (send m).
Proof. intros Hi Hs f. exists [m]. cbn. by rewrite Hi, Hs, app_nil_r. Qed.

Lemma shrinks_on_world {A} (m : W → A * W) : keeps (@shrinks W) (on_world m).
Proof. intros f. unfold on_world. destruct (m (world f)). by apply shrinks_same. Qed.

Lemma shrinks_on_world_raising {A} (m : W → result A * W) :
  keeps (@shrinks W) (on_world_raising m).
Proof.
  intros f. unfold on_world_raising. destruct (m (world f)). by apply shrinks_same.
Qed.

Lemma shrinks_status_extend key l :
  key ≠ "uninstalled_extensions" → keeps (@shrinks W) (status_extend key l).
Proof.
  intros Hk f. exists []. cbn. rewrite !app_nil_r. split; [done|]. split; [done|].
  by rewrite entry_insert_ne.
Qed.

Lemma shrinks_success e {A} (k : M (frame W) A) :
  keeps (@shrinks W) k →
  keeps (@shrinks W) (let* _ := send (UninstalledSuccessfully e) in
                      let* _ := status_append "uninstalled_extensions" e in k).
Proof.
  intros Hk f. unfold bind, send, status_append, status_extend, modify. cbn.
  eapply shrinks_trans; [|apply Hk].
  exists [UninstalledSuccessfully e]. cbn. split; [done|]. split; [done|].
  by rewrite entry_insert_eq.
Qed.

Ltac shrinks_step :=
  first
    [ apply keeps_ret; [apply shrinks_refl]
    | apply keeps_raise; [apply shrinks_refl]
    | apply shrinks_success
    | apply shrinks_send; reflexivity
    | apply shrinks_on_world
    | apply shrinks_on_world_raising
    | apply shrinks_status_extend; discriminate
    | apply keeps_attempt
    | apply keeps_for_in; [apply shrinks_refl | apply shrinks_trans | intros ? ?]
    | apply keeps_bind; [apply shrinks_trans | | intros ?]
    | match goal with
      | |- keeps _ (match ?x with _ => _ end) => destruct x
      end ].

Lemma shrinks__uninstall depth e : keeps (@shrinks W) (Core._uninstall ctx depth e).
Proof.
  revert e. induction depth as [|depth IH]; intros e.
  - apply keeps_raise, shrinks_refl.
  - cbn [Core._uninstall]. unfold status_append.
    repeat first [ apply IH | shrinks_step ].
Qed.

(** X9: a run of [uninstall] that returns sent exactly one batch
    report, after all the item messages; the restart question follows
    it if and only if some extension was announced as uninstalled.  A
    run that an exception ends sent item messages only. *)
Theorem uninstall_single_report depth exts (f : frame W) :
  let r := Core.uninstall ctx depth exts f in
  ∃ items, forallb item_message items = true ∧
    match fst r with
    | Raise _ => sent (snd r) = sent f ++ items
    | Ret _ =>
        ∃ sections tail,
          sent (snd r) = sent f ++ items ++ [UninstallationCompleted sections] ++ tail
          ∧ ((omap removal_of items ≠ []
              ∧ (tail = [AskRestart] ∨ tail = [AskRestart; BeRightBack]))
             ∨ (omap removal_of items = [] ∧ tail = []))
    end.
Proof.
  cbv zeta. unfold Core.uninstall.
  set (body := λ extension : string,
         let* _ := Core._uninstall ctx depth extension in ret tt).
  assert (Hbody : ∀ x, keeps (@shrinks W) (body x)).
  { intros x. apply keeps_bind; [apply shrinks_trans | apply shrinks__uninstall |].
    intros _. apply keeps_ret, shrinks_refl. }
  pose proof (keeps_for_each shrinks shrinks_refl shrinks_trans
                (split (lower exts)) body Hbody) as Hloop.
  set (f0 := mkFrame (world f) (cache f) (command_prefix f) (sent f) ∅).
  specialize (Hloop f0). destruct Hloop as (items & Hsent & Hitems & Hentry).
  exists items. split; [exact Hitems|].
  unfold bind, set_status, modify, get. cbv beta iota. fold f0.
  destruct (for_each (split (lower exts)) body f0) as [[[]|e] f1]; cbn [fst snd] in *;
    [|exact Hsent].
  cbn [status f0] in Hentry. rewrite entry_empty in Hentry. cbn [app] in Hentry.
  unfold send, modify. cbv beta iota. cbn [status sent].
  rewrite Hentry.
  destruct (omap removal_of items) as [|s0 rest] eqn:Hsucc; cbn [nonempty].
  - eexists _, []. cbn [ret fst snd sent]. rewrite Hsent. split; [|right; done].
    cbn [sent f0]. by rewrite <- !app_assoc.
  - unfold Core.ask_restart, bind, send, modify, on_world.
    cbn [world cache command_prefix sent status fst snd].
    destruct (wait_for_answer ctx None (world f1)) as [answer w'].
    destruct (is_True answer).
    + eexists _, [AskRestart; BeRightBack]. cbn. rewrite Hsent.
      split; [|left; split; [done|by right]].
      rewrite <- !app_assoc. reflexivity.
    + eexists _, [AskRestart]. cbn. rewrite Hsent.
      split; [|left; split; [done|by left]].
      rewrite <- !app_assoc. reflexivity.
Qed.

(** X10: an item that is not installed, or whose dependents are
    reported and not confirmed, makes [_uninstall] return [False] and
    is appended to the failed list and not to the uninstalled one. *)
Theorem uninstall_expected_failure depth x (f : frame W) :
  uninstall_fails_as_expected ctx x (world f) →
  let r := Core._uninstall ctx (S depth) x f in
  fst r = Ret PyFalse
  ∧ entry "failed_extensions" (status (snd r))
    = entry "failed_extensions" (status f) ++ [x]
  ∧ entry "uninstalled_extensions" (status (snd r))
    = entry "uninstalled_extensions" (status f).
Proof.
  intros Hfail. cbv zeta. cbn [Core._uninstall].
  unfold bind, send, status_append, status_extend, modify, attempt,
    on_world_raising, on_world, ret.
  cbn [world cache command_prefix sent status fst snd].
  destruct Hfail as [[w1 Hreg]|(tc & w1 & answer & w2 & Hreg & Hne & Hans & Hno)];
    rewrite Hreg; cbn [world cache command_prefix sent status fst snd].
  - split; [done|]. by rewrite entry_insert_eq, entry_insert_ne.
  - rewrite Hne. cbn [world cache command_prefix sent status fst snd].
    rewrite Hans. cbn [world cache command_prefix sent status fst snd]. rewrite Hno.
    cbn [world cache command_prefix sent status fst snd].
    split; [done|]. by rewrite entry_insert_eq, entry_insert_ne.
Qed.

Lemma _uninstall_leaf (depth : nat) (b : string) (w' : W) (g : frame W) :
  uninstall_extension b (world g) = (Ret [], w') →
  Core._uninstall ctx (S depth) b g
  = (Ret PyTrue,
     mkFrame w' (cache g) (command_prefix g)
       (sent g ++ [Uninstalling b; UninstalledSuccessfully b])
       (<["uninstalled_extensions" :=
            entry "uninstalled_extensions" (status g) ++ [b]]> (status g))).
Proof.
  intros Hb. cbn [Core._uninstall].
  unfold bind at 1. unfold send at 1, modify at 1. cbv beta iota.
  unfold bind at 1. unfold attempt at 1, on_world_raising at 1.
  cbn [world cache command_prefix sent status]. rewrite Hb. cbv beta iota.
  cbn [nonempty].
  unfold bind, send, status_append, status_extend, modify, ret. cbv beta iota.
  cbn [world cache command_prefix sent status].
  by rewrite <- !app_assoc.
Qed.

(** X11: the cascade loop removes each uninstalled dependent from the
    list it runs over.  With two dependents [b] and [c], where [b] has
    none of its own, [b] is uninstalled, [c] is never handed to the
    registry, the item is reported as failed with [c] left over, and
    the registry is not asked again about the item itself. *)
Theorem uninstall_skips_second_dependent (depth : nat) (x b c : string)
    (w1 w2 w3 : W) (f : frame W) :
  uninstall_extension x (world f) = (Ret [b; c], w1) →
  wait_for_answer ctx None w1 = (PyTrue, w2) →
  uninstall_extension b w2 = (Ret [], w3) →
  Core._uninstall ctx (S (S depth)) x f
  = (Ret PyFalse,
     mkFrame w3 (cache f) (command_prefix f)
       (sent f ++ [Uninstalling x; WouldBeUninstalledToo x [b; c];
                   ProceedWithUninstallation; Uninstalling b;
                   UninstalledSuccessfully b; FailedToUninstall [c]])
       (<["failed_extensions" := entry "failed_extensions" (status f) ++ [x]]>
          (<["uninstalled_extensions" :=
               entry "uninstalled_extensions" (status f) ++ [b]]> (status f)))).
Proof.
  intros Hreg Hyes Hb.
  remember (S depth) as inner_depth eqn:Hdepth. cbn [Core._uninstall]. subst inner_depth.
  unfold bind at 1. unfold send at 1, modify at 1. cbv beta iota.
  unfold bind at 1. unfold attempt at 1, on_world_raising at 1.
  cbn [world cache command_prefix sent status]. rewrite Hreg. cbv beta iota.
  cbn [nonempty].
  unfold bind at 1. unfold send at 1, modify at 1. cbv beta iota.
  unfold bind at 1. unfold send at 1, modify at 1. cbv beta iota.
  cbn [world cache command_prefix sent status].
  unfold bind at 1. unfold on_world at 1.
  cbn [world cache command_prefix sent status]. rewrite Hyes. cbv beta iota.
  cbn [is_True length for_in lookup list_lookup].
  unfold bind at 1. unfold bind at 1. unfold bind at 1.
  rewrite (_uninstall_leaf depth b w3) by exact Hb.
  cbn [is_True list_remove]. rewrite String.eqb_refl.
  unfold bind, send, status_append, status_extend, modify, ret. cbv beta iota.
  cbn [world cache command_prefix sent status lookup list_lookup nonempty].
  rewrite entry_insert_ne by done.
  by rewrite <- !app_assoc.
Qed.

End UninstallLog.

Lemma uninstall_expected_failure_witness :
  let r := Core._uninstall Scenario.ctx 1 "ghost" (Sim.start Scenario.quiet) in
  fst r = Ret PyFalse
  ∧ entry "failed_extensions" (status (snd r)) = ["ghost"].
Proof.
  destruct (uninstall_expected_failure Scenario.ctx 0 "ghost" (Sim.start Scenario.quiet))
    as (Hret & Hfailed & _).
  - left. exists Scenario.quiet. reflexivity.
  - split; [exact Hret | exact Hfailed].
Defined.

Lemma uninstall_skips_second_dependent_witness :
  let r := Core._uninstall Scenario.ctx 2 "a" (Sim.start Scenario.fork) in
  fst r = Ret PyFalse
  ∧ Sim.installed_names (world (snd r)) = ["a"; "c"]
  ∧ entry "uninstalled_extensions" (status (snd r)) = ["b"]
  ∧ entry "failed_extensions" (status (snd r)) = ["a"].
Proof.
  rewrite (uninstall_skips_second_dependent Scenario.ctx 0 "a" "b" "c"
             Scenario.fork
             (snd (Sim.ask_yes_no Scenario.ctx None Scenario.fork))
             (snd (Sim.registry_uninstall "b"
                     (snd (Sim.ask_yes_no Scenario.ctx None Scenario.fork))))
             (Sim.start Scenario.fork)).
  - vm_compute. repeat split.
  - vm_compute. reflexivity.
  - vm_compute. reflexivity.
  - vm_compute. reflexivity.
Defined.

(** ** The update batch and its restart question *)

Section UpdateLog.
Context {W : Type} `{Collaborators W}.
Variable ctx : Context.

(** [wait_for_response] hands back the reply or [None], as [servers]
    uses it. *)
Hypothesis reply_or_none :
  ∀ c t (w : W), is_True (fst (wait_for_response c t w)) = false.

Lemma items_only_same (f f' : frame W) :
  cache f' = cache f → sent f' = sent f → items_only f f'.
Proof. intros Hc Hs. split; [done|]. exists []. by rewrite Hs, app_nil_r. Qed.

Lemma items_only_refl (f : frame W) : items_only f f.
Proof. by apply items_only_same. Qed.

Lemma items_only_trans (f g h : frame W) :
  items_only f g → items_only g h → items_only f h.
Proof.
  intros (Hc1 & n1 & Hs1 & Hi1) (Hc2 & n2 & Hs2 & Hi2). split; [congruence|].
  exists (n1 ++ n2). by rewrite Hs2, Hs1, forallb_app, Hi1, Hi2, app_assoc.
Qed.

Lemma items_only_send m :
  item_message m = true → keeps (@items_only W) (send m).
Proof. intros Hi f. split; [done|]. exists [m]. cbn. by rewrite Hi. Qed.

Lemma items_only_on_world {A} (m : W → A * W) : keeps (@items_only W) (on_world m).
Proof. intros f. unfold on_world. destruct (m (world f)). by apply items_only_same. Qed.

Lemma items_only_on_world_raising {A} (m : W → result A * W) :
  keeps (@items_only W) (on_world_raising m).
Proof.
  intros f. unfold on_world_raising. destruct (m (world f)). by apply items_only_same.
Qed.

Lemma items_only_status_extend key l : keeps (@items_only W) (status_extend key l).
Proof. intros f. by apply items_only_same. Qed.

(** A reply that is not [True] decides the branch taken on it. *)
Lemma items_only_on_reply {A} (k : pyvalue → M (frame W) A) t :
  (∀ a, is_True a = false → keeps (@items_only W) (k a)) →
  keeps (@items_only W) (let* a := on_world (wait_for_response ctx t) in k a).
Proof.
  intros Hk f. unfold bind, on_world.
  pose proof (reply_or_none ctx t (world f)) as Hreply.
  destruct (wait_for_response ctx t (world f)) as [a w']. cbn [fst] in Hreply.
  eapply items_only_trans; [|apply (Hk a Hreply)].
  by apply items_only_same.
Qed.

Ltac items_only_step :=
  first
    [ apply keeps_ret; [apply items_only_refl]
    | apply keeps_raise; [apply items_only_refl]
    | apply keeps_get; [apply items_only_refl]
    | apply items_only_send; reflexivity
    | apply items_only_on_reply; intros ? ->
    | apply items_only_on_world
    | apply items_only_on_world_raising
    | apply items_only_status_extend
    | apply keeps_attempt
    | apply keeps_for_in; [apply items_only_refl | apply items_only_trans | intros ? ?]
    | apply keeps_bind; [apply items_only_trans | | intros ?]
    | match goal with
      | |- keeps _ (match ?x with _ => _ end) => destruct x
      end ].

Lemma items_only_install_packages pkgs :
  keeps (@items_only W) (Core.install_packages pkgs).
Proof. unfold Core.install_packages, status_append. repeat items_only_step. Qed.

Lemma items_only__update depth e : keeps (@items_only W) (Core._update ctx depth e).
Proof.
  revert e. induction depth as [|depth IH]; intros e.
  - apply keeps_raise, items_only_refl.
  - cbn [Core._update]. unfold status_append.
    repeat first [ apply IH | apply items_only_install_packages | items_only_step ].
Qed.

(** X18: [update] asks its restart question with [wait_for_response],
    which hands back the reply itself and never [True].  So a run of
    [update] never restarts the bot, whatever is replied: the store is
    left as it was, nothing is published, and after the item messages
    come the one batch report and at most the unanswerable question. *)
Theorem update_never_restarts depth exts (f : frame W) :
  let r := Core.update ctx depth exts f in
  cache (snd r) = cache f
  ∧ ∃ items, forallb item_message items = true ∧
      match fst r with
      | Raise _ => sent (snd r) = sent f ++ items
      | Ret _ =>
          ∃ sections tail,
            sent (snd r) = sent f ++ items ++ [UpdateCompleted sections] ++ tail
            ∧ (tail = [] ∨ tail = [AskRestart])
      end.
Proof.
  cbv zeta. unfold Core.update.
  set (body := λ extension : string,
         let* _ := Core._update ctx depth extension in ret tt).
  assert (Hbody : ∀ x, keeps (@items_only W) (body x)).
  { intros x. apply keeps_bind; [apply items_only_trans | apply items_only__update |].
    intros _. apply keeps_ret, items_only_refl. }
  pose proof (keeps_for_each items_only items_only_refl items_only_trans
                (split (lower exts)) body Hbody) as Hloop.
  set (f0 := mkFrame (world f) (cache f) (command_prefix f) (sent f) ∅).
  specialize (Hloop f0). destruct Hloop as (Hcache & items & Hsent & Hitems).
  unfold bind, set_status, modify, get. cbv beta iota. fold f0.
  destruct (for_each (split (lower exts)) body f0) as [[[]|e] f1]; cbn [fst snd] in *.
  2:{ split; [exact Hcache|]. exists items. split; [exact Hitems | exact Hsent]. }
  unfold send, modify. cbv beta iota. cbn [status sent].
  destruct (nonempty (entry "updated_extensions" (status f1))).
  - unfold bind, send, modify, on_world. cbv beta iota.
    cbn [world cache command_prefix sent status].
    pose proof (reply_or_none ctx None (world f1)) as Hreply.
    destruct (wait_for_response ctx None (world f1)) as [answer w']. cbn [fst] in Hreply.
    rewrite Hreply. cbn [ret fst snd cache sent].
    split; [exact Hcache|]. exists items. split; [exact Hitems|].
    eexists _, [AskRestart]. rewrite Hsent. cbn [sent f0].
    split; [|by right]. by rewrite <- !app_assoc.
  - cbn [ret fst snd cache sent].
    split; [exact Hcache|]. exists items. split; [exact Hitems|].
    eexists _, []. rewrite Hsent. cbn [sent f0].
    split; [|by left]. by rewrite <- !app_assoc.
Qed.
End UpdateLog.

(** The reference [wait_for_response] hands back the reply or [None]. *)
Lemma ask_response_not_true c t (w : Sim.world) :
  is_True (fst (wait_for_response c t w)) = false.
Proof.
  cbn [wait_for_response Sim.collaborators]. unfold Sim.ask_response.
  destruct (Sim.wait_for_reply (Sim.from_author_here c)
              (default (Sim.default_timeout w) t) w) as [[m|] w']; reflexivity.
Qed.

Lemma update_never_restarts_witness :
  let r := Core.update Scenario.ctx 1 "lamp" (Sim.start Scenario.eager) in
  cache (snd r) = Sim.empty_cache
  ∧ sent (snd r)
    = [Updating "lamp"; UpdatedSuccessfully "lamp";
       UpdateCompleted [("Updated extensions:", ["lamp"])]; AskRestart].
Proof.
  split.
  - apply (update_never_restarts Scenario.ctx ask_response_not_true 1 "lamp"
             (Sim.start Scenario.eager)).
  - vm_compute. reflexivity.
Defined.

(** ** The token and the first start *)

Section Setup.
Context {W : Type} `{Collaborators W}.

Lemma print_run (p : printed) (f : frame (desk W)) :
  print p f = (inr tt, after_setup (console (world f) ++ [p]) (cache f) f).
Proof. reflexivity. Qed.

Lemma get_prefixes_cases (c : Cache) :
  (∃ l, CoreController.get_prefixes c = (Ret l, c))
  ∨ CoreController.get_prefixes c = (Raise TypeError, c).
Proof.
  unfold CoreController.get_prefixes.
  destruct (cache_get "prefixes" c) as [[]|]; eauto.
Qed.

(** What the prefix dialogue leaves behind, however it ends. *)
Lemma choose_prefix_keeps (stdin : list string) :
  ∀ (chosen : option string) (f : frame (desk W)) r f',
    Bot.choose_prefix chosen stdin f = (r, f') →
    (∃ cs c, f' = after_setup cs c f) ∧ ∀ code, r ≠ inl (SystemExit code).
Proof.
  induction stdin as [|line rest IH]; intros chosen f r f' Hrun.
  - cbn [Bot.choose_prefix] in Hrun. unfold bindx in Hrun. rewrite print_run in Hrun.
    inversion Hrun; subst. split; [by eexists _, _|]. intros code [=].
  - cbn [Bot.choose_prefix] in Hrun. unfold bindx at 1 in Hrun.
    rewrite print_run in Hrun.
    set (f1 := after_setup _ _ f) in Hrun.
    destruct chosen as [p|].
    + destruct (mem line ["y"; "yes"]).
      * unfold bindx, lift, on_cache in Hrun.
        destruct (CoreController.add_prefix p (cache f1)) as [[[]|e] c'];
          inversion Hrun; subst; (split; [by eexists _, _|intros code [=]]).
      * unfold bindx at 1 in Hrun. rewrite print_run in Hrun.
        apply IH in Hrun. destruct Hrun as [(cs & c & ->) Hf].
        split; [by exists cs, c|done].
    + destruct (String.eqb line "").
      * apply IH in Hrun. destruct Hrun as [(cs & c & ->) Hf].
        split; [by exists cs, c|done].
      * unfold bindx at 1 in Hrun. rewrite print_run in Hrun.
        apply IH in Hrun. destruct Hrun as [(cs & c & ->) Hf].
        split; [by exists cs, c|done].
Qed.

(** A dialogue that ends well has added one confirmed, non-empty line. *)
Lemma choose_prefix_done (stdin : list string) :
  ∀ (chosen : option string) (f : frame (desk W)) rest f',
    (∀ p, chosen = Some p → p ≠ "") →
    Bot.choose_prefix chosen stdin f = (inr rest, f') →
    ∃ p l cs,
      p ≠ "" ∧ (chosen = Some p ∨ p ∈ stdin)
      ∧ CoreController.get_prefixes (cache f) = (Ret l, cache f)
      ∧ (p ∉ l)
      ∧ f' = after_setup cs (snd (CoreController.set_prefixes (l ++ [p]) (cache f))) f.
Proof.
  induction stdin as [|line tail IH]; intros chosen f rest f' Hchosen Hrun.
  - cbn [Bot.choose_prefix] in Hrun. unfold bindx in Hrun. rewrite print_run in Hrun.
    discriminate.
  - cbn [Bot.choose_prefix] in Hrun. unfold bindx at 1 in Hrun.
    rewrite print_run in Hrun.
    set (f1 := after_setup _ _ f) in Hrun.
    destruct chosen as [p|].
    + destruct (mem line ["y"; "yes"]).
      * unfold bindx, lift, on_cache in Hrun.
        destruct (get_prefixes_cases (cache f1)) as [[l Hget]|Hbad].
        -- rewrite (add_prefix_run _ l p Hget) in Hrun.
           destruct (mem p l) eqn:Hmem; [discriminate|].
           unfold CoreController.set_prefixes, cache_set, modify in Hrun.
           inversion Hrun; subst.
           exists p, l, (console (world f1)).
           repeat split; eauto.
           intros Hin. apply mem_spec in Hin. congruence.
        -- unfold CoreController.add_prefix, bind in Hrun. rewrite Hbad in Hrun.
           discriminate.
      * unfold bindx at 1 in Hrun. rewrite print_run in Hrun.
        apply IH in Hrun; [|discriminate].
        destruct Hrun as (q & l & cs & Hq & Hin & Hget & Hnot & ->).
        exists q, l, cs. repeat split; eauto.
        destruct Hin as [?|Hin]; [discriminate|]. right. by constructor.
    + destruct (String.eqb line "") eqn:Hline.
      * apply IH in Hrun; [|discriminate].
        destruct Hrun as (q & l & cs & Hq & Hin & Hget & Hnot & ->).
        exists q, l, cs. repeat split; eauto.
        destruct Hin as [?|Hin]; [discriminate|]. right. by constructor.
      * unfold bindx at 1 in Hrun. rewrite print_run in Hrun.
        apply IH in Hrun.
        2:{ intros q [= <-] ->. by rewrite String.eqb_refl in Hline. }
        destruct Hrun as (q & l & cs & Hq & Hin & Hget & Hnot & ->).
        exists q, l, cs. repeat split; eauto.
        destruct Hin as [[= <-]|Hin]; right; [apply list_elem_of_here|by constructor].
Qed.

(** X12: when [initial_config] returns, the first line typed has 50
    characters or more and is the stored token, so the bot counts as
    configured, and exactly one prefix was appended to the stored
    list: a non-empty line that was typed and was not a prefix before.
    No message was sent. *)
Theorem initial_config_completes (stdin : list string) (f : frame (desk W)) :
  fst (Bot.initial_config stdin f) = inr tt →
  let f' := snd (Bot.initial_config stdin f) in
  ∃ t p l,
    stdin !! 0%nat = Some t
    ∧ (50 ≤ String.length t)%nat
    ∧ token (world f') = Some t
    ∧ Bot.is_configured f' = true
    ∧ p ≠ "" ∧ p ∈ stdin
    ∧ CoreController.get_prefixes (cache f) = (Ret l, cache f)
    ∧ (p ∉ l)
    ∧ CoreController.get_prefixes (cache f') = (Ret (l ++ [p]), cache f')
    ∧ notices (world f') = notices (world f).
Proof.
  destruct (Bot.initial_config stdin f) as [r f'] eqn:Hrun.
  cbn [fst snd]. intros ->.
  unfold Bot.initial_config in Hrun.
  unfold bindx at 1 in Hrun. rewrite print_run in Hrun.
  unfold bindx at 1 in Hrun. rewrite print_run in Hrun.
  destruct stdin as [|t rest]; [discriminate|].
  unfold bindx at 1 in Hrun.
  destruct (50 <=? String.length t)%nat eqn:Hlen.
  2:{ unfold bindx at 1 in Hrun. rewrite print_run in Hrun. discriminate. }
  apply Nat.leb_le in Hlen.
  unfold base_set_token, on_desk in Hrun.
  unfold bindx at 1 in Hrun. rewrite print_run in Hrun.
  unfold bindx at 1 in Hrun.
  match type of Hrun with context [Bot.choose_prefix None rest ?g] => set (f1 := g) in * end.
  destruct (Bot.choose_prefix None rest f1) as [[r|rest'] f2] eqn:Hchoose; [discriminate|].
  apply choose_prefix_done in Hchoose; [|discriminate].
  destruct Hchoose as (p & l & cs & Hp & Hin & Hget & Hnot & ->).
  unfold bindx at 1 in Hrun. rewrite print_run in Hrun.
  unfold bindx at 1 in Hrun. rewrite print_run in Hrun.
  destruct rest' as [|? ?]; [discriminate|].
  inversion Hrun; subst f'. clear Hrun.
  exists t, p, l. cbn.
  destruct Hin as [?|Hin]; [discriminate|].
  repeat split; eauto.
  - by constructor.
  - unfold CoreController.get_prefixes, cache_get. cbn [store].
    by rewrite lookup_insert_eq.
Qed.

(** X13: a token of exactly 50 characters is stored by the first-start
    dialogue and refused by the [set_token] command, which answers
    that the token is invalid and keeps the old one. *)
Theorem token_of_fifty_characters (ctx : Context) (t : string) (stdin : list string)
    (f : frame (desk W)) :
  String.length t = 50%nat →
  let '(r, f1) := Core.set_token ctx t f in
  let '(r', f2) := Bot.initial_config (t :: stdin) f in
  r = inr tt
  ∧ token (world f1) = token (world f)
  ∧ notices (world f1) = notices (world f) ++ [(channel (message ctx), InvalidToken)]
  ∧ token (world f2) = Some t
  ∧ ∀ code, r' ≠ inl (SystemExit code).
Proof.
  intros Hlen. unfold Core.set_token, Bot.initial_config. rewrite Hlen.
  cbn [Nat.ltb Nat.leb]. 
  change (50 <? 50)%nat with false. change (50 <=? 50)%nat with true.
  cbv iota.
  unfold bindx at 1. rewrite print_run.
  unfold bindx at 1. rewrite print_run.
  unfold bindx at 1. unfold base_set_token, on_desk.
  unfold bindx at 1. rewrite print_run.
  unfold bindx at 1.
  match goal with |- context [Bot.choose_prefix None stdin ?g] => set (f1 := g) end.
  destruct (Bot.choose_prefix None stdin f1) as [[r|rest'] f2] eqn:Hrun;
    destruct (choose_prefix_keeps _ _ _ _ _ Hrun) as [(cs & c & ->) Hf].
  - cbn. split_and!; [done..|]. intros code [= ->]. by apply (Hf code).
  - unfold bindx at 1. rewrite print_run.
    unfold bindx at 1. rewrite print_run.
    destruct rest'; cbn; (split_and!; [done..|intros code [=]]).
Qed.

End Setup.

Lemma initial_config_completes_witness :
  let f' := snd (Bot.initial_config Scenario.setup_lines Scenario.fresh) in
  ∃ t p l,
    Scenario.setup_lines !! 0%nat = Some t
    ∧ (50 ≤ String.length t)%nat
    ∧ token (world f') = Some t
    ∧ Bot.is_configured f' = true
    ∧ p ≠ "" ∧ p ∈ Scenario.setup_lines
    ∧ CoreController.get_prefixes (cache Scenario.fresh) = (Ret l, cache Scenario.fresh)
    ∧ (p ∉ l)
    ∧ CoreController.get_prefixes (cache f') = (Ret (l ++ [p]), cache f')
    ∧ notices (world f') = notices (world Scenario.fresh).
Proof.
  apply (initial_config_completes Scenario.setup_lines Scenario.fresh).
  vm_compute. reflexivity.
Defined.

Lemma token_of_fifty_characters_witness :
  token (world (snd (Core.set_token Scenario.ctx Scenario.fifty Scenario.fresh))) = None
  ∧ token (world (snd (Bot.initial_config [Scenario.fifty] Scenario.fresh)))
    = Some Scenario.fifty.
Proof.
  pose proof (token_of_fifty_characters Scenario.ctx Scenario.fifty []
                Scenario.fresh eq_refl) as Hfifty.
  destruct (Core.set_token Scenario.ctx Scenario.fifty Scenario.fresh) as [r f1].
  destruct (Bot.initial_config [Scenario.fifty] Scenario.fresh) as [r' f2].
  destruct Hfifty as (_ & Hkept & _ & Hstored & _).
  split; [exact Hkept | exact Hstored].
Defined.

(** ** Events of the process *)

Ltac proj :=
  cbn [world inner token notices console users cache command_prefix sent status
       store published] in *.

Section Process.
Context {W : Type} `{Collaborators W}.

(** X14: [on_command_completion] looks for the author's row after
    having created it, so it finds every author registered: it counts
    the command and never sends the registration message, also for an
    author seen for the first time. *)
Theorem on_command_completion_never_greets (default_count : nat)
    (author_name : string) (ctx : Context) (f : frame (desk W)) :
  let id := user_id (author (message ctx)) in
  let '(r, f') := Bot.on_command_completion default_count author_name ctx f in
  r = inr tt
  ∧ notices (world f') = notices (world f)
  ∧ users (world f')
    = <[id := (default default_count (users (world f) !! id) + 1)%nat]> (users (world f))
  ∧ inner (world f') = inner (world f)
  ∧ cache f' = cache f.
Proof.
  intros id. subst id.
  destruct f as [[w tk ns cs us] c cp s st].
  unfold Bot.on_command_completion, bindx, Bot.get_or_create, Bot.exists_user,
    Bot.save_user, on_desk.
  cbn [world inner token notices console users cache command_prefix sent status].
  destruct (us !! user_id (author (message ctx))) as [n|] eqn:Hrow;
    cbn [world inner token notices console users cache command_prefix sent status
         default].
  - rewrite Hrow. rewrite bool_decide_true by eauto. cbn. done.
  - rewrite lookup_insert_eq. rewrite bool_decide_true by eauto. cbn.
    by rewrite insert_insert_eq.
Qed.

End Process.

Section ServersCommand.
Context {W : Type} `{Collaborators W}.
Variable ctx : Context.
Local Existing Instance desk_collaborators.

Lemma item_imap_int (s : string) (g : nat → nat) (guilds : list string) :
  item (KStr s) (imap (λ i x, (KInt (g i), x)) guilds) = None.
Proof.
  revert g. induction guilds as [|x l IH]; intros g; [done|].
  cbn. apply (IH (g ∘ S)).
Qed.

(** A string is no key of a listing keyed by numbers. *)
Lemma item_enumerate (s : string) (guilds : list string) :
  item (KStr s) (Core.enumerate guilds) = None.
Proof. apply (item_imap_int s id). Qed.

Lemma tell_pages_run (target : Z) (pages : list string) (f : frame (desk W)) :
  Core.tell_pages target pages f
  = (inr tt,
     mkFrame (mkDesk (inner (world f)) (token (world f))
                (notices (world f) ++ map (λ p, (target, ServerPage p)) pages)
                (console (world f)) (users (world f)))
             (cache f) (command_prefix f) (sent f) (status f)).
Proof.
  revert f. induction pages as [|p l IH]; intros [[w tk ns cs us] c cp s st].
  - cbn. by rewrite app_nil_r.
  - cbn [Core.tell_pages]. unfold bindx at 1. cbn [tell on_desk].
    rewrite IH. cbn. by rewrite <- app_assoc.
Qed.

(** X15: the [servers] command never leaves a server.  The listing is
    keyed by numbers and the reply is text, so no reply is a key: the
    command waits once, asks no confirmation, and ends with the hint
    to invoke it again, or with [AttributeError] for a reply that has
    no content. *)
Theorem servers_never_leaves (rounds : nat) (guilds : list string)
    (pagify : list (nat * string) → list string) (current_guild : option string)
    (prefix invoked_with : string) (f : frame (desk W)) :
  let here := channel (message ctx) in
  let pages := map (λ p, (here, ServerPage p))
                   (pagify (imap (λ i guild, (i, guild)) guilds)) in
  let reply := wait_for_response ctx (Some 30) (inner (world f)) in
  let '(r, f') := Core.servers ctx (S rounds) guilds pagify current_guild
                    prefix invoked_with f in
  inner (world f') = snd reply
  ∧ sent f' = sent f
  ∧ cache f' = cache f
  ∧ match fst reply with
    | PyNone | PyMessage _ =>
        r = inr (Some tt)
        ∧ notices (world f')
          = notices (world f) ++ pages ++ [(here, ReinvokeServers prefix invoked_with)]
    | PyTrue | PyFalse =>
        r = inl AttributeError
        ∧ notices (world f') = notices (world f) ++ pages
    end.
Proof.
  intros here pages reply. subst here pages reply.
  unfold Core.servers. unfold bindx at 1. rewrite tell_pages_run.
  destruct f as [[w tk ns cs us] c cp s st].
  cbn [world inner token notices console users cache command_prefix sent status].
  unfold bindx at 1. cbn [Core.servers_loop].
  unfold bindx at 1. unfold lift, on_world.
  cbn [world inner token notices console users cache command_prefix sent status
       wait_for_response desk_collaborators].
  unfold on_inner.
  cbn [world inner token notices console users cache command_prefix sent status].
  destruct (wait_for_response ctx (Some 30) w) as [[| | |text] w'];
    cbn [fst snd world inner notices sent cache raisex retx].
  - done.
  - done.
  - cbn. by rewrite <- app_assoc.
  - rewrite item_enumerate. cbn. by rewrite <- app_assoc.
Qed.

End ServersCommand.

Section Ready.
Context {W : Type} `{Collaborators W}.
Local Existing Instance desk_collaborators.

Lemma print_mk (p : printed) (w : W) tk ns cs us c cp s st :
  print p (mkFrame (mkDesk w tk ns cs us) c cp s st)
  = (inr tt, mkFrame (mkDesk w tk ns (cs ++ [p]) us) c cp s st).
Proof. reflexivity. Qed.

Lemma lift_on_cache_mk {A} (m : M Cache A) (d : desk W) c cp s st :
  lift (on_cache m) (mkFrame d c cp s st)
  = match m c with
    | (Ret a, c') => (inr a, mkFrame d c' cp s st)
    | (Raise e, c') => (inl (Exn e), mkFrame d c' cp s st)
    end.
Proof. unfold lift, on_cache. cbn [cache]. by destruct (m c) as [[a|e] c']. Qed.

(** The first step of [on_ready]: the owner is recorded when none is. *)
Lemma owner_step (data : application) (w : W) tk ns cs us st pub cp s sts :
  ∃ st1 cs1,
    match st !! "owner" with
    | None => Bot.set_bot_owner_from (inr data)
    | Some _ => retx tt
    end (mkFrame (mkDesk w tk ns cs us) (mkCache st pub) cp s sts)
    = (inr tt, mkFrame (mkDesk w tk ns cs1 us) (mkCache st1 pub) cp s sts)
    ∧ (∀ key, key ≠ "owner" → st1 !! key = st !! key)
    ∧ st1 !! "owner" = Some (default (VId (owner_id data)) (st !! "owner"))
    ∧ (is_Some (st !! "owner") → st1 = st ∧ cs1 = cs).
Proof.
  destruct (st !! "owner") as [v|] eqn:Howner.
  - exists st, cs. split_and!; try done.
  - exists (<["owner" := VId (owner_id data)]> st),
      (cs ++ [OwnerRecognized (owner_name data)]).
    split_and!.
    + reflexivity.
    + intros key Hkey. by rewrite lookup_insert_ne.
    + by rewrite lookup_insert_eq.
    + by intros [? [=]].
Qed.

(** A start without a record of a restart goes through: it sends
    nothing and leaves restarting enabled. *)
Lemma on_ready_fresh (data data' : application) (bot_name : string)
    (guild_count channel_count : nat) (l : list string) (f : frame (desk W)) :
  CoreController.get_prefixes (cache f) = (Ret l, cache f) →
  CoreController.get_restarted_from (cache f) = None →
  ∃ f',
    Bot.on_ready (inr data) (inr data') bot_name guild_count channel_count f
    = (inr tt, f')
    ∧ notices (world f') = notices (world f)
    ∧ CoreController.restarting_enabled (cache f') = VBool true
    ∧ CoreController.get_restarted_from (cache f') = None
    ∧ published (cache f') = published (cache f).
Proof.
  destruct f as [[w tk ns cs us] [st pub] cp s sts].
  unfold CoreController.get_prefixes, CoreController.get_restarted_from,
    CoreController.restarting_enabled, cache_get.
  proj. intros Hget Hfrom.
  assert (Hpre : ∀ st', st' !! "prefixes" = st !! "prefixes" →
            ∀ pub', CoreController.get_prefixes (mkCache st' pub')
                    = (Ret l, mkCache st' pub')).
  { intros st' Heq pub'. unfold CoreController.get_prefixes, cache_get in *.
    cbn [store] in *. rewrite Heq.
    destruct (st !! "prefixes") as [[]|]; inversion Hget; subst; reflexivity. }
  destruct (owner_step data w tk ns cs us st pub cp s sts)
    as (st1 & cs1 & Hfirst & Hother & _ & _).
  unfold Bot.on_ready.
  unfold bindx at 1. rewrite lift_on_cache_mk. cbn [get]. cbv beta iota.
  unfold CoreController.get_owner_id, cache_get. cbn [store].
  unfold bindx at 1. rewrite Hfirst. cbv beta iota.
  unfold bindx at 1. rewrite lift_on_cache_mk. cbn [get]. cbv beta iota.
  unfold CoreController.get_restarted_from, cache_get. cbn [store].
  rewrite (Hother "restarted_from") by done. rewrite Hfrom.
  unfold bindx at 1. cbn [retx]. cbv beta iota.
  eexists (mkFrame (mkDesk w tk ns _ us)
             (mkCache (<["is_supposed_to_be_running" := VBool true]> st1) pub)
             cp s sts).
  split.
  - repeat (unfold bindx at 1; rewrite print_mk; cbv beta iota).
    unfold bindx at 1. cbv beta iota. proj.
    repeat (unfold bindx at 1; rewrite print_mk; cbv beta iota).
    unfold bindx at 1. cbv beta iota. proj.
    repeat (unfold bindx at 1; rewrite print_mk; cbv beta iota).
    unfold bindx at 1. rewrite lift_on_cache_mk, (Hpre st1 (Hother "prefixes" ltac:(done)) pub).
    cbv beta iota.
    unfold bindx at 1. rewrite lift_on_cache_mk, (Hpre st1 (Hother "prefixes" ltac:(done)) pub).
    cbv beta iota.
    repeat (unfold bindx at 1; rewrite print_mk; cbv beta iota).
    unfold bindx at 1. cbn [Bot.get_oauth_url retx]. cbv beta iota.
    repeat (unfold bindx at 1; rewrite print_mk; cbv beta iota).
    rewrite lift_on_cache_mk. reflexivity.
  - proj. split_and!; try reflexivity.
    + by rewrite lookup_insert_eq.
    + rewrite lookup_insert_ne by done. by rewrite Hother.
Qed.

(** A start that finds the record of a restart ends at the message it
    would send there: nothing is sent, the record stays, and the
    running flag is as it was. *)
Lemma on_ready_after_restart (data : application) (url_info : raised + application)
    (bot_name : string) (guild_count channel_count : nat) (origin : cache_value)
    (f : frame (desk W)) :
  CoreController.get_restarted_from (cache f) = Some origin →
  ∃ f',
    Bot.on_ready (inr data) url_info bot_name guild_count channel_count f
    = (inl AttributeError, f')
    ∧ notices (world f') = notices (world f)
    ∧ CoreController.get_restarted_from (cache f') = Some origin
    ∧ CoreController.restarting_enabled (cache f')
      = CoreController.restarting_enabled (cache f)
    ∧ published (cache f') = published (cache f)
    ∧ is_Some (CoreController.get_owner_id (cache f'))
    ∧ (is_Some (CoreController.get_owner_id (cache f)) → f' = f).
Proof.
  destruct f as [[w tk ns cs us] [st pub] cp s sts].
  unfold CoreController.get_restarted_from, CoreController.restarting_enabled,
    CoreController.get_owner_id, cache_get.
  proj. intros Hfrom.
  destruct (owner_step data w tk ns cs us st pub cp s sts)
    as (st1 & cs1 & Hfirst & Hother & Howner & Hsame).
  unfold Bot.on_ready.
  unfold bindx at 1. rewrite lift_on_cache_mk. cbn [get]. cbv beta iota.
  unfold CoreController.get_owner_id, cache_get. cbn [store].
  unfold bindx at 1. rewrite Hfirst. cbv beta iota.
  unfold bindx at 1. rewrite lift_on_cache_mk. cbn [get]. cbv beta iota.
  unfold CoreController.get_restarted_from, cache_get. cbn [store].
  rewrite (Hother "restarted_from") by done. rewrite Hfrom.
  unfold bindx at 1. unfold bindx at 1. unfold Bot.send_message at 1, raisex at 1.
  cbv beta iota.
  eexists. split; [reflexivity|]. proj.
  split_and!; try reflexivity.
  - by rewrite Hother.
  - by rewrite Hother.
  - by rewrite Howner.
  - intros Hset. by destruct (Hsame Hset) as [-> ->].
Qed.

(** X16: the [restart] command and the next start.  The command sends
    its notice, records where it came from, the author in a private
    conversation and the channel otherwise, and publishes the restart.
    The next [on_ready] finds the record and ends with
    [AttributeError] at [self.send_message], which no class provides:
    the return message is not sent, the record is not cleared and
    restarting is not enabled, and every later [on_ready] ends the
    same way, in the same state.  Without such a record [on_ready]
    goes through and enables restarting. *)
Theorem restart_then_ready (ctx : Context) (guild : option Z)
    (data data' : application) (url_info : raised + application)
    (bot_name : string) (guild_count channel_count : nat)
    (l : list string) (f : frame (desk W)) :
  let here := channel (message ctx) in
  let origin := match guild with
                | None => user_id (author (message ctx))
                | Some _ => here
                end in
  let ready := Bot.on_ready (inr data) url_info bot_name guild_count channel_count in
  let '(r1, f1) := Core.restart ctx guild f in
  let '(r2, f2) := ready f1 in
  let '(r3, f3) := ready f2 in
  (r1 = inr tt
   ∧ published (cache f1) = published (cache f) ++ ["restart"]
   ∧ CoreController.get_restarted_from (cache f1) = Some (VId origin))
  ∧ (r2 = inl AttributeError
     ∧ notices (world f2) = notices (world f) ++ [(here, IllBeRightBack)]
     ∧ CoreController.get_restarted_from (cache f2) = Some (VId origin)
     ∧ CoreController.restarting_enabled (cache f2)
       = CoreController.restarting_enabled (cache f))
  ∧ (r3 = inl AttributeError ∧ f3 = f2)
  ∧ (CoreController.get_restarted_from (cache f) = None →
     CoreController.get_prefixes (cache f) = (Ret l, cache f) →
     ∃ f', Bot.on_ready (inr data) (inr data') bot_name guild_count channel_count f
           = (inr tt, f')
           ∧ notices (world f') = notices (world f)
           ∧ CoreController.restarting_enabled (cache f') = VBool true).
Proof.
  intros here origin ready.
  destruct (Core.restart ctx guild f) as [r1 f1] eqn:Hrestart.
  assert (Hf1 : r1 = inr tt
    ∧ published (cache f1) = published (cache f) ++ ["restart"]
    ∧ notices (world f1) = notices (world f) ++ [(here, IllBeRightBack)]
    ∧ CoreController.get_restarted_from (cache f1) = Some (VId origin)
    ∧ CoreController.restarting_enabled (cache f1)
      = CoreController.restarting_enabled (cache f)).
  { destruct f as [[w tk ns cs us] [st pub] cp s sts].
    unfold Core.restart, bindx, Core.say, tell, on_desk, lift, on_cache,
      CoreController.restart, CoreController.set_restarted_from, cache_set,
      cache_publish, bind, modify in Hrestart.
    proj. inversion Hrestart; subst r1 f1. proj.
    unfold CoreController.get_restarted_from, CoreController.restarting_enabled,
      cache_get. proj. rewrite lookup_insert_eq.
    rewrite lookup_insert_ne by done. done. }
  destruct Hf1 as (-> & Hpub1 & Hns1 & Hfrom1 & Hon1).
  destruct (on_ready_after_restart data url_info bot_name guild_count channel_count
              (VId origin) f1 Hfrom1)
    as (f2 & Hrun2 & Hns2 & Hfrom2 & Hon2 & _ & Howner2 & _).
  subst ready. cbv beta. rewrite Hrun2.
  destruct (on_ready_after_restart data url_info bot_name guild_count channel_count
              (VId origin) f2 Hfrom2)
    as (f3 & Hrun3 & _ & _ & _ & _ & _ & Hsame).
  rewrite Hrun3. rewrite (Hsame Howner2).
  split_and!; try done.
  - by rewrite Hns2.
  - by rewrite Hon2.
  - intros Hnone Hget.
    destruct (on_ready_fresh data data' bot_name guild_count channel_count l f
                Hget Hnone) as (f' & Hrun & Hns & Hon & _).
    by exists f'.
Qed.
End Ready.

Lemma restart_then_ready_witness :
  let ready := Bot.on_ready (inr Scenario.the_application) (inr Scenario.the_application)
                 "dwarf" 1 1 in
  let f2 := snd (ready (snd (Core.restart Scenario.ctx None Scenario.fresh))) in
  fst (ready (snd (Core.restart Scenario.ctx None Scenario.fresh))) = inl AttributeError
  ∧ notices (world f2) = [(7%Z, IllBeRightBack)]
  ∧ CoreController.get_restarted_from (cache f2) = Some (VId 1)
  ∧ ready f2 = (inl AttributeError, f2).
Proof.
  pose proof (restart_then_ready Scenario.ctx None Scenario.the_application
                Scenario.the_application (inr Scenario.the_application)
                "dwarf" 1 1 [] Scenario.fresh) as Hback.
  cbv zeta in Hback |- *.
  destruct (Core.restart Scenario.ctx None Scenario.fresh) as [r1 f1].
  cbn [snd].
  destruct (Bot.on_ready (inr Scenario.the_application) (inr Scenario.the_application)
              "dwarf" 1 1 f1) as [r2 f2].
  cbn [fst snd].
  destruct (Bot.on_ready (inr Scenario.the_application) (inr Scenario.the_application)
              "dwarf" 1 1 f2) as [r3 f3].
  destruct Hback as (_ & (Hraise & Hsent & Hrecord & _) & (Hagain & Hsame) & _).
  split_and!; [exact Hraise | exact Hsent | exact Hrecord | by rewrite Hagain, Hsame].
Defined.

(** ** Start of the process *)

Section Run.
Context {W : Type} `{Collaborators W}.
Variable ctx : Context.

(** X19: once the extensions are loaded, [run] logs in with a prefix
    attribute that is not empty: the stored list, or ["!"] when none
    is stored.  The fallback is not written to the store, so with it
    the [prefixes] command still raises [IndexError]. *)
Theorem run_starts_with_a_prefix (load_cogs : X (frame (desk W)) unit)
    (start : option string → X (frame (desk W)) unit)
    (l : list string) (f f1 : frame (desk W)) :
  load_cogs f = (inr tt, f1) →
  CoreController.get_prefixes (cache f1) = (Ret l, cache f1) →
  ∃ f2,
    Bot.run load_cogs start f = start (token (world f2)) f2
    ∧ command_prefix f2 = (if nonempty l then l else ["!"])
    ∧ command_prefix f2 ≠ []
    ∧ cache f2 = cache f1
    ∧ token (world f2) = token (world f1)
    ∧ notices (world f2) = notices (world f1)
    ∧ (l = [] → Core.prefixes ctx f2 = (inl (Exn IndexError), f2)).
Proof.
  intros Hload Hget.
  destruct f1 as [[w tk ns cs us] c cp s sts]. cbn [cache] in Hget.
  unfold Bot.run. unfold bindx at 1. rewrite Hload. cbv beta iota.
  unfold bindx at 1. rewrite lift_on_cache_mk, Hget. cbv beta iota.
  destruct l as [|p l]; cbn [nonempty].
  - eexists (mkFrame (mkDesk w tk ns _ us) c _ s sts). split.
    + unfold bindx at 1. unfold bindx at 1. rewrite print_mk. cbv beta iota.
      unfold lift at 1, set_command_prefix at 1, modify at 1. cbv beta iota. proj.
      unfold bindx at 1. rewrite print_mk. cbv beta iota.
      unfold bindx at 1. unfold lift at 1, get at 1. cbv beta iota.
      unfold bindx at 1. cbn [command_prefix lookup list_lookup].
      rewrite print_mk. cbv beta iota.
      unfold bindx at 1. rewrite print_mk. cbv beta iota.
      unfold bindx at 1. unfold lift at 1, get at 1. cbv beta iota.
      unfold base_get_token. proj. reflexivity.
    + proj. split_and!; try done.
      intros _. unfold Core.prefixes, bindx.
      rewrite lift_on_cache_mk, Hget. reflexivity.
  - eexists (mkFrame (mkDesk w tk ns _ us) c _ s sts). split.
    + unfold bindx at 1. unfold bindx at 1. rewrite lift_on_cache_mk, Hget.
      cbv beta iota.
      unfold lift at 1, set_command_prefix at 1, modify at 1. cbv beta iota. proj.
      unfold bindx at 1. rewrite print_mk. cbv beta iota.
      unfold bindx at 1. unfold lift at 1, get at 1. cbv beta iota.
      unfold bindx at 1. cbn [command_prefix lookup list_lookup].
      rewrite print_mk. cbv beta iota.
      unfold bindx at 1. rewrite print_mk. cbv beta iota.
      unfold bindx at 1. unfold lift at 1, get at 1. cbv beta iota.
      unfold base_get_token. proj. reflexivity.
    + proj. split_and!; done.
Qed.
End Run.

Lemma run_starts_with_a_prefix_witness :
  ∃ f2,
    Bot.run (retx tt) (λ _, retx tt) Scenario.fresh = (inr tt, f2)
    ∧ command_prefix f2 = ["!"]
    ∧ Core.prefixes Scenario.ctx f2 = (inl (Exn IndexError), f2).
Proof.
  destruct (run_starts_with_a_prefix Scenario.ctx (retx tt) (λ _, retx tt) []
              Scenario.fresh Scenario.fresh eq_refl eq_refl)
    as (f2 & Hrun & Hattr & _ & _ & _ & _ & Hraise).
  exists f2. split; [exact Hrun|]. split; [exact Hattr | exact (Hraise eq_refl)].
Defined.
